(** * Chat synchronisation and messaging coordinator

    A shallow embedding of the cross-tab chat subsystem of the school
    front-end: the event bus ([utils/chatEventBus.ts]), the sync hook
    ([hooks/useChatSync.ts]), the REST orchestration ([services/chats.ts])
    and the chat wrapper ([components/chat/ChatWrapper.tsx]), followed by
    the properties the specification states about them.

    Conventions.
    - JavaScript strings are [string]; one element stands for one UTF-16
      code unit, which is what [length] and [slice] count.
    - An optional or nullable value is an [option]; "falsy" strings
      ([undefined], [null], the empty string) are recognised by [truthy].
    - Timestamps are the integers [Date.now()] returns, as [Z]; what a
      relayed text carries in their place is a [Stamp].
    - A function object is named by an identifier; two function objects
      are the same listener exactly when their identifiers agree. *)

From Stdlib Require Import ZArith String List Bool Lia Sorted DecimalString.
From stdpp Require Import gmap strings list.

Open Scope string_scope.
Open Scope list_scope.

(** JavaScript truthiness of a [string | undefined] value. *)
Definition truthy (s : option string) : bool :=
  match s with
  | Some v => negb (String.eqb v "")
  | None => false
  end.

(** [a || b] on optional strings: the first truthy operand, else the second. *)
Definition or_else (a b : option string) : option string :=
  if truthy a then a else b.

(** Strict equality [===] on [string | undefined]. *)
Definition strict_eq (a b : option string) : bool :=
  bool_decide (a = b).

(* ===================================================================== *)
(** * Shared data types ([services/chats.ts]) *)
(* ===================================================================== *)

(** A structured block of an assistant reply, kept as its JSON text. *)
Definition Block := string.

(** Any other JSON value, kept as its text. *)
Definition Json := string.

Record Conversation := {
  c_id : string;
  c_title : string;
  c_first_message : string;
  c_last_activity : string;
  c_message_count : Z;
  c_is_archived : bool;
  c_created_at : string
}.

Record ChatResponse := {
  response : string;
  r_intent : option string;
  conversation_id : option string;
  message_id : option string;
  r_blocks : option (list Block);
  attachment_processed : option bool
}.

(** The argument of [updateConversation]. *)
Record Updates := {
  u_title : option string;
  u_is_archived : option bool
}.

(** The [data] payload of a chat event ([any] in the source): what the
    chat service attaches, or whatever a relayed event carried. *)
Inductive Payload :=
  | PConversation (c : Conversation)
  | PMessage (message : string) (reply : string)
  | PUpdates (u : Updates)
  | PRaw (j : Json).

(* ===================================================================== *)
(** * The event bus ([utils/chatEventBus.ts]) *)
(* ===================================================================== *)

Module EventBus.

Inductive ChatEventType :=
  | conversation_created
  | conversation_updated
  | conversation_deleted
  | message_sent
  | force_refresh.

#[global] Instance ChatEventType_eq_dec : EqDecision ChatEventType.
Proof. solve_decision. Defined.

Record ChatEvent := {
  type : ChatEventType;
  conversationId : option string;
  data : option Payload;
  timestamp : Z;
  userId : option string
}.

(** The first argument of [subscribe]: an event type or the wildcard. *)
Inductive Topic :=
  | On (t : ChatEventType)
  | Star.

Definition type_name (t : ChatEventType) : string :=
  match t with
  | conversation_created => "conversation_created"
  | conversation_updated => "conversation_updated"
  | conversation_deleted => "conversation_deleted"
  | message_sent => "message_sent"
  | force_refresh => "force_refresh"
  end.

(** The key of the [listeners] map a topic is stored under. *)
Definition topic_key (k : Topic) : string :=
  match k with
  | On t => type_name t
  | Star => "*"
  end.

(** A subscribed callback, named by the identity of its function object. *)
Definition Callback := nat.

(** The [timestamp] property of a value [JSON.parse] returned: an integer,
    nothing ([undefined], also for a value that has no such property), or
    any other value (a fraction, a string, [null], a boolean, an array,
    an object), kept as its JSON text. *)
Inductive Stamp :=
  | Integer (n : Z)
  | Absent
  | Strange (json : string).

#[global] Instance Stamp_eq_dec : EqDecision Stamp.
Proof. solve_decision. Defined.

(** The instance state: [listeners] and [lastEventTimestamp]. The field
    starts at 0 and is assigned whatever [timestamp] a relayed value has. *)
Record ChatEventBus := {
  listeners : gmap string (list Callback);
  lastEventTimestamp : Stamp
}.

(** One listener invocation [listener(event)]. *)
Abbreviation Call := (Callback * ChatEvent)%type.

(** A value [JSON.parse] returned for a relayed text, other than [null]:
    an event as the interface [ChatEvent] declares it, or any other value,
    of which the bus reads the [type] (kept when it is a string, the only
    kind of key the listener map has) and the [timestamp]. The cast in
    [handleStorageEvent] checks nothing, so either kind gets through. *)
Inductive Parsed :=
  | Typed (event : ChatEvent)
  | Untyped (name : option string) (stamp : Stamp).

Definition stamp_of (value : Parsed) : Stamp :=
  match value with
  | Typed event => Integer (timestamp event)
  | Untyped _ stamp => stamp
  end.

(** [event.type] as a key of the listener map, if it can be one. *)
Definition key_of (value : Parsed) : option string :=
  match value with
  | Typed event => Some (type_name (type event))
  | Untyped k _ => k
  end.

(** One listener invocation made for a relayed value. *)
Abbreviation Delivery := (Callback * Parsed)%type.

(** ** Environment listeners

    [window] and [document] keep, per target, the registered
    [(event name, function object)] pairs. [this.handleStorageEvent] and
    its siblings are per-instance arrow-function properties; every
    evaluation of [f.bind(this)] allocates a new function object. *)

Inductive Handler :=
  | handleStorageEvent_fn
  | handleWindowFocus_fn
  | handleVisibilityChange_fn.

Inductive FnRef :=
  | Own (h : Handler)
  | Bound (h : Handler) (serial : nat).

#[global] Instance Handler_eq_dec : EqDecision Handler.
Proof. solve_decision. Defined.

#[global] Instance FnRef_eq_dec : EqDecision FnRef.
Proof. solve_decision. Defined.

Definition Registration : Type := string * FnRef.

Record Env := {
  window_defined : bool;
  window_listeners : list Registration;
  document_listeners : list Registration;
  next_serial : nat
}.

(** [target.addEventListener(name, fn)]: an identical registration is
    not added twice. *)
Definition addEventListener (regs : list Registration) (name : string) (fn : FnRef)
  : list Registration :=
  if bool_decide ((name, fn) ∈ regs) then regs else regs ++ [(name, fn)].

(** [target.removeEventListener(name, fn)]: drops the registration of that
    very function object, if there is one. *)
Definition removeEventListener (regs : list Registration) (name : string) (fn : FnRef)
  : list Registration :=
  filter (fun r => r ≠ (name, fn)) regs.

(** [f.bind(this)]: a new function object and the advanced allocator. *)
Definition bind (h : Handler) (serial : nat) : FnRef * nat :=
  (Bound h serial, S serial).

(** [new ChatEventBus()]. *)
Definition constructor (env : Env) : ChatEventBus * Env :=
  let bus := {| listeners := ∅; lastEventTimestamp := Integer 0 |} in
  if window_defined env then
    let '(f1, n1) := bind handleStorageEvent_fn (next_serial env) in
    let w1 := addEventListener (window_listeners env) "storage" f1 in
    let '(f2, n2) := bind handleWindowFocus_fn n1 in
    let w2 := addEventListener w1 "focus" f2 in
    let '(f3, n3) := bind handleVisibilityChange_fn n2 in
    let d1 := addEventListener (document_listeners env) "visibilitychange" f3 in
    (bus, {| window_defined := true; window_listeners := w2;
             document_listeners := d1; next_serial := n3 |})
  else (bus, env).

(** [destroy()]. *)
Definition destroy (bus : ChatEventBus) (env : Env) : ChatEventBus * Env :=
  let env' :=
    if window_defined env then
      let w1 := removeEventListener (window_listeners env) "storage" (Own handleStorageEvent_fn) in
      let w2 := removeEventListener w1 "focus" (Own handleWindowFocus_fn) in
      let d1 := removeEventListener (document_listeners env) "visibilitychange"
                  (Own handleVisibilityChange_fn) in
      {| window_defined := true; window_listeners := w2;
         document_listeners := d1; next_serial := next_serial env |}
    else env in
  ({| listeners := ∅; lastEventTimestamp := lastEventTimestamp bus |}, env').

(** ** Subscriptions *)

(** [array.indexOf(x)], with [None] for [-1]. *)
Fixpoint indexOf (x : Callback) (l : list Callback) : option nat :=
  match l with
  | [] => None
  | y :: l' => if Nat.eqb y x then Some 0 else option_map S (indexOf x l')
  end.

(** [array.splice(i, 1)] for an index inside the array. *)
Definition splice1 (i : nat) (l : list Callback) : list Callback :=
  take i l ++ drop (S i) l.

(** The function [subscribe] returns, for the [eventType] and [callback]
    it closed over. The array spliced is the one the map holds. *)
Definition unsubscribe (k : Topic) (callback : Callback) (bus : ChatEventBus)
  : ChatEventBus :=
  let ls := default [] (listeners bus !! topic_key k) in
  match indexOf callback ls with
  | Some index =>
      {| listeners := <[topic_key k := splice1 index ls]> (listeners bus);
         lastEventTimestamp := lastEventTimestamp bus |}
  | None => bus
  end.

(** [subscribe(eventType, callback)]: the new state and the returned
    unsubscribe function. *)
Definition subscribe (k : Topic) (callback : Callback) (bus : ChatEventBus)
  : ChatEventBus * (ChatEventBus -> ChatEventBus) :=
  let m :=
    match listeners bus !! topic_key k with
    | Some _ => listeners bus
    | None => <[topic_key k := []]> (listeners bus)
    end in
  let ls := default [] (m !! topic_key k) in
  ({| listeners := <[topic_key k := ls ++ [callback]]> m;
      lastEventTimestamp := lastEventTimestamp bus |},
   unsubscribe k callback).

(** [notifyListeners(event)]: the listeners of the event's type, then the
    wildcard listeners, each called once; a listener that throws is logged
    and the loop goes on, so the calls made are the same either way. The
    loop runs over the concatenated copy, so a listener that subscribes or
    unsubscribes meanwhile does not change the calls made. *)
Definition notifyListeners (bus : ChatEventBus) (event : ChatEvent) : list Call :=
  let typeListeners := default [] (listeners bus !! type_name (type event)) in
  let allListeners := default [] (listeners bus !! "*") in
  map (fun listener => (listener, event)) (typeListeners ++ allListeners).

(** ** The storage relay *)

Record StorageEvent := {
  key : option string;
  newValue : option string
}.

(** [notifyListeners] for a relayed value: the listeners stored under its
    [type], then the wildcard listeners, each called with the value. *)
Definition notify (bus : ChatEventBus) (value : Parsed) : list Delivery :=
  let typeListeners :=
    match key_of value with
    | Some k => default [] (listeners bus !! k)
    | None => []
    end in
  let allListeners := default [] (listeners bus !! "*") in
  map (fun listener => (listener, value)) (typeListeners ++ allListeners).

Section Relay.

(** [JSON.parse] of a relayed text, as far as the handler reads the
    result; [None] when the try block throws: the text is not JSON, or it
    is [null], whose [timestamp] cannot be read. *)
Variable JSON_parse : string -> option Parsed.

(** [a <= b] where an operand is neither an integer nor [undefined]:
    JavaScript coerces the two values and compares the results. *)
Variable coerced_le : Stamp -> Stamp -> bool.

(** [a <= b] on timestamps. Integers compare as numbers; [undefined]
    becomes [NaN], which makes every comparison false. *)
Definition stamp_le (a b : Stamp) : bool :=
  match a, b with
  | Integer x, Integer y => (x <=? y)%Z
  | Absent, _ | _, Absent => false
  | _, _ => coerced_le a b
  end.

(** The value a storage notification relays, if any. *)
Definition relayed (e : StorageEvent) : option Parsed :=
  if strict_eq (key e) (Some "chat_event") && truthy (newValue e) then
    match newValue e with
    | Some text => JSON_parse text
    | None => None
    end
  else None.

(** [handleStorageEvent(e)]: the new state and the listener calls made. *)
Definition handleStorageEvent (bus : ChatEventBus) (e : StorageEvent)
  : ChatEventBus * list Delivery :=
  if strict_eq (key e) (Some "chat_event") && truthy (newValue e) then
    match newValue e with
    | Some text =>
        match JSON_parse text with
        | Some event =>
            if stamp_le (stamp_of event) (lastEventTimestamp bus) then (bus, [])
            else
              let bus' := {| listeners := listeners bus;
                             lastEventTimestamp := stamp_of event |} in
              (bus', notify bus' event)
        | None => (bus, [])
        end
    | None => (bus, [])
    end
  else (bus, []).

(** A sequence of storage notifications delivered to one instance, in
    arrival order: the final state and, per notification, the calls made. *)
Fixpoint deliver (bus : ChatEventBus) (es : list StorageEvent)
  : ChatEventBus * list (list Delivery) :=
  match es with
  | [] => (bus, [])
  | e :: es' =>
      let '(bus1, calls) := handleStorageEvent bus e in
      let '(bus2, log) := deliver bus1 es' in
      (bus2, calls :: log)
  end.

(** A notification that relays nothing, or a value whose timestamp is an
    integer, as every event written by [broadcast] has. *)
Definition integer_stamped (e : StorageEvent) : Prop :=
  match relayed e with
  | Some value => exists n : Z, stamp_of value = Integer n
  | None => True
  end.

End Relay.

(** The timestamps of the values a log shows dispatched, oldest first;
    a notification that called no listener shows nothing. *)
Definition dispatched_stamps (log : list (list Delivery)) : list Stamp :=
  flat_map (fun calls => match calls with
                         | [] => []
                         | c :: _ => [stamp_of c.2]
                         end) log.

(** ** Publishing *)

(** What [broadcast] leaves behind: the instance state and the text it
    put under the storage key [chat_event], if the write went through.
    The timer that removes the key 100 ms later is not part of the call. *)
Section Broadcast.

Variable JSON_stringify : ChatEvent -> string.

(** [broadcast(type, conversationId, data, userId)] at clock reading
    [now]; [quota_exceeded] says whether [localStorage.setItem] throws. *)
Definition broadcast (env : Env) (now : Z) (quota_exceeded : bool)
    (bus : ChatEventBus) (ty : ChatEventType) (cid : option string)
    (d : option Payload) (uid : option string)
  : ChatEventBus * option string :=
  if negb (window_defined env) then (bus, None)
  else
    let event := {| type := ty; conversationId := cid; data := d;
                    timestamp := now; userId := uid |} in
    if quota_exceeded then (bus, None)
    else ({| listeners := listeners bus;
             lastEventTimestamp := Integer (timestamp event) |},
          Some (JSON_stringify event)).

End Broadcast.

(** ** The user id read from the token *)

Section Identity.

(** The [sub] claim in the payload of a token:
    [JSON.parse(atob(token.split('.')[1])).sub], [None] when decoding
    throws or the claim is missing. *)
Variable token_sub : string -> option string.

(** [getCurrentUserId()], given the stored [token]. *)
Definition getCurrentUserId (env : Env) (token : option string) : option string :=
  if negb (window_defined env) then None
  else if negb (truthy token) then None
  else
    match token with
    | Some t => or_else (token_sub t) None
    | None => None
    end.

End Identity.

End EventBus.

(* ===================================================================== *)
(** * The sync hook ([hooks/useChatSync.ts]) *)
(* ===================================================================== *)

Module SyncHook.
Import EventBus.

(** Which callbacks the component supplied. *)
Record UseChatSyncOptions := {
  onConversationCreated : bool;
  onConversationUpdated : bool;
  onConversationDeleted : bool;
  onMessageSent : bool;
  onForceRefresh : bool
}.

(** A call of one of the supplied callbacks, with its arguments. *)
Inductive Invocation :=
  | ConversationCreated (conversationId : string) (data : option Payload)
  | ConversationUpdated (conversationId : string) (data : option Payload)
  | ConversationDeleted (conversationId : string)
  | MessageSent (conversationId : string) (data : option Payload)
  | ForceRefresh.

(** The callback option an event type is wired to. *)
Definition supplied (options : UseChatSyncOptions) (t : ChatEventType) : bool :=
  match t with
  | conversation_created => onConversationCreated options
  | conversation_updated => onConversationUpdated options
  | conversation_deleted => onConversationDeleted options
  | message_sent => onMessageSent options
  | force_refresh => onForceRefresh options
  end.

Section Hook.

(** [getCurrentUserId() ?? undefined] as the hook read it. *)
Variable currentUserId : option string.

Definition shouldHandleEvent (userId : option string) : bool :=
  negb (truthy userId) || negb (strict_eq userId currentUserId).

(** The body shared by the four conversation-scoped listeners:
    [if (shouldHandleEvent(event.userId) && event.conversationId) call]. *)
Definition scoped (call : string -> ChatEvent -> Invocation) (event : ChatEvent)
  : list Invocation :=
  if shouldHandleEvent (userId event) && truthy (conversationId event) then
    match conversationId event with
    | Some cid => [call cid event]
    | None => []
    end
  else [].

Definition listen_created : ChatEvent -> list Invocation :=
  scoped (fun cid event => ConversationCreated cid (data event)).

Definition listen_updated : ChatEvent -> list Invocation :=
  scoped (fun cid event => ConversationUpdated cid (data event)).

Definition listen_deleted : ChatEvent -> list Invocation :=
  scoped (fun cid _ => ConversationDeleted cid).

Definition listen_sent : ChatEvent -> list Invocation :=
  scoped (fun cid event => MessageSent cid (data event)).

Definition listen_refresh (event : ChatEvent) : list Invocation :=
  if shouldHandleEvent (userId event) then [ForceRefresh] else [].

(** The subscriptions the effect makes, in program order. *)
Definition subscriptions (options : UseChatSyncOptions)
  : list (Topic * (ChatEvent -> list Invocation)) :=
  (if onConversationCreated options
   then [(On conversation_created, listen_created)] else []) ++
  (if onConversationUpdated options
   then [(On conversation_updated, listen_updated)] else []) ++
  (if onConversationDeleted options
   then [(On conversation_deleted, listen_deleted)] else []) ++
  (if onMessageSent options
   then [(On message_sent, listen_sent)] else []) ++
  (if onForceRefresh options
   then [(On force_refresh, listen_refresh)] else []).

(** Whether the bus hands an event to a listener stored under a topic
    (see [notifyListeners]). *)
Definition delivered_to (k : Topic) (event : ChatEvent) : bool :=
  match k with
  | On t => bool_decide (t = type event)
  | Star => true
  end.

(** What the hook does with one event the bus dispatches. *)
Definition receive (options : UseChatSyncOptions) (event : ChatEvent)
  : list Invocation :=
  flat_map (fun sub => if delivered_to (fst sub) event then snd sub event else [])
           (subscriptions options).

End Hook.

End SyncHook.

(* ===================================================================== *)
(** * The chat service ([services/chats.ts]) *)
(* ===================================================================== *)

Module ChatService.
Import EventBus.

Inductive Role := user | assistant.

(** A [T | null | undefined] value. *)
Inductive Nullable (A : Type) :=
  | Undefined
  | Null
  | Value (a : A).
Arguments Undefined {A}.
Arguments Null {A}.
Arguments Value {A} a.

(** [response_data]: its [blocks] entry ([None] when missing or falsy)
    and the remaining entries. *)
Record ResponseData := {
  blocks : option (list Block);
  other_entries : Json
}.

(** A message of the transcript the chat wrapper keeps. *)
Record DisplayMessage := {
  role : Role;
  content : string;
  d_blocks : option (list Block);
  d_response_data : option ResponseData;
  d_intent : option string;
  d_id : option string;
  d_timestamp : option string;
  d_rating : Nullable Z
}.

(** ** Objects in the store

    [transformMessagesToDisplay] takes an array object and returns one;
    the messages, their [response_data] and the [blocks] in it are
    objects too, reached through references. The store maps the location
    of every object to its contents; the objects are plain data (they come
    from a parsed response), so reading a property runs no code. *)

Abbreviation Loc := positive.

(** A JavaScript value; a number is one of the integers the messages
    carry ([rating], [processing_time_ms]). *)
Inductive Val :=
  | VUndefined
  | VNull
  | VBool (b : bool)
  | VNum (n : Z)
  | VStr (s : string)
  | VRef (l : Loc).

#[global] Instance Val_eq_dec : EqDecision Val.
Proof. solve_decision. Defined.

Inductive Cell :=
  | ObjectCell (props : gmap string Val)
  | ArrayCell (elems : list Val).

Abbreviation Store := (gmap positive Cell).

(** Computations that read and write the store and may throw ([None]). *)
Definition J (A : Type) : Type := Store -> option (A * Store).

Definition jret {A} (a : A) : J A := fun heap => Some (a, heap).

Definition jbind {A B} (m : J A) (f : A -> J B) : J B :=
  fun heap =>
    match m heap with
    | Some (a, heap') => f a heap'
    | None => None
    end.

Notation "x <~ m ;; k" := (jbind m (fun x => k))
  (at level 100, m at next level, right associativity).

(** Truthiness of a value. *)
Definition truthy_val (v : Val) : bool :=
  match v with
  | VUndefined | VNull => false
  | VBool b => b
  | VNum n => negb (n =? 0)%Z
  | VStr s => negb (String.eqb s "")
  | VRef _ => true
  end.

(** A property of an object's contents, [undefined] when it has none
    of that name. *)
Definition field (props : gmap string Val) (name : string) : Val :=
  default VUndefined (props !! name).

(** What reading the property [name] of [v] gives when it does not
    throw. The names read here are data properties of the messages: an
    array, a string, a number or a boolean has none of them. *)
Definition property (heap : Store) (v : Val) (name : string) : Val :=
  match v with
  | VRef l =>
      match heap !! l with
      | Some (ObjectCell props) => field props name
      | _ => VUndefined
      end
  | _ => VUndefined
  end.

(** [v.name]: a [TypeError] on [undefined] and [null]. A reference to
    nothing does not occur in a store. *)
Definition get (v : Val) (name : string) : J Val :=
  fun heap =>
    match v with
    | VUndefined | VNull => None
    | VRef l =>
        match heap !! l with
        | Some _ => Some (property heap v name, heap)
        | None => None
        end
    | _ => Some (VUndefined, heap)
    end.

(** [v?.name]. *)
Definition get_optional (v : Val) (name : string) : J Val :=
  match v with
  | VUndefined | VNull => jret VUndefined
  | _ => get v name
  end.

(** A new object, at a location the store does not use. *)
Definition alloc (c : Cell) : J Val :=
  fun heap => let l := fresh (dom heap) in Some (VRef l, <[l := c]> heap).

(** [a.length] of an array. *)
Definition length_of (a : Val) : J nat :=
  fun heap =>
    match a with
    | VRef l =>
        match heap !! l with
        | Some (ArrayCell elems) => Some (length elems, heap)
        | _ => None
        end
    | _ => None
    end.

(** [a[k]] if the array has an element there. *)
Definition element (a : Val) (k : nat) : J (option Val) :=
  fun heap =>
    match a with
    | VRef l =>
        match heap !! l with
        | Some (ArrayCell elems) => Some (elems !! k, heap)
        | _ => None
        end
    | _ => None
    end.

(** [a[k] = value] inside the array. *)
Definition set_element (a : Val) (k : nat) (value : Val) : J unit :=
  fun heap =>
    match a with
    | VRef l =>
        match heap !! l with
        | Some (ArrayCell elems) =>
            Some (tt, <[l := ArrayCell (<[k := value]> elems)]> heap)
        | _ => None
        end
    | _ => None
    end.

(** The loop of [Array.prototype.map]: for each index below the length
    read at the start, the element the array has there now is passed to
    the callback and the result is stored in the new array. *)
Fixpoint map_loop (callback : Val -> J Val) (O A : Val) (k remaining : nat) : J unit :=
  match remaining with
  | 0 => jret tt
  | S remaining' =>
      kValue <~ element O k ;;
      _ <~ match kValue with
           | Some value => mappedValue <~ callback value ;; set_element A k mappedValue
           | None => jret tt
           end ;;
      map_loop callback O A (S k) remaining'
  end.

(** [O.map(callback)]: the new array is created with the length of [O],
    then filled; an element not yet filled reads as [undefined]. *)
Definition array_map (callback : Val -> J Val) (O : Val) : J Val :=
  len <~ length_of O ;;
  A <~ alloc (ArrayCell (replicate len VUndefined)) ;;
  _ <~ map_loop callback O A 0 len ;;
  jret A.

(** The callback [transformMessagesToDisplay] maps over the array; the
    properties of the object literal are evaluated in source order. *)
Definition toDisplay (msg : Val) : J Val :=
  message_type <~ get msg "message_type" ;;
  let role := if bool_decide (message_type = VStr "USER")
              then VStr "user" else VStr "assistant" in
  content <~ get msg "content" ;;
  blocks <~ (if bool_decide (role = VStr "assistant") then
               response_data <~ get msg "response_data" ;;
               found <~ get_optional response_data "blocks" ;;
               if truthy_val found then
                 response_data' <~ get msg "response_data" ;;
                 get response_data' "blocks"
               else jret VUndefined
             else jret VUndefined) ;;
  response_data <~ get msg "response_data" ;;
  intent <~ get msg "intent" ;;
  id <~ get msg "id" ;;
  created_at <~ get msg "created_at" ;;
  rating <~ get msg "rating" ;;
  alloc (ObjectCell
           (<["role" := role]>
            (<["content" := content]>
             (<["blocks" := blocks]>
              (<["response_data" := response_data]>
               (<["intent" := intent]>
                (<["id" := id]>
                 (<["timestamp" := created_at]>
                  (<["rating" := rating]> ∅))))))))).

Definition transformMessagesToDisplay (messages : Val) : J Val :=
  array_map toDisplay messages.

(** The properties of the display object made for a message with the
    properties [props], in a store [heap]. *)
Definition displayed (heap : Store) (props : gmap string Val) : gmap string Val :=
  let role := if bool_decide (field props "message_type" = VStr "USER")
              then VStr "user" else VStr "assistant" in
  let found := property heap (field props "response_data") "blocks" in
  let blocks := if bool_decide (role = VStr "assistant") && truthy_val found
                then found else VUndefined in
  <["role" := role]>
   (<["content" := field props "content"]>
    (<["blocks" := blocks]>
     (<["response_data" := field props "response_data"]>
      (<["intent" := field props "intent"]>
       (<["id" := field props "id"]>
        (<["timestamp" := field props "created_at"]>
         (<["rating" := field props "rating"]> ∅))))))).

(** An element of a [Message[]]: a reference to an object, whose
    [response_data], when it is a reference, refers to something. *)
Definition server_message (heap : Store) (v : Val) : Prop :=
  exists (m : Loc) (props : gmap string Val),
    v = VRef m /\ heap !! m = Some (ObjectCell props) /\
    forall r : Loc, props !! "response_data" = Some (VRef r) -> is_Some (heap !! r).

(** Deep equality of two values in a store: the same value, or two
    objects with the same property names and deep-equal values, or two
    arrays of the same length with deep-equal elements. *)
Inductive deep_equal (heap : Store) : Val -> Val -> Prop :=
  | same_value (v : Val) : deep_equal heap v v
  | equal_objects (l1 l2 : Loc) (p1 p2 : gmap string Val) :
      heap !! l1 = Some (ObjectCell p1) ->
      heap !! l2 = Some (ObjectCell p2) ->
      dom p1 = dom p2 ->
      (forall (name : string) (v1 v2 : Val),
         p1 !! name = Some v1 -> p2 !! name = Some v2 -> deep_equal heap v1 v2) ->
      deep_equal heap (VRef l1) (VRef l2)
  | equal_arrays (l1 l2 : Loc) (e1 e2 : list Val) :
      heap !! l1 = Some (ArrayCell e1) ->
      heap !! l2 = Some (ArrayCell e2) ->
      length e1 = length e2 ->
      (forall (i : nat) (v1 v2 : Val),
         e1 !! i = Some v1 -> e2 !! i = Some v2 -> deep_equal heap v1 v2) ->
      deep_equal heap (VRef l1) (VRef l2).

(** ** REST calls and published events *)

Inductive HttpMethod := POST | GET | PUT | DELETE.

Definition File := string.

Inductive Body :=
  | NoBody
  | CreateBody (title first_message : string)
  | ChatMessageBody (message : string) (context : option Json)
                    (attachments : option (list Json))
  | FormData (message : string) (files : list File)
  | UpdatesBody (u : Updates)
  | Query (include_messages : bool).

Record Request := {
  method : HttpMethod;
  url : string;
  body : Body
}.

(** What an operation does to the outside, in order: a REST call made, or
    an event handed to the bus through one of its convenience methods. *)
Inductive Effect :=
  | Rest (r : Request)
  | Publish (t : ChatEventType) (conversationId : option string)
            (data : option Payload) (userId : option string).

(** A thrown value: whether it is an instance of [Error],
    [error.response?.data?.detail] and [error.message]. *)
Record Error := {
  is_Error : bool;
  detail : option string;
  e_message : option string
}.

(** [new Error(text)]. *)
Definition new_Error (text : option string) : Error :=
  {| is_Error := true; detail := None; e_message := text |}.

Inductive Outcome (A : Type) :=
  | Return (a : A)
  | Throw (e : Error).
Arguments Return {A} a.
Arguments Throw {A} e.

(** The backend: what a request answers, given everything done so far,
    read at the type the caller expects. *)
Record Server := {
  answer_conversation : list Effect -> Request -> Outcome Conversation;
  answer_chat : list Effect -> Request -> Outcome ChatResponse;
  answer_unit : list Effect -> Request -> Outcome unit
}.

(** Computations that append to the effect log and may throw. *)
Definition M (A : Type) : Type := list Effect -> Outcome A * list Effect.

Definition ret {A} (a : A) : M A := fun log => (Return a, log).

Definition throw {A} (e : Error) : M A := fun log => (Throw e, log).

Definition bind {A B} (m : M A) (f : A -> M B) : M B :=
  fun log =>
    match m log with
    | (Return a, log') => f a log'
    | (Throw e, log') => (Throw e, log')
    end.

(** [try { m } catch (error) { handler(error) }]. *)
Definition try_catch {A} (m : M A) (handler : Error -> M A) : M A :=
  fun log =>
    match m log with
    | (Return a, log') => (Return a, log')
    | (Throw e, log') => handler e log'
    end.

(** The outcome of [m], reified. *)
Definition attempt {A} (m : M A) : M (Outcome A) :=
  fun log => let '(r, log') := m log in (Return r, log').

Notation "x <- m ;; k" := (bind m (fun x => k))
  (at level 100, m at next level, right associativity).
Notation "m ;;; k" := (bind m (fun _ => k))
  (at level 100, right associativity).

(** The effects an operation adds when started from an empty log. *)
Definition effects_of {A} (m : M A) : list Effect := snd (m []).

Definition outcome_of {A} (m : M A) : Outcome A := fst (m []).

Definition published (log : list Effect) : list Effect :=
  flat_map (fun x => match x with Publish _ _ _ _ => [x] | Rest _ => [] end) log.

Definition requests (log : list Effect) : list Request :=
  flat_map (fun x => match x with Rest r => [r] | Publish _ _ _ _ => [] end) log.

(** The title and first message of every create-conversation request. *)
Definition created (log : list Effect) : list (string * string) :=
  flat_map (fun r => match body r with
                     | CreateBody title first_message => [(title, first_message)]
                     | _ => []
                     end)
           (requests log).

(** [message.slice(0, n)]. *)
Definition slice_to (n : nat) (s : string) : string := substring 0 n s.

(** The title given to an auto-created conversation. *)
Definition auto_title (message : string) : string :=
  slice_to 50 message +:+ (if Nat.ltb 50 (String.length message) then "..." else "").

(** [!conversationId || conversationId === 'new']. *)
Definition needs_new (conversationId : option string) : bool :=
  negb (truthy conversationId) || strict_eq conversationId (Some "new").

Definition conversations_url : string := "/api/chat/conversations".

Definition conversation_url (conversationId : string) : string :=
  "/api/chat/conversations/" +:+ conversationId.

Definition messages_url (conversationId : string) : string :=
  "/api/chat/conversations/" +:+ conversationId +:+ "/messages".

(** The requests the operations make. *)
Definition create_request (title firstMessage : string) : Request :=
  {| method := POST; url := conversations_url; body := CreateBody title firstMessage |}.

Definition message_request (conversationId message : string) (context : option Json)
    (attachments : option (list Json)) : Request :=
  {| method := POST; url := messages_url conversationId;
     body := ChatMessageBody message context attachments |}.

Definition files_request (conversationId message : string) (files : list File)
  : Request :=
  {| method := POST; url := messages_url conversationId;
     body := FormData message files |}.

Definition update_request (conversationId : string) (updates : Updates) : Request :=
  {| method := PUT; url := conversation_url conversationId;
     body := UpdatesBody updates |}.

Definition reload_request (conversationId : string) : Request :=
  {| method := GET; url := conversation_url conversationId; body := Query false |}.

Definition delete_request (conversationId : string) : Request :=
  {| method := DELETE; url := conversation_url conversationId; body := NoBody |}.

Section Service.

Variable server : Server.

(** [getCurrentUserId() ?? undefined] while the operation runs. *)
Variable userId : option string.

Definition call {A} (answer : list Effect -> Request -> Outcome A) (r : Request)
  : M A :=
  fun log => (answer log r, log ++ [Rest r]).

(** [chatEventBus.conversationCreated] and its siblings: they forward to
    [broadcast], which catches what it throws. *)
Definition publish (t : ChatEventType) (conversationId : option string)
    (data : option Payload) : M unit :=
  fun log => (Return tt, log ++ [Publish t conversationId data userId]).

Definition createConversation (title firstMessage : string) : M Conversation :=
  try_catch
    (data <- call (answer_conversation server)
               (create_request title firstMessage) ;;
     publish conversation_created (Some (c_id data)) (Some (PConversation data)) ;;;
     ret data)
    (fun error => throw error).

Definition sendMessageToConversation (conversationId message : string)
    (context : option Json) (attachments : option (list Json)) : M ChatResponse :=
  try_catch
    (data <- call (answer_chat server)
               (message_request conversationId message context attachments) ;;
     publish message_sent (Some conversationId)
       (Some (PMessage message (response data))) ;;;
     ret data)
    (fun error => throw error).

(** The conversation a send goes to: a new one, created first, when the
    given id is missing or the sentinel. *)
Definition target (message : string) (conversationId : option string) : M string :=
  match conversationId with
  | Some given =>
      if needs_new (Some given) then
        newConversation <- createConversation (auto_title message) message ;;
        ret (c_id newConversation)
      else ret given
  | None =>
      newConversation <- createConversation (auto_title message) message ;;
      ret (c_id newConversation)
  end.

Definition sendMessageWithFiles (message : string) (files : list File)
    (conversationId : option string) : M ChatResponse :=
  conversationId' <- target message conversationId ;;
  try_catch
    (data <- call (answer_chat server)
               (files_request conversationId' message files) ;;
     publish message_sent (Some conversationId')
       (Some (PMessage message (response data))) ;;;
     ret data)
    (fun error =>
       throw (new_Error (or_else (or_else (detail error) (e_message error))
                                 (Some "File processing failed")))).

Definition updateConversation (conversationId : string) (updates : Updates)
  : M Conversation :=
  try_catch
    (call (answer_unit server) (update_request conversationId updates) ;;;
     data <- call (answer_conversation server) (reload_request conversationId) ;;
     publish conversation_updated (Some conversationId) (Some (PUpdates updates)) ;;;
     ret data)
    (fun error => throw error).

Definition deleteConversation (conversationId : string) : M unit :=
  try_catch
    (call (answer_unit server) (delete_request conversationId) ;;;
     publish conversation_deleted (Some conversationId) None)
    (fun error => throw error).

Definition sendMessage (message : string) (conversationId : option string)
    (context : option Json) : M ChatResponse :=
  conversationId' <- target message conversationId ;;
  sendMessageToConversation conversationId' message context None.

End Service.

End ChatService.

(* ===================================================================== *)
(** * The chat wrapper ([components/chat/ChatWrapper.tsx]) *)
(* ===================================================================== *)

Module ChatWrapper.
Import ChatService.

(** The props read by the handlers; for a callback prop, whether it was
    supplied. *)
Record Props := {
  conversationId : option string;
  initialMessage : option string;
  initialContext : option Json;
  onConversationCreated : bool;
  onConversationUpdated : bool
}.

(** The component instance: the three state cells and the ref. *)
Record State := {
  messages : list DisplayMessage;
  busy : bool;
  error : option string;
  initialMessageProcessed : bool
}.

(** [useState(initialMessages)], [useState(false)], [useState(null)],
    [useRef(false)]. *)
Definition mount (initialMessages : list DisplayMessage) : State :=
  {| messages := initialMessages; busy := false; error := None;
     initialMessageProcessed := false |}.

Definition setMessages (f : list DisplayMessage -> list DisplayMessage) (st : State)
  : State :=
  {| messages := f (messages st); busy := busy st; error := error st;
     initialMessageProcessed := initialMessageProcessed st |}.

Definition setBusy (b : bool) (st : State) : State :=
  {| messages := messages st; busy := b; error := error st;
     initialMessageProcessed := initialMessageProcessed st |}.

Definition setError (e : option string) (st : State) : State :=
  {| messages := messages st; busy := busy st; error := e;
     initialMessageProcessed := initialMessageProcessed st |}.


(** What the wrapper calls: the chat service, the callback props and the
    router. *)
Inductive Outgoing :=
  | ServiceSendMessage (text : string) (conversationId : option string)
                       (context : option Json)
  | ServiceSendMessageWithFiles (message : string) (files : list File)
                                (conversationId : option string)
  | OnConversationCreated (id : string)
  | RouterReplace (path : string)
  | OnConversationUpdated (id : string).

Definition plain (r : Role) (text : string) : DisplayMessage :=
  {| role := r; content := text; d_blocks := None; d_response_data := None;
     d_intent := None; d_id := None; d_timestamp := None; d_rating := Undefined |}.

Definition userMessage (text : string) : DisplayMessage := plain user text.

Definition assistantMessage (r : ChatResponse) : DisplayMessage :=
  {| role := assistant; content := response r; d_blocks := r_blocks r;
     d_response_data := None; d_intent := r_intent r; d_id := message_id r;
     d_timestamp := None; d_rating := Undefined |}.

Definition errorMessage : DisplayMessage :=
  plain assistant
    "Sorry, I encountered an error processing your message. Please try again.".

Definition filesErrorMessage : DisplayMessage :=
  plain assistant
    "Sorry, I encountered an error processing your files. Please try again.".

(** [prev.slice(0, -1)]. *)
Definition drop_last (prev : list DisplayMessage) : list DisplayMessage :=
  take (length prev - 1) prev.

Section Wrapper.

Variable server : Server.

(** [getCurrentUserId() ?? undefined] as the service reads it. *)
Variable userId : option string.

(** [window.location.pathname.includes('/chat/new')]. *)
Variable on_new_chat_route : bool.

(** How a call of a callback prop or of the router ends, given what the
    chat service has done so far: it returns, or it throws an error
    object. The callbacks are the parent's functions; the ones the pages
    of this repository pass write to [localStorage], which can throw.
    Whatever else a callback does is the parent's doing and is not
    recorded in the log of the wrapper's own service calls. *)
Variable reacts : list Effect -> Outgoing -> Outcome unit.

(** The calls the tail of the try block makes, after the assistant
    message is appended, when none of them throws. *)
Definition after_reply (p : Props) (r : ChatResponse) : list Outgoing :=
  match conversation_id r with
  | Some id =>
      (if negb (truthy (conversationId p)) && truthy (Some id) then
         (if onConversationCreated p then [OnConversationCreated id] else []) ++
         (if on_new_chat_route then [RouterReplace ("/chat/" +:+ id)] else [])
       else []) ++
      (if truthy (Some id) && onConversationUpdated p
       then [OnConversationUpdated id] else [])
  | None => []
  end.

(** The calls are made in order until one throws, which leaves the try
    block: the calls made, the throwing one included, and what was
    thrown. *)
Fixpoint run_calls (log : list Effect) (calls : list Outgoing)
  : list Outgoing * option Error :=
  match calls with
  | [] => ([], None)
  | c :: rest =>
      match reacts log c with
      | Return _ => let r := run_calls log rest in (c :: r.1, r.2)
      | Throw err => ([c], Some err)
      end
  end.

(** The catch block: the last message is removed, the error message is
    appended and the error slot is set. *)
Definition recover (apology : DisplayMessage) (fallback : string) (err : Error)
    (st : State) : State :=
  setError (or_else (e_message err) (Some fallback))
    (setMessages (fun prev => prev ++ [apology]) (setMessages drop_last st)).

(** The log of what the chat service has done so far. *)
Definition history : M (list Effect) := fun log => (Return log, log).

(** [handleSendMessage(text, context)] as closed over a render that saw
    [busy = busy_seen], run to completion on the instance state [st]:
    the state updates are applied in program order. The try block ends
    when the service call or one of the calls after it throws. *)
Definition handleSendMessage (p : Props) (busy_seen : bool) (text : string)
    (context : option Json) (st : State) : M (State * list Outgoing) :=
  if busy_seen then ret (st, [])
  else
    let st1 := setMessages (fun prev => prev ++ [userMessage text])
                 (setError None (setBusy true st)) in
    r <- attempt (sendMessage server userId text (conversationId p) context) ;;
    let sent := ServiceSendMessage text (conversationId p) context in
    match r with
    | Return reply =>
        let st2 := setMessages (fun prev => prev ++ [assistantMessage reply]) st1 in
        log <- history ;;
        let tail := run_calls log (after_reply p reply) in
        match tail.2 with
        | None => ret (setBusy false st2, sent :: tail.1)
        | Some err =>
            ret (setBusy false (recover errorMessage "Failed to send message" err st2),
                 sent :: tail.1)
        end
    | Throw err =>
        ret (setBusy false (recover errorMessage "Failed to send message" err st1),
             [sent])
    end.

Definition handleSendWithFiles (p : Props) (busy_seen : bool) (message : string)
    (files : list File) (providedConversationId : option string) (st : State)
  : M (State * list Outgoing) :=
  if busy_seen then ret (st, [])
  else
    let st1 := setMessages (fun prev => prev ++ [userMessage message])
                 (setError None (setBusy true st)) in
    let targetConversationId := or_else providedConversationId (conversationId p) in
    r <- attempt (sendMessageWithFiles server userId message files
                    targetConversationId) ;;
    let sent := ServiceSendMessageWithFiles message files targetConversationId in
    match r with
    | Return reply =>
        let st2 := setMessages (fun prev => prev ++ [assistantMessage reply]) st1 in
        log <- history ;;
        let tail := run_calls log (after_reply p reply) in
        match tail.2 with
        | None => ret (setBusy false st2, sent :: tail.1)
        | Some err =>
            ret (setBusy false
                   (recover filesErrorMessage "Failed to process files" err st2),
                 sent :: tail.1)
        end
    | Throw err =>
        ret (setBusy false
               (recover filesErrorMessage "Failed to process files" err st1),
             [sent])
    end.



End Wrapper.

(** The final state and the outgoing calls of a handler that has run. *)
Definition final_state (st : State) (r : Outcome (State * list Outgoing) * list Effect)
  : State :=
  match r.1 with
  | Return (st', _) => st'
  | Throw _ => st
  end.

Definition outgoing (r : Outcome (State * list Outgoing) * list Effect)
  : list Outgoing :=
  match r.1 with
  | Return (_, out) => out
  | Throw _ => []
  end.


(** The calls of the chat service, of either kind, among the outgoing
    calls. *)
Definition service_calls (out : list Outgoing) : list Outgoing :=
  flat_map (fun o => match o with
                     | ServiceSendMessage _ _ _
                     | ServiceSendMessageWithFiles _ _ _ => [o]
                     | _ => []
                     end) out.

End ChatWrapper.

(* ===================================================================== *)
(** * The storage channel and the triggers of the bus
      ([utils/chatEventBus.ts], continued) *)
(* ===================================================================== *)

Module BusChannel.
Import EventBus.

(** [this.listeners.get(key) || []]. *)
Definition registered (key : string) (bus : ChatEventBus) : list Callback :=
  default [] (listeners bus !! key).

(** An array without the first occurrence of [x]: what [indexOf] followed
    by [splice] leaves. *)
Fixpoint remove_first (x : Callback) (l : list Callback) : list Callback :=
  match l with
  | [] => []
  | y :: l' => if Nat.eqb y x then l' else y :: remove_first x l'
  end.

(** The event [broadcast] builds. *)
Definition built_event (now : Z) (ty : ChatEventType) (cid : option string)
    (d : option Payload) (uid : option string) : ChatEvent :=
  {| type := ty; conversationId := cid; data := d; timestamp := now; userId := uid |}.

Section Channel.

Variable JSON_stringify : ChatEvent -> string.
Variable JSON_parse : string -> option Parsed.

(** The storage cell [chat_event] after a [broadcast], given the cell
    before: overwritten when the write went through. *)
Definition cell_after_broadcast (env : Env) (now : Z) (quota_exceeded : bool)
    (bus : ChatEventBus) (ty : ChatEventType) (cid : option string)
    (d : option Payload) (uid : option string) (cell : option string)
  : option string :=
  match (broadcast JSON_stringify env now quota_exceeded bus ty cid d uid).2 with
  | Some text => Some text
  | None => cell
  end.

(** The callback [broadcast] hands to [setTimeout], for the event stamped
    [stamp]: it removes the cell when the cell still holds a value whose
    timestamp is that very number ([===]); what it throws is swallowed. *)
Definition cleanup (stamp : Z) (cell : option string) : option string :=
  match cell with
  | Some currentEvent =>
      if truthy (Some currentEvent) then
        match JSON_parse currentEvent with
        | Some parsedEvent =>
            if bool_decide (stamp_of parsedEvent = Integer stamp) then None else cell
        | None => cell
        end
      else cell
  | None => None
  end.

(** [handleWindowFocus()]. *)
Definition handleWindowFocus (env : Env) (now : Z) (quota_exceeded : bool)
    (bus : ChatEventBus) : ChatEventBus * option string :=
  broadcast JSON_stringify env now quota_exceeded bus force_refresh None None None.

(** [handleVisibilityChange()], given [document.hidden]. *)
Definition handleVisibilityChange (hidden : bool) (env : Env) (now : Z)
    (quota_exceeded : bool) (bus : ChatEventBus) : ChatEventBus * option string :=
  if negb hidden then
    broadcast JSON_stringify env now quota_exceeded bus force_refresh None None None
  else (bus, None).

(** The convenience methods. *)
Definition conversationCreated (env : Env) (now : Z) (quota_exceeded : bool)
    (bus : ChatEventBus) (conversationId : string) (d : option Payload)
    (uid : option string) : ChatEventBus * option string :=
  broadcast JSON_stringify env now quota_exceeded bus conversation_created
    (Some conversationId) d uid.

Definition conversationUpdated (env : Env) (now : Z) (quota_exceeded : bool)
    (bus : ChatEventBus) (conversationId : string) (d : option Payload)
    (uid : option string) : ChatEventBus * option string :=
  broadcast JSON_stringify env now quota_exceeded bus conversation_updated
    (Some conversationId) d uid.

Definition conversationDeleted (env : Env) (now : Z) (quota_exceeded : bool)
    (bus : ChatEventBus) (conversationId : string) (uid : option string)
  : ChatEventBus * option string :=
  broadcast JSON_stringify env now quota_exceeded bus conversation_deleted
    (Some conversationId) None uid.

Definition messageSent (env : Env) (now : Z) (quota_exceeded : bool)
    (bus : ChatEventBus) (conversationId : string) (d : option Payload)
    (uid : option string) : ChatEventBus * option string :=
  broadcast JSON_stringify env now quota_exceeded bus message_sent
    (Some conversationId) d uid.

Definition forceRefresh (env : Env) (now : Z) (quota_exceeded : bool)
    (bus : ChatEventBus) (uid : option string) : ChatEventBus * option string :=
  broadcast JSON_stringify env now quota_exceeded bus force_refresh None None uid.

End Channel.

(** The storage notification another tab gets for a written text. *)
Definition written (text : string) : StorageEvent :=
  {| key := Some "chat_event"; newValue := Some text |}.

End BusChannel.

(* ===================================================================== *)
(** * The effects of the sync hook ([hooks/useChatSync.ts], continued) *)
(* ===================================================================== *)

Module HookWiring.
Import EventBus SyncHook.

(** ** The subscription effect

    Each run of the effect creates its listener functions anew; they are
    named [next], [next + 1], ... in program order. *)

(** The subscriptions of an effect run: topic and listener function. *)
Abbreviation Subs := (list (Topic * (ChatEvent -> list Invocation))).

(** The effect body: subscribe each listener, collecting the unsubscribe
    functions. *)
Fixpoint mount_from (subs : list (Topic * (ChatEvent -> list Invocation)))
    (next : nat) (bus : ChatEventBus)
  : ChatEventBus * list (ChatEventBus -> ChatEventBus) :=
  match subs with
  | [] => (bus, [])
  | sub :: rest =>
      let s := subscribe sub.1 next bus in
      let r := mount_from rest (S next) s.1 in
      (r.1, s.2 :: r.2)
  end.

(** Which listener function each identity names. *)
Fixpoint wired (subs : list (Topic * (ChatEvent -> list Invocation))) (next : nat)
  : list (Callback * (ChatEvent -> list Invocation)) :=
  match subs with
  | [] => []
  | sub :: rest => (next, sub.2) :: wired rest (S next)
  end.

(** The identities stored under one key of the listener map. *)
Fixpoint stored_under (key : string)
    (subs : list (Topic * (ChatEvent -> list Invocation))) (next : nat)
  : list Callback :=
  match subs with
  | [] => []
  | sub :: rest =>
      (if bool_decide (topic_key sub.1 = key) then [next] else []) ++
      stored_under key rest (S next)
  end.

Definition mount (currentUserId : option string) (options : UseChatSyncOptions)
    (next : nat) (bus : ChatEventBus)
  : ChatEventBus * list (ChatEventBus -> ChatEventBus) :=
  mount_from (subscriptions currentUserId options) next bus.

(** The cleanup: [unsubscribers.forEach(unsubscribe => unsubscribe())]. *)
Definition unmount (unsubscribers : list (ChatEventBus -> ChatEventBus))
    (bus : ChatEventBus) : ChatEventBus :=
  fold_left (fun b unsubscribe => unsubscribe b) unsubscribers bus.

(** The listener function an identity names, if it is one of the hook's. *)
Fixpoint listener_named (table : list (Callback * (ChatEvent -> list Invocation)))
    (cb : Callback) : option (ChatEvent -> list Invocation) :=
  match table with
  | [] => None
  | entry :: rest =>
      if Nat.eqb entry.1 cb then Some entry.2 else listener_named rest cb
  end.

(** What one listener call of the bus does: the body of the hook's
    listener when the function called is one of the hook's, nothing the
    hook sees otherwise. *)
Definition invoke (table : list (Callback * (ChatEvent -> list Invocation)))
    (call : Call) : list Invocation :=
  match listener_named table call.1 with
  | Some listener => listener call.2
  | None => []
  end.

(** ** The auto-refresh effect

    The timers of this hook that are set and have not fired or been
    cleared, the ref, and the next timer id the browser hands out (ids
    are positive, hence truthy). *)
Record Timers := {
  pending : gset positive;
  refreshTimeoutRef : option positive;
  next_timer : positive
}.

(** [scheduleRefresh()]: set a timer and keep its id in the ref. *)
Definition scheduleRefresh (st : Timers) : Timers :=
  {| pending := {[ next_timer st ]} ∪ pending st;
     refreshTimeoutRef := Some (next_timer st);
     next_timer := Pos.succ (next_timer st) |}.

(** The effect body. *)
Definition auto_refresh (enableAutoRefresh : bool) (st : Timers) : Timers :=
  if negb enableAutoRefresh then st else scheduleRefresh st.

(** The cleanup the effect returns (none when auto-refresh is off). *)
Definition auto_refresh_cleanup (enableAutoRefresh : bool) (st : Timers) : Timers :=
  if negb enableAutoRefresh then st
  else
    match refreshTimeoutRef st with
    | Some id =>
        {| pending := pending st ∖ {[ id ]};
           refreshTimeoutRef := refreshTimeoutRef st;
           next_timer := next_timer st |}
    | None => st
    end.

(** Timer [id] comes due while the document is [hidden] or not: nothing
    happens unless it is pending; otherwise it is spent, the callback
    refreshes when the document is visible and the callback was supplied,
    and schedules the next tick. *)
Definition timeout (onForceRefresh : bool) (id : positive) (hidden : bool)
    (st : Timers) : Timers * list Invocation :=
  if bool_decide (id ∈ pending st) then
    let spent := {| pending := pending st ∖ {[ id ]};
                    refreshTimeoutRef := refreshTimeoutRef st;
                    next_timer := next_timer st |} in
    (scheduleRefresh spent,
     if negb hidden && onForceRefresh then [ForceRefresh] else [])
  else (st, []).

(** Timers coming due one after the other. *)
Fixpoint timeouts (onForceRefresh : bool) (due : list (positive * bool))
    (st : Timers) : Timers * list Invocation :=
  match due with
  | [] => (st, [])
  | d :: later =>
      let r1 := timeout onForceRefresh d.1 d.2 st in
      let r2 := timeouts onForceRefresh later r1.1 in
      (r2.1, r1.2 ++ r2.2)
  end.

(** Exactly one timer is pending, and the ref names it. *)
Definition one_pending (st : Timers) : Prop :=
  exists id : positive, pending st = {[ id ]} /\ refreshTimeoutRef st = Some id.

(** The timer the ref names comes due. *)
Definition tick (onForceRefresh : bool) (hidden : bool) (st : Timers)
  : Timers * list Invocation :=
  match refreshTimeoutRef st with
  | Some id => timeout onForceRefresh id hidden st
  | None => (st, [])
  end.

(** One tick per element, each with [document.hidden] at that moment. *)
Fixpoint ticks (onForceRefresh : bool) (hidden : list bool) (st : Timers)
  : Timers * list Invocation :=
  match hidden with
  | [] => (st, [])
  | h :: later =>
      let r1 := tick onForceRefresh h st in
      let r2 := ticks onForceRefresh later r1.1 in
      (r2.1, r1.2 ++ r2.2)
  end.

(** The hook before its first effect: no timer set. *)
Definition no_timers : Timers :=
  {| pending := ∅; refreshTimeoutRef := None; next_timer := 1%positive |}.

(** [useAutoRefreshChats(refreshCallback)]: every callback is the refresh
    callback. *)
Definition useAutoRefreshChats_options : UseChatSyncOptions :=
  {| onConversationCreated := true; onConversationUpdated := true;
     onConversationDeleted := true; onMessageSent := true;
     onForceRefresh := true |}.

End HookWiring.

(* ===================================================================== *)
(** * File checks ([services/fileService.ts], [fileService.utils]) *)
(* ===================================================================== *)

Module FileService.

(** What the checks read of a [File]. *)
Record FileInfo := {
  file_name : string;
  file_size : Z;
  file_type : string
}.

#[global] Instance FileInfo_eq_dec : EqDecision FileInfo.
Proof. solve_decision. Defined.

(** [String(n)] for an integer. *)
Definition digits (n : Z) : string := NilZero.string_of_int (Z.to_int n).

(** [Math.round(bytes / unit)] for a non-negative integer and a power of
    two: the quotient is an exact double, and halves round up. *)
Definition rounded (bytes unit : Z) : Z := (2 * bytes + unit) / (2 * unit).

(** A non-negative integer rounded to 53 significant bits, ties to even:
    the numerator of the double nearest to [n / 2^k]. *)
Definition to_double (n : Z) : Z :=
  let excess := (Z.log2 n - 52)%Z in
  if (excess <=? 0)%Z then n
  else
    let unit := (2 ^ excess)%Z in
    let q := (n / unit)%Z in
    let r := (n mod unit)%Z in
    let up :=
      if (unit <? 2 * r)%Z then true
      else if (2 * r =? unit)%Z then Z.odd q
      else false in
    ((if up then q + 1 else q) * unit)%Z.

(** [Math.round(bytes / 1048576 * 100)] for a file size, a non-negative
    integer below 2^53: the quotient is an exact double, its product with
    100 is rounded to the nearest double, and [Math.round] rounds halves
    up. *)
Definition hundredths (bytes : Z) : Z :=
  (2 * to_double (100 * bytes) + 1048576) / (2 * 1048576).

(** [String(h / 100)] for a non-negative integer [h]: the decimal
    expansion without trailing zeros. *)
Definition two_decimals (h : Z) : string :=
  let whole := (h / 100)%Z in
  let part := (h mod 100)%Z in
  if (part =? 0)%Z then digits whole
  else if (part mod 10 =? 0)%Z then digits whole +:+ "." +:+ digits (part / 10)
  else if (part <? 10)%Z then digits whole +:+ ".0" +:+ digits part
  else digits whole +:+ "." +:+ digits part.

Definition formatFileSize (bytes : Z) : string :=
  if (bytes <? 1024)%Z then digits bytes +:+ " B"
  else if (bytes <? 1048576)%Z then digits (rounded bytes 1024) +:+ " KB"
  else two_decimals (hundredths bytes) +:+ " MB".

Record FileValidationResult := {
  valid : bool;
  error : option string
}.

Definition maxSizeMB : Z := 10.

Definition supportedTypes : list string :=
  ["image/jpeg"; "image/jpg"; "image/png"; "image/gif";
   "image/webp"; "image/bmp"; "image/tiff";
   "application/pdf"].

(** [supportedTypes.includes(type)]. *)
Definition includes (l : list string) (x : string) : bool :=
  existsb (String.eqb x) l.

Definition validateFileClientSide (file : FileInfo) : FileValidationResult :=
  if negb (includes supportedTypes (file_type file)) then
    {| valid := false;
       error := Some ("Unsupported file type: " +:+ file_type file +:+
                      ". Supported: images and PDFs") |}
  else if (maxSizeMB * 1024 * 1024 <? file_size file)%Z then
    {| valid := false;
       error := Some ("File too large: " +:+ formatFileSize (file_size file) +:+
                      ". Maximum: " +:+ digits maxSizeMB +:+ "MB") |}
  else {| valid := true; error := None |}.

(** The loop body of [validateMultipleFiles], on the two result arrays. *)
Definition sort_file (acc : list FileInfo * list (FileInfo * string)) (file : FileInfo)
  : list FileInfo * list (FileInfo * string) :=
  let validation := validateFileClientSide file in
  if valid validation then (acc.1 ++ [file], acc.2)
  else (acc.1,
        acc.2 ++ [(file, default "Invalid file"
                           (or_else (error validation) (Some "Invalid file")))]).

(** [validateMultipleFiles(files)]: the [valid] and the [invalid] array. *)
Definition validateMultipleFiles (files : list FileInfo)
  : list FileInfo * list (FileInfo * string) :=
  let over := Nat.ltb 5 (length files) in
  let invalid :=
    if over
    then map (fun file => (file, "Maximum 5 files allowed per message")) (drop 5 files)
    else [] in
  let files' := if over then take 5 files else files in
  fold_left sort_file files' ([], invalid).

Definition isImageFile (file : FileInfo) : bool :=
  String.prefix "image/" (file_type file).

Definition isPDFFile (file : FileInfo) : bool :=
  String.eqb (file_type file) "application/pdf".

Definition getFileTypeDescription (file : FileInfo) : string :=
  if isImageFile file then "Image"
  else if isPDFFile file then "PDF Document"
  else "Document".

(** A file the client-side check lets through. *)
Definition accepted (file : FileInfo) : bool :=
  valid (validateFileClientSide file).

End FileService.

(* ===================================================================== *)
(** * The chat input ([components/chat/ChatInput.tsx]) *)
(* ===================================================================== *)

Module ChatInput.
Import ChatService FileService.

Record Props := {
  busy : bool;
  conversationId : option string;
  onSendWithFiles : bool
}.

Record State := {
  text : string;
  selectedFiles : list FileInfo;
  isProcessingFile : bool;
  fileError : option string
}.

(** The second argument of [onSend]: the caller's context, or the file
    context of the fallback path. *)
Inductive SendContext :=
  | Given (context : option Json)
  | FilesAttached (files : list FileInfo) (conversation_id : option string).

(** What [send] calls. *)
Inductive Call :=
  | SidebarAutoCollapse
  | OnSendWithFiles (t : string) (files : list FileInfo) (conversationId : option string)
  | OnSend (t : string) (context : SendContext).

Definition setText (t : string) (st : State) : State :=
  {| text := t; selectedFiles := selectedFiles st;
     isProcessingFile := isProcessingFile st; fileError := fileError st |}.

Definition setSelectedFiles (f : list FileInfo -> list FileInfo) (st : State) : State :=
  {| text := text st; selectedFiles := f (selectedFiles st);
     isProcessingFile := isProcessingFile st; fileError := fileError st |}.

Definition setIsProcessingFile (b : bool) (st : State) : State :=
  {| text := text st; selectedFiles := selectedFiles st;
     isProcessingFile := b; fileError := fileError st |}.

Definition setFileError (e : option string) (st : State) : State :=
  {| text := text st; selectedFiles := selectedFiles st;
     isProcessingFile := isProcessingFile st; fileError := e |}.

Section Input.

(** [String.prototype.trim]. *)
Variable trim : string -> string.

(** [send(messageText, context)] run to completion; [settles] is how the
    promise of the one handler it awaits ends. *)
Definition send (p : Props) (messageText : option string) (context : option Json)
    (settles : Outcome unit) (st : State) : State * list Call :=
  let t := default "" (or_else messageText (Some (trim (text st)))) in
  let collapse := if truthy (Some t) then [SidebarAutoCollapse] else [] in
  if Nat.ltb 0 (length (selectedFiles st)) && negb (isProcessingFile st) then
    if negb (truthy (Some t)) then
      (setFileError (Some "Please enter a message to send with the file(s)") st,
       collapse)
    else
      let st1 := setFileError None (setIsProcessingFile true st) in
      let call :=
        if onSendWithFiles p
        then OnSendWithFiles t (selectedFiles st) (conversationId p)
        else OnSend t (FilesAttached (selectedFiles st) (conversationId p)) in
      match settles with
      | Return _ =>
          (setIsProcessingFile false
             (setText "" (setSelectedFiles (fun _ => []) st1)),
           collapse ++ [call])
      | Throw err =>
          let errorMessage :=
            if is_Error err then e_message err else Some "File processing failed" in
          (setIsProcessingFile false (setFileError errorMessage st1),
           collapse ++ [call])
      end
  else if negb (truthy (Some t)) || busy p || isProcessingFile st then (st, collapse)
  else
    let st1 := if negb (truthy messageText) then setText "" st else st in
    (st1, collapse ++ [OnSend t (Given context)]).

End Input.

(** The calls of [onSend] and [onSendWithFiles] among the calls made. *)
Definition handler_calls (calls : list Call) : list Call :=
  flat_map (fun c => match c with
                     | SidebarAutoCollapse => []
                     | _ => [c]
                     end) calls.

(** [existingFile.name === newFile.name && existingFile.size === newFile.size]. *)
Definition same_file (existingFile newFile : FileInfo) : bool :=
  String.eqb (file_name existingFile) (file_name newFile)
  && Z.eqb (file_size existingFile) (file_size newFile).

(** [onFileChange(e)] for the files picked ([e.target.files]). *)
Definition onFileChange (picked : list FileInfo) (st : State) : State :=
  if Nat.eqb (length picked) 0 then st
  else
    let validation := validateMultipleFiles (selectedFiles st ++ picked) in
    let st1 :=
      if Nat.ltb 0 (length validation.2) then
        setFileError
          (Some (String.concat ", "
                   (map (fun item => file_name item.1 +:+ ": " +:+ item.2)
                        validation.2))) st
      else setFileError None st in
    if Nat.ltb 0 (length validation.1) then
      let newFiles :=
        List.filter
          (fun newFile => negb (existsb (fun existingFile => same_file existingFile newFile)
                                        (selectedFiles st)))
          validation.1 in
      if Nat.ltb 0 (length newFiles) then
        setSelectedFiles (fun prev => prev ++ newFiles) st1
      else if Nat.eqb (length validation.2) 0 then
        setFileError (Some "Some files are already selected") st1
      else st1
    else st1.

(** [removeFile(index)]. *)
Definition removeFile (index : nat) (st : State) : State :=
  setFileError None
    (setSelectedFiles (fun prev => take index prev ++ drop (S index) prev) st).

(** The input as first rendered. *)
Definition empty_input : State :=
  {| text := ""; selectedFiles := []; isProcessingFile := false; fileError := None |}.

(** What a user does to the selection. *)
Inductive SelectionStep :=
  | Pick (picked : list FileInfo)
  | Remove (index : nat).

Definition selection_step (st : State) (step : SelectionStep) : State :=
  match step with
  | Pick picked => onFileChange picked st
  | Remove index => removeFile index st
  end.

(** At most five files are selected, each one accepted by the check. *)
Definition well_selected (st : State) : Prop :=
  length (selectedFiles st) <= 5 /\
  Forall (fun file => accepted file = true) (selectedFiles st).

(** The file object the chat service is handed, named by its file name. *)
Definition as_file (file : FileInfo) : File := file_name file.

(** How the promise of a wrapper handler ends. *)
Definition settled {A} (r : Outcome A * list Effect) : Outcome unit :=
  match r.1 with
  | Return _ => Return tt
  | Throw err => Throw err
  end.

End ChatInput.

(* ===================================================================== *)
(** * The chat options menu ([components/chat/ChatOptionsMenu.tsx]) *)
(* ===================================================================== *)

Module ChatOptionsMenu.
Import ChatService.

Record State := {
  isOpen : bool;
  isRenaming : bool;
  showDeleteModal : bool;
  newTitle : string;
  isLoading : bool
}.

(** The callbacks of the parent list. *)
Inductive Call :=
  | OnUpdate (id : string) (updatedChat : Conversation)
  | OnDelete (id : string).

Section Menu.

Variable server : Server.
Variable userId : option string.

(** [String.prototype.trim]. *)
Variable trim : string -> string.

(** The [chat] prop. *)
Variable chat : Conversation.




End Menu.

End ChatOptionsMenu.

(* ===================================================================== *)
(** * Concrete inputs used by the examples *)
(* ===================================================================== *)

(** The bus of a fresh instance. *)
Definition fresh_bus : EventBus.ChatEventBus :=
  {| EventBus.listeners := ∅; EventBus.lastEventTimestamp := EventBus.Integer 0 |}.

(** A browser tab in which nothing is registered yet. *)
Definition browser : EventBus.Env :=
  {| EventBus.window_defined := true; EventBus.window_listeners := [];
     EventBus.document_listeners := []; EventBus.next_serial := 0 |}.

(** A relayed event with a given timestamp. *)
Definition sample_event (ts : Z) : EventBus.ChatEvent :=
  {| EventBus.type := EventBus.message_sent;
     EventBus.conversationId := Some "c1";
     EventBus.data := None;
     EventBus.timestamp := ts;
     EventBus.userId := Some "u2" |}.

(** A decoder for the texts the examples relay: two well-formed events
    and a [message_sent] object that lacks its timestamp. *)
Definition sample_parse (text : string) : option EventBus.Parsed :=
  if String.eqb text "at 5" then Some (EventBus.Typed (sample_event 5))
  else if String.eqb text "at 3" then Some (EventBus.Typed (sample_event 3))
  else if String.eqb text "unstamped"
  then Some (EventBus.Untyped (Some "message_sent") EventBus.Absent)
  else None.

(** Comparisons the examples never reach. *)
Definition no_coercion (a b : EventBus.Stamp) : bool := false.

Definition storage_event (text : string) : EventBus.StorageEvent :=
  {| EventBus.key := Some "chat_event"; EventBus.newValue := Some text |}.

(** A bus with one listener, callback 1, for [message_sent]. *)
Definition listening_bus : EventBus.ChatEventBus :=
  (EventBus.subscribe (EventBus.On EventBus.message_sent) 1 fresh_bus).1.

(** Every callback of the sync hook supplied. *)
Definition all_callbacks : SyncHook.UseChatSyncOptions :=
  {| SyncHook.onConversationCreated := true;
     SyncHook.onConversationUpdated := true;
     SyncHook.onConversationDeleted := true;
     SyncHook.onMessageSent := true;
     SyncHook.onForceRefresh := true |}.

(** A [message_sent] event that names neither a user nor a conversation. *)
Definition anonymous_event : EventBus.ChatEvent :=
  {| EventBus.type := EventBus.message_sent;
     EventBus.conversationId := None;
     EventBus.data := None;
     EventBus.timestamp := 1;
     EventBus.userId := None |}.

(** A token decoder that reads the token itself as the [sub] claim. *)
Definition sample_token_sub (token : string) : option string := Some token.

Definition sample_conversation : Conversation :=
  {| c_id := "c1"; c_title := "hello"; c_first_message := "hello";
     c_last_activity := "2025-01-01T00:00:00Z"; c_message_count := 0;
     c_is_archived := false; c_created_at := "2025-01-01T00:00:00Z" |}.

Definition sample_reply : ChatResponse :=
  {| response := "Hi there"; r_intent := None; conversation_id := Some "c1";
     message_id := Some "m1"; r_blocks := None; attachment_processed := Some true |}.

(** A backend that answers every request. *)
Definition healthy_server : ChatService.Server :=
  {| ChatService.answer_conversation := fun _ _ => ChatService.Return sample_conversation;
     ChatService.answer_chat := fun _ _ => ChatService.Return sample_reply;
     ChatService.answer_unit := fun _ _ => ChatService.Return tt |}.

Definition network_error : ChatService.Error :=
  {| ChatService.is_Error := true; ChatService.detail := None;
     ChatService.e_message := Some "Network Error" |}.

(** A backend that creates conversations but rejects every message. *)
Definition rejecting_server : ChatService.Server :=
  {| ChatService.answer_conversation := fun _ _ => ChatService.Return sample_conversation;
     ChatService.answer_chat := fun _ _ => ChatService.Throw network_error;
     ChatService.answer_unit := fun _ _ => ChatService.Return tt |}.

(** A backend that is down. *)
Definition failing_server : ChatService.Server :=
  {| ChatService.answer_conversation := fun _ _ => ChatService.Throw network_error;
     ChatService.answer_chat := fun _ _ => ChatService.Throw network_error;
     ChatService.answer_unit := fun _ _ => ChatService.Throw network_error |}.

(** A message of 53 code units. *)
Definition long_message : string :=
  "Create class P4 East and enrol every pupil of P3 East".

(** A transcript of two messages, as loaded for a page. *)
Definition sample_transcript : list ChatService.DisplayMessage :=
  [{| ChatService.role := ChatService.user; ChatService.content := "hello";
      ChatService.d_blocks := None; ChatService.d_response_data := None;
      ChatService.d_intent := None; ChatService.d_id := Some "m1";
      ChatService.d_timestamp := Some "2025-01-01T00:00:00Z";
      ChatService.d_rating := ChatService.Undefined |};
   {| ChatService.role := ChatService.assistant; ChatService.content := "Hi there";
      ChatService.d_blocks := Some ["{}"];
      ChatService.d_response_data :=
        Some {| ChatService.blocks := Some ["{}"]; ChatService.other_entries := "{}" |};
      ChatService.d_intent := Some "greet"; ChatService.d_id := Some "m2";
      ChatService.d_timestamp := Some "2025-01-01T00:00:01Z";
      ChatService.d_rating := ChatService.Value 1%Z |}].

(** A store holding an array of two server messages at location 1: a
    user message (2) and an assistant message (3) whose [response_data]
    (4) has one block (the array 5 holding the object 6). *)
Definition sample_store : gmap positive ChatService.Cell :=
  <[1%positive := ChatService.ArrayCell
                    [ChatService.VRef 2; ChatService.VRef 3]]>
  (<[2%positive := ChatService.ObjectCell
       (<["id" := ChatService.VStr "m1"]>
        (<["message_type" := ChatService.VStr "USER"]>
         (<["content" := ChatService.VStr "hello"]>
          (<["created_at" := ChatService.VStr "2025-01-01T00:00:00Z"]> ∅))))]>
   (<[3%positive := ChatService.ObjectCell
        (<["id" := ChatService.VStr "m2"]>
         (<["message_type" := ChatService.VStr "ASSISTANT"]>
          (<["content" := ChatService.VStr "Hi there"]>
           (<["intent" := ChatService.VStr "greet"]>
            (<["response_data" := ChatService.VRef 4]>
             (<["created_at" := ChatService.VStr "2025-01-01T00:00:01Z"]>
              (<["rating" := ChatService.VNum 1]> ∅)))))))]>
    (<[4%positive := ChatService.ObjectCell
         (<["blocks" := ChatService.VRef 5]> ∅)]>
     (<[5%positive := ChatService.ArrayCell [ChatService.VRef 6]]>
      (<[6%positive := ChatService.ObjectCell
           (<["type" := ChatService.VStr "text"]> ∅)]> ∅))))).

(** Props of a wrapper on the new-chat page with a draft to send. *)
Definition draft_props (draft : string) : ChatWrapper.Props :=
  {| ChatWrapper.conversationId := None;
     ChatWrapper.initialMessage := Some draft;
     ChatWrapper.initialContext := None;
     ChatWrapper.onConversationCreated := true;
     ChatWrapper.onConversationUpdated := true |}.

(** An encoder that writes the one text [sample_parse] reads as the event
    stamped 5. *)
Definition sample_stringify (event : EventBus.ChatEvent) : string := "at 5".

(** A wrapper on the page of conversation "c1". *)
Definition open_props : ChatWrapper.Props :=
  {| ChatWrapper.conversationId := Some "c1";
     ChatWrapper.initialMessage := None;
     ChatWrapper.initialContext := None;
     ChatWrapper.onConversationCreated := true;
     ChatWrapper.onConversationUpdated := true |}.

(** A wrapper handed the sentinel as its conversation id. *)
Definition sentinel_props : ChatWrapper.Props :=
  {| ChatWrapper.conversationId := Some "new";
     ChatWrapper.initialMessage := None;
     ChatWrapper.initialContext := None;
     ChatWrapper.onConversationCreated := true;
     ChatWrapper.onConversationUpdated := true |}.

Definition photo (n : string) : FileService.FileInfo :=
  {| FileService.file_name := n; FileService.file_size := 2048;
     FileService.file_type := "image/png" |}.

Definition archive_zip : FileService.FileInfo :=
  {| FileService.file_name := "all.zip"; FileService.file_size := 4096;
     FileService.file_type := "application/zip" |}.

(** A PDF 240 bytes over the limit. *)
Definition big_pdf : FileService.FileInfo :=
  {| FileService.file_name := "scan.pdf"; FileService.file_size := 10486000;
     FileService.file_type := "application/pdf" |}.

(** Six files: four photos, an archive, and one more photo. *)
Definition six_files : list FileService.FileInfo :=
  [photo "a.png"; photo "b.png"; photo "c.png"; photo "d.png"; archive_zip;
   photo "f.png"].

(** A parent whose callbacks, and a router whose calls, all return. *)
Definition calm_parent (log : list ChatService.Effect) (call : ChatWrapper.Outgoing)
  : ChatService.Outcome unit :=
  ChatService.Return tt.



(** A [trim] for texts without surrounding white space. *)
Definition no_trim (s : string) : string := s.

(** An input with a message typed and one photo selected. *)
Definition draft_with_photo : ChatInput.State :=
  {| ChatInput.text := "what is this?";
     ChatInput.selectedFiles := [photo "a.png"];
     ChatInput.isProcessingFile := false;
     ChatInput.fileError := None |}.

Definition wired_input : ChatInput.Props :=
  {| ChatInput.busy := false; ChatInput.conversationId := Some "c1";
     ChatInput.onSendWithFiles := true |}.


(* ===================================================================== *)
(** * Properties of the event bus *)
(* ===================================================================== *)

Section BusFacts.
Import EventBus.

Variable JSON_parse : string -> option Parsed.
Variable coerced_le : Stamp -> Stamp -> bool.

(** [handleStorageEvent] is [relayed] followed by the timestamp test. *)
Lemma handleStorageEvent_relayed (bus : ChatEventBus) (e : StorageEvent) :
  handleStorageEvent JSON_parse coerced_le bus e =
    match relayed JSON_parse e with
    | Some value =>
        if stamp_le coerced_le (stamp_of value) (lastEventTimestamp bus) then (bus, [])
        else
          let bus' := {| listeners := listeners bus;
                         lastEventTimestamp := stamp_of value |} in
          (bus', notify bus' value)
    | None => (bus, [])
    end.
Proof.
  unfold handleStorageEvent, relayed.
  destruct (strict_eq (key e) (Some "chat_event") && truthy (newValue e)); [|done].
  destruct (newValue e) as [text|]; [|done].
  by destruct (JSON_parse text).
Qed.

(** For an event of the declared type, [notify] makes the calls of
    [notifyListeners]. *)
Lemma notify_typed (bus : ChatEventBus) (event : ChatEvent) :
  notify bus (Typed event) =
    map (fun call : Call => (call.1, Typed call.2)) (notifyListeners bus event).
Proof. unfold notify, notifyListeners. cbn [key_of]. by rewrite map_map. Qed.

Lemma handleStorageEvent_stale bus e value :
  relayed JSON_parse e = Some value ->
  stamp_le coerced_le (stamp_of value) (lastEventTimestamp bus) = true ->
  handleStorageEvent JSON_parse coerced_le bus e = (bus, []).
Proof. intros Hrel Hle. by rewrite handleStorageEvent_relayed, Hrel, Hle. Qed.

Lemma handleStorageEvent_fresh bus e value :
  relayed JSON_parse e = Some value ->
  stamp_le coerced_le (stamp_of value) (lastEventTimestamp bus) = false ->
  handleStorageEvent JSON_parse coerced_le bus e =
    ({| listeners := listeners bus; lastEventTimestamp := stamp_of value |},
     notify bus value).
Proof. intros Hrel Hlt. by rewrite handleStorageEvent_relayed, Hrel, Hlt. Qed.

Lemma handleStorageEvent_ignored bus e :
  relayed JSON_parse e = None ->
  handleStorageEvent JSON_parse coerced_le bus e = (bus, []).
Proof. intros Hrel. by rewrite handleStorageEvent_relayed, Hrel. Qed.




(** Every call made is for the relayed value, which the test let through,
    and leaves its timestamp as the last-seen one. *)
Lemma handleStorageEvent_calls bus e listener value :
  (listener, value) ∈ (handleStorageEvent JSON_parse coerced_le bus e).2 ->
  relayed JSON_parse e = Some value /\
  stamp_le coerced_le (stamp_of value) (lastEventTimestamp bus) = false /\
  lastEventTimestamp (handleStorageEvent JSON_parse coerced_le bus e).1 = stamp_of value.
Proof.
  rewrite handleStorageEvent_relayed.
  destruct (relayed JSON_parse e) as [v|]; simpl.
  - destruct (stamp_le coerced_le (stamp_of v) (lastEventTimestamp bus)) eqn:Hle; simpl.
    + intros Hin. by apply elem_of_nil in Hin.
    + unfold notify. intros Hin.
      apply list_elem_of_fmap in Hin as (l & Heq & _).
      injection Heq as -> ->. done.
  - intros Hin. by apply elem_of_nil in Hin.
Qed.

(** ** Traffic with integer timestamps

    As long as every relayed value carries an integer timestamp, the
    last-seen timestamp is an integer that never goes back. *)
Lemma handleStorageEvent_monotone bus e (seen : Z) :
  integer_stamped JSON_parse e ->
  lastEventTimestamp bus = Integer seen ->
  exists seen' : Z,
    lastEventTimestamp (handleStorageEvent JSON_parse coerced_le bus e).1 = Integer seen' /\
    (seen <= seen')%Z.
Proof.
  unfold integer_stamped. intros Hint Hseen. rewrite handleStorageEvent_relayed.
  destruct (relayed JSON_parse e) as [value|]; [|exists seen; split; [done|lia]].
  destruct Hint as [n Hn]. rewrite Hn, Hseen. cbn [stamp_le].
  destruct (Z.leb_spec n seen); cbn [fst lastEventTimestamp].
  - exists seen. split; [done|lia].
  - exists n. split; [done|lia].
Qed.

Lemma deliver_monotone bus es (seen : Z) :
  Forall (integer_stamped JSON_parse) es ->
  lastEventTimestamp bus = Integer seen ->
  exists seen' : Z,
    lastEventTimestamp (deliver JSON_parse coerced_le bus es).1 = Integer seen' /\
    (seen <= seen')%Z.
Proof.
  intros Hall. revert bus seen.
  induction Hall as [|e es He _ IH]; intros bus seen Hseen; simpl.
  - exists seen. split; [done|lia].
  - destruct (handleStorageEvent_monotone bus e seen He Hseen) as (s1 & Hs1 & Hle1).
    destruct (handleStorageEvent JSON_parse coerced_le bus e) as [bus1 calls].
    simpl in Hs1. destruct (IH bus1 s1 Hs1) as (s2 & Hs2 & Hle2).
    destruct (deliver JSON_parse coerced_le bus1 es) as [bus2 log]. simpl in *.
    exists s2. split; [done|lia].
Qed.

(** In the log of such a sequence, the dispatched events carry strictly
    increasing timestamps, all newer than what the instance had seen. *)
Lemma deliver_stamps_increasing bus es (seen : Z) :
  Forall (integer_stamped JSON_parse) es ->
  lastEventTimestamp bus = Integer seen ->
  exists stamps : list Z,
    dispatched_stamps (deliver JSON_parse coerced_le bus es).2 = map Integer stamps /\
    Forall (fun t => (seen < t)%Z) stamps /\
    StronglySorted Z.lt stamps.
Proof.
  intros Hall. revert bus seen.
  induction Hall as [|e es He _ IH]; intros bus seen Hseen; simpl.
  - exists []. repeat split; constructor.
  - pose proof (handleStorageEvent_monotone bus e seen He Hseen) as (s1 & Hs1 & Hle1).
    pose proof (handleStorageEvent_calls bus e) as Hcalls.
    destruct (handleStorageEvent JSON_parse coerced_le bus e) as [bus1 calls].
    simpl in *.
    destruct (IH bus1 s1 Hs1) as (stamps & Hlog & Hall' & Hsorted).
    destruct (deliver JSON_parse coerced_le bus1 es) as [bus2 log]. simpl in *.
    assert (Hnewer : Forall (fun t => (seen < t)%Z) stamps).
    { eapply Forall_impl; [exact Hall'|]. simpl. intros t Ht. lia. }
    destruct calls as [|[listener value] calls].
    + exists stamps. done.
    + destruct (Hcalls listener value) as (Hrel & Hlt & Hlast);
        [apply list_elem_of_here|].
      rewrite Hs1 in Hlast. rewrite Hseen, <- Hlast in Hlt. cbn [stamp_le] in Hlt.
      apply Z.leb_gt in Hlt.
      exists (s1 :: stamps). cbn [dispatched_stamps flat_map app snd].
      split; [|split].
      * simpl. rewrite <- Hlast. f_equal. exact Hlog.
      * constructor; done.
      * constructor; done.
Qed.

(** An instance does not hear its own broadcast: the event it wrote,
    relayed back to it, is stale. *)
Lemma broadcast_not_self_notified (JSON_stringify : ChatEvent -> string)
    (env : Env) (now : Z) (bus bus' : ChatEventBus) (ty : ChatEventType)
    (cid : option string) (d : option Payload) (uid : option string)
    (text : string) (e : StorageEvent) (value : Parsed) :
  broadcast JSON_stringify env now false bus ty cid d uid = (bus', Some text) ->
  relayed JSON_parse e = Some value ->
  stamp_of value = Integer now ->
  handleStorageEvent JSON_parse coerced_le bus' e = (bus', []).
Proof.
  unfold broadcast. destruct (window_defined env); simpl; [|done].
  intros [= <- _] Hrel Hts. apply (handleStorageEvent_stale _ _ _ Hrel).
  rewrite Hts. simpl. apply Z.leb_refl.
Qed.


End BusFacts.


Section SubscriptionFacts.
Import EventBus.

Lemma indexOf_None (x : Callback) (l : list Callback) :
  indexOf x l = None <-> x ∉ l.
Proof.
  induction l as [|y l IH]; simpl.
  - split; [intros _; apply not_elem_of_nil | done].
  - destruct (Nat.eqb_spec y x) as [->|Hne].
    + split; [done|]. intros Hnot. exfalso. apply Hnot. apply list_elem_of_here.
    + destruct (indexOf x l) as [i|]; simpl.
      * split; [done|]. intros Hnot. exfalso.
        assert (Hl : x ∉ l) by (intros Hin; apply Hnot; by apply list_elem_of_further).
        apply IH in Hl. done.
      * split; [|done]. intros _ Hin.
        apply elem_of_cons in Hin as [->|Hin]; [done|].
        by apply (proj1 IH).
Qed.

(** [indexOf] finds the first occurrence. *)
Lemma indexOf_Some (x : Callback) (l : list Callback) (i : nat) :
  indexOf x l = Some i ->
  exists pre post, l = pre ++ x :: post /\ (x ∉ pre) /\ length pre = i.
Proof.
  revert i. induction l as [|y l IH]; intros i; simpl; [done|].
  destruct (Nat.eqb_spec y x) as [->|Hne].
  - intros [= <-]. exists [], l. split; [done|]. split; [apply not_elem_of_nil | done].
  - destruct (indexOf x l) as [j|] eqn:Hj; simpl; [|done].
    intros [= <-]. destruct (IH j eq_refl) as (pre & post & -> & Hpre & Hlen).
    exists (y :: pre), post. split; [done|]. split; [|by simpl; lia].
    intros Hin. apply elem_of_cons in Hin as [->|Hin]; done.
Qed.

Lemma splice1_middle (pre post : list Callback) (x : Callback) :
  splice1 (length pre) (pre ++ x :: post) = pre ++ post.
Proof.
  unfold splice1. rewrite take_app_length.
  replace (S (length pre)) with (length (pre ++ [x])) by (rewrite length_app; simpl; lia).
  replace (pre ++ x :: post) with ((pre ++ [x]) ++ post) by (by rewrite <- app_assoc).
  by rewrite drop_app_length.
Qed.

(** What [subscribe] leaves under the topic's key. *)
Lemma subscribe_lookup k cb bus :
  listeners (subscribe k cb bus).1 !! topic_key k =
    Some (default [] (listeners bus !! topic_key k) ++ [cb]).
Proof.
  unfold subscribe. simpl. rewrite lookup_insert_eq.
  destruct (listeners bus !! topic_key k) eqn:Hk; simpl.
  - by rewrite Hk.
  - by rewrite lookup_insert_eq.
Qed.

Lemma subscribe_lookup_ne k cb bus (j : string) :
  j ≠ topic_key k ->
  listeners (subscribe k cb bus).1 !! j = listeners bus !! j.
Proof.
  intros Hne. unfold subscribe. simpl.
  rewrite lookup_insert_ne by done.
  destruct (listeners bus !! topic_key k); [done|].
  by rewrite lookup_insert_ne.
Qed.

(** Unsubscribing a callback that is not registered changes nothing. *)
Lemma unsubscribe_absent k cb bus :
  cb ∉ default [] (listeners bus !! topic_key k) ->
  unsubscribe k cb bus = bus.
Proof.
  intros Hnot. unfold unsubscribe.
  by rewrite (proj2 (indexOf_None _ _) Hnot).
Qed.

(** Unsubscribing removes the first registration of the callback. *)
Lemma unsubscribe_first k cb bus pre post :
  listeners bus !! topic_key k = Some (pre ++ cb :: post) ->
  cb ∉ pre ->
  listeners (unsubscribe k cb bus) = <[topic_key k := pre ++ post]> (listeners bus) /\
  lastEventTimestamp (unsubscribe k cb bus) = lastEventTimestamp bus.
Proof.
  intros Hk Hpre. unfold unsubscribe. rewrite Hk. simpl.
  destruct (indexOf cb (pre ++ cb :: post)) as [i|] eqn:Hi.
  - apply indexOf_Some in Hi as (pre' & post' & Heq & Hpre' & <-).
    assert (pre' = pre) as ->.
    { assert (Hlen : length pre' = length pre).
      { destruct (Nat.lt_trichotomy (length pre') (length pre)) as [Hlt|[Heq'|Hgt]];
          [exfalso|done|exfalso].
        - apply Hpre. apply list_elem_of_lookup. exists (length pre').
          assert (Hl : (pre ++ cb :: post) !! length pre' = Some cb).
          { rewrite Heq. by rewrite list_lookup_middle. }
          by rewrite lookup_app_l in Hl.
        - apply Hpre'. apply list_elem_of_lookup. exists (length pre).
          assert (Hl : (pre' ++ cb :: post') !! length pre = Some cb).
          { rewrite <- Heq. by rewrite list_lookup_middle. }
          by rewrite lookup_app_l in Hl. }
      apply (f_equal (take (length pre))) in Heq.
      rewrite take_app_length in Heq. rewrite <- Hlen in Heq at 1.
      by rewrite take_app_length in Heq. }
    simpl. by rewrite splice1_middle.
  - exfalso. apply indexOf_None in Hi. apply Hi.
    apply elem_of_app. right. apply list_elem_of_here.
Qed.

(** C8, as the code has it. The function [subscribe] returns removes
    exactly one registration of the callback under the topic: the earliest
    one, which is the registration just made whenever the callback was not
    already registered there. It leaves every other topic and the
    last-seen timestamp alone. Called on a state in which the callback has
    no registration under the topic it changes nothing, so a second call
    has no further effect when the callback had no duplicate registration;
    it returns a state in every case. *)
Theorem unsubscribe_removes_one_registration (bus : ChatEventBus) (k : Topic)
    (cb : Callback) :
  let registered := default [] (listeners bus !! topic_key k) in
  let bus1 := (subscribe k cb bus).1 in
  let unsub := (subscribe k cb bus).2 in
  (exists pre post,
     registered ++ [cb] = pre ++ cb :: post /\ (cb ∉ pre) /\
     listeners (unsub bus1) !! topic_key k = Some (pre ++ post)) /\
  (forall j : string, j ≠ topic_key k ->
     listeners (unsub bus1) !! j = listeners bus !! j) /\
  lastEventTimestamp (unsub bus1) = lastEventTimestamp bus /\
  (forall later : ChatEventBus,
     cb ∉ default [] (listeners later !! topic_key k) -> unsub later = later) /\
  (cb ∉ registered ->
     listeners (unsub bus1) !! topic_key k = Some registered /\
     unsub (unsub bus1) = unsub bus1).
Proof.
  cbv zeta. set (registered := default [] (listeners bus !! topic_key k)).
  pose proof (subscribe_lookup k cb bus) as Hsub. fold registered in Hsub.
  change ((subscribe k cb bus).2) with (unsubscribe k cb).
  assert (Hin : cb ∈ registered ++ [cb]).
  { apply elem_of_app. right. apply list_elem_of_here. }
  destruct (indexOf cb (registered ++ [cb])) as [i|] eqn:Hi;
    [|by apply indexOf_None in Hi].
  apply indexOf_Some in Hi as (pre & post & Heq & Hpre & _).
  rewrite Heq in Hsub.
  destruct (unsubscribe_first k cb _ pre post Hsub Hpre) as [Hls Hts].
  split; [|split; [|split; [|split]]].
  - exists pre, post. split; [done|]. split; [done|].
    by rewrite Hls, lookup_insert_eq.
  - intros j Hne. rewrite Hls, lookup_insert_ne by done.
    by apply subscribe_lookup_ne.
  - by rewrite Hts.
  - intros later Hnot. by apply unsubscribe_absent.
  - intros Hnot.
    assert (pre = registered /\ post = []) as [-> ->].
    { destruct post as [|y post].
      - apply app_inj_tail in Heq as [-> _]. done.
      - exfalso. apply Hnot.
        assert (Hl : (registered ++ [cb]) !! length pre = Some cb)
          by (rewrite Heq; by rewrite list_lookup_middle).
        assert (Hlen : length (registered ++ [cb]) = length (pre ++ cb :: y :: post))
          by (by rewrite Heq).
        rewrite !length_app in Hlen. simpl in Hlen.
        rewrite lookup_app_l in Hl by lia.
        apply list_elem_of_lookup. by exists (length pre). }
    rewrite app_nil_r in Hls.
    assert (Hk : listeners (unsubscribe k cb (subscribe k cb bus).1) !! topic_key k
                 = Some registered) by (by rewrite Hls, lookup_insert_eq).
    split; [done|].
    apply unsubscribe_absent. by rewrite Hk.
Qed.

End SubscriptionFacts.

(** The callback had no earlier registration: the unsubscribe function
    gives back the old listener list and is idempotent. *)
Lemma unsubscribe_removes_one_registration_witness :
  let s := EventBus.subscribe (EventBus.On EventBus.message_sent) 3 fresh_bus in
  EventBus.listeners (s.2 s.1) !! "message_sent" = Some [] /\
  s.2 (s.2 s.1) = s.2 s.1.
Proof.
  apply (unsubscribe_removes_one_registration fresh_bus
           (EventBus.On EventBus.message_sent) 3).
  simpl. apply not_elem_of_nil.
Defined.

(** C8 as stated fails with a duplicate registration: the unsubscribe
    function of the second of two registrations of callback 7, called a
    second time, removes the other registration as well. *)
Lemma unsubscribe_twice_counterexample :
  let s1 := EventBus.subscribe (EventBus.On EventBus.message_sent) 7 fresh_bus in
  let s2 := EventBus.subscribe (EventBus.On EventBus.message_sent) 7 s1.1 in
  EventBus.listeners s2.1 !! "message_sent" = Some [7; 7] /\
  EventBus.listeners (s2.2 s2.1) !! "message_sent" = Some [7] /\
  EventBus.listeners (s2.2 (s2.2 s2.1)) !! "message_sent" = Some [] /\
  s2.2 (s2.2 s2.1) ≠ s2.2 s2.1.
Proof.
  cbv zeta. repeat split; try (vm_compute; reflexivity).
  intros Heq.
  apply (f_equal (fun b => EventBus.listeners b !! "message_sent")) in Heq.
  vm_compute in Heq. discriminate.
Qed.

Section LifecycleFacts.
Import EventBus.

(** [destroy] clears the local subscriptions. *)
Lemma destroy_clears_subscriptions (bus : ChatEventBus) (env : Env) :
  listeners (destroy bus env).1 = ∅.
Proof. done. Qed.

Lemma removeEventListener_idempotent regs name fn :
  removeEventListener (removeEventListener regs name fn) name fn =
  removeEventListener regs name fn.
Proof. unfold removeEventListener. by apply list_filter_filter_l. Qed.

Lemma removeEventListener_comm regs name fn name' fn' :
  removeEventListener (removeEventListener regs name fn) name' fn' =
  removeEventListener (removeEventListener regs name' fn') name fn.
Proof.
  unfold removeEventListener. rewrite !list_filter_filter.
  apply list_filter_iff. intros r. tauto.
Qed.

(** A second [destroy] changes nothing more. *)
Lemma destroy_idempotent (bus : ChatEventBus) (env : Env) :
  destroy (destroy bus env).1 (destroy bus env).2 = destroy bus env.
Proof.
  unfold destroy. destruct (window_defined env) eqn:Hw;
    cbn [fst snd window_defined window_listeners document_listeners
         lastEventTimestamp next_serial].
  - f_equal. f_equal.
    + rewrite (removeEventListener_comm _ "focus" _ "storage" _).
      by rewrite !removeEventListener_idempotent.
    + by rewrite removeEventListener_idempotent.
  - by rewrite Hw.
Qed.

(** Removing a function object leaves the registrations of every other
    function object in place. *)
Lemma removeEventListener_other regs name fn (r : Registration) :
  r ∈ regs -> r ≠ (name, fn) -> r ∈ removeEventListener regs name fn.
Proof.
  intros Hin Hne. unfold removeEventListener. by apply list_elem_of_filter.
Qed.

Lemma addEventListener_elem regs name fn :
  (name, fn) ∈ addEventListener regs name fn.
Proof.
  unfold addEventListener. case_bool_decide as Hin; [done|].
  apply elem_of_app. right. apply list_elem_of_here.
Qed.

Lemma addEventListener_keeps regs name fn (r : Registration) :
  r ∈ regs -> r ∈ addEventListener regs name fn.
Proof.
  intros Hin. unfold addEventListener. case_bool_decide; [done|].
  apply elem_of_app. by left.
Qed.

(** In a browser, the three listeners the constructor registered are
    still registered after [destroy]: the constructor registers the
    function objects [bind] made, [destroy] asks to remove the unbound
    handlers. *)
Lemma destroy_keeps_bound_listeners (env : Env) :
  window_defined env = true ->
  let built := constructor env in
  let after := (destroy built.1 built.2).2 in
  ("storage", Bound handleStorageEvent_fn (next_serial env)) ∈ window_listeners after /\
  ("focus", Bound handleWindowFocus_fn (S (next_serial env))) ∈ window_listeners after /\
  ("visibilitychange", Bound handleVisibilityChange_fn (S (S (next_serial env))))
    ∈ document_listeners after.
Proof.
  intros Hw. unfold constructor, destroy. rewrite Hw. simpl.
  repeat split.
  - apply removeEventListener_other; [|done].
    apply removeEventListener_other; [|done].
    apply addEventListener_keeps, addEventListener_elem.
  - apply removeEventListener_other; [|done].
    apply removeEventListener_other; [|done].
    apply addEventListener_elem.
  - apply removeEventListener_other; [|done].
    apply addEventListener_elem.
Qed.

End LifecycleFacts.

(** C3, at the failing input. In a browser tab, [new ChatEventBus()]
    registers three listeners; [destroy()] afterwards leaves all three
    registered, although it clears the subscriptions and a second
    [destroy()] changes nothing. *)
Example destroy_leaves_environment_listeners :
  let built := EventBus.constructor browser in
  let destroyed := EventBus.destroy built.1 built.2 in
  EventBus.window_listeners built.2 =
    [("storage", EventBus.Bound EventBus.handleStorageEvent_fn 0);
     ("focus", EventBus.Bound EventBus.handleWindowFocus_fn 1)] /\
  EventBus.document_listeners built.2 =
    [("visibilitychange", EventBus.Bound EventBus.handleVisibilityChange_fn 2)] /\
  EventBus.window_listeners destroyed.2 = EventBus.window_listeners built.2 /\
  EventBus.document_listeners destroyed.2 = EventBus.document_listeners built.2 /\
  EventBus.listeners destroyed.1 = ∅ /\
  EventBus.destroy destroyed.1 destroyed.2 = destroyed.
Proof.
  cbv zeta. repeat split; vm_compute; reflexivity.
Qed.

(* ===================================================================== *)
(** * Properties of the sync hook *)
(* ===================================================================== *)

Section HookFacts.
Import EventBus SyncHook.

Variable token_sub : string -> option string.

(** A user id read from the token is never the empty string. *)
Lemma getCurrentUserId_truthy (env : Env) (token : option string) (U : string) :
  getCurrentUserId token_sub env token = Some U -> truthy (Some U) = true.
Proof.
  unfold getCurrentUserId, or_else.
  destruct (window_defined env); simpl; [|done].
  destruct (truthy token); simpl; [|done].
  destruct token as [t|]; [|done].
  destruct (truthy (token_sub t)) eqn:Ht; [|done].
  intros Heq. by rewrite Heq in Ht.
Qed.

Lemma shouldHandleEvent_own (U : string) :
  truthy (Some U) = true -> shouldHandleEvent (Some U) (Some U) = false.
Proof.
  intros HU. unfold shouldHandleEvent, strict_eq. rewrite HU.
  by rewrite bool_decide_eq_true_2.
Qed.

Lemma shouldHandleEvent_other (U : string) (userId : option string) :
  userId ≠ Some U -> shouldHandleEvent (Some U) userId = true.
Proof.
  intros Hne. unfold shouldHandleEvent, strict_eq.
  rewrite (bool_decide_eq_false_2 _ Hne). simpl. apply orb_true_r.
Qed.

(** C2, as the code has it. Let [U] be the user id the hook read from
    the token. An event whose [userId] is [U] invokes no callback. An
    event whose [userId] is absent or differs from [U], and whose callback
    was supplied, invokes exactly that callback when it is a
    [force_refresh] or carries a non-empty [conversationId]; one of the
    four conversation events without a [conversationId] invokes nothing. *)
Theorem self_echo_suppression (env : Env) (token : option string) (U : string)
    (options : UseChatSyncOptions) (event : ChatEvent) :
  getCurrentUserId token_sub env token = Some U ->
  (userId event = Some U -> receive (Some U) options event = []) /\
  (userId event ≠ Some U -> supplied options (type event) = true ->
   forall cid : string,
     type event = force_refresh \/
       (conversationId event = Some cid /\ truthy (Some cid) = true) ->
     receive (Some U) options event =
       [match type event with
        | conversation_created => ConversationCreated cid (data event)
        | conversation_updated => ConversationUpdated cid (data event)
        | conversation_deleted => ConversationDeleted cid
        | message_sent => MessageSent cid (data event)
        | force_refresh => ForceRefresh
        end]) /\
  (type event ≠ force_refresh -> truthy (conversationId event) = false ->
   receive (Some U) options event = []).
Proof.
  intros HU. apply getCurrentUserId_truthy in HU.
  destruct event as [ty cid d ts uid]. simpl.
  split; [|split].
  - intros ->. unfold receive, subscriptions.
    destruct options as [[] [] [] [] []], ty; simpl;
      unfold listen_created, listen_updated, listen_deleted, listen_sent,
             listen_refresh, scoped; simpl;
      rewrite ?(shouldHandleEvent_own U HU); reflexivity.
  - intros Hne Hsup cid' Hcase.
    pose proof (shouldHandleEvent_other U uid Hne) as Hshould.
    unfold receive, subscriptions.
    destruct Hcase as [->|[-> Hcid]].
    + destruct options as [[] [] [] [] []]; simpl in Hsup; try discriminate; simpl;
        unfold listen_refresh; simpl; rewrite Hshould; reflexivity.
    + destruct options as [[] [] [] [] []], ty; simpl in Hsup; try discriminate;
        simpl;
        unfold listen_created, listen_updated, listen_deleted, listen_sent,
               listen_refresh, scoped; simpl;
        rewrite ?Hshould; simpl; rewrite ?Hcid; reflexivity.
  - intros Hty Hcid. unfold receive, subscriptions.
    destruct options as [[] [] [] [] []], ty; try done; simpl;
      unfold listen_created, listen_updated, listen_deleted, listen_sent, scoped;
      simpl; rewrite ?Hcid, ?andb_false_r; reflexivity.
Qed.

End HookFacts.

(** User "u1" is signed in; an event of user "u2" on conversation "c1"
    reaches the [onMessageSent] callback. *)
Lemma self_echo_suppression_witness :
  SyncHook.receive (Some "u1") all_callbacks (sample_event 7) =
    [SyncHook.MessageSent "c1" None].
Proof.
  pose proof (self_echo_suppression sample_token_sub browser (Some "u1") "u1"
                all_callbacks (sample_event 7) eq_refl) as (_ & Hother & _).
  apply (Hother ltac:(discriminate) eq_refl "c1").
  right. split; reflexivity.
Defined.

(** C2 as stated fails: with every callback supplied and user "u1" signed
    in, a [message_sent] event without [userId] and without
    [conversationId] invokes no callback. *)
Lemma self_echo_always_invokes_counterexample :
  EventBus.userId anonymous_event = None /\
  SyncHook.supplied all_callbacks (EventBus.type anonymous_event) = true /\
  EventBus.getCurrentUserId sample_token_sub browser (Some "u1") = Some "u1" /\
  SyncHook.receive (Some "u1") all_callbacks anonymous_event = [].
Proof. repeat split; reflexivity. Qed.

(* ===================================================================== *)
(** * Properties of the chat service *)
(* ===================================================================== *)

Section ServiceFacts.
Import EventBus ChatService.

Variable server : Server.
Variable userId : option string.

Lemma published_app (l1 l2 : list Effect) :
  published (l1 ++ l2) = published l1 ++ published l2.
Proof. unfold published. apply flat_map_app. Qed.

Lemma requests_app (l1 l2 : list Effect) :
  requests (l1 ++ l2) = requests l1 ++ requests l2.
Proof. unfold requests. apply flat_map_app. Qed.

Lemma created_app (l1 l2 : list Effect) :
  created (l1 ++ l2) = created l1 ++ created l2.
Proof. unfold created. rewrite requests_app. apply flat_map_app. Qed.

(** [createConversation], case by case on the backend's answer. *)
Lemma createConversation_run (title firstMessage : string) (log : list Effect) :
  createConversation server userId title firstMessage log =
    match answer_conversation server log (create_request title firstMessage) with
    | Return data =>
        (Return data,
         log ++ [Rest (create_request title firstMessage);
                 Publish conversation_created (Some (c_id data))
                   (Some (PConversation data)) userId])
    | Throw e => (Throw e, log ++ [Rest (create_request title firstMessage)])
    end.
Proof.
  unfold createConversation, try_catch, bind, call, publish, ret, throw.
  destruct (answer_conversation server log _); simpl; [|done].
  by rewrite <- app_assoc.
Qed.

Lemma sendMessageToConversation_run (conversationId message : string)
    (context : option Json) (attachments : option (list Json)) (log : list Effect) :
  sendMessageToConversation server userId conversationId message context attachments log =
    let request := message_request conversationId message context attachments in
    match answer_chat server log request with
    | Return data =>
        (Return data,
         log ++ [Rest request;
                 Publish message_sent (Some conversationId)
                   (Some (PMessage message (response data))) userId])
    | Throw e => (Throw e, log ++ [Rest request])
    end.
Proof.
  unfold sendMessageToConversation, try_catch, bind, call, publish, ret, throw.
  simpl. destruct (answer_chat server log _); simpl; [|done].
  by rewrite <- app_assoc.
Qed.

(** The conversation a send goes to, case by case. *)
Lemma target_run (message : string) (conversationId : option string)
    (log : list Effect) :
  target server userId message conversationId log =
    if needs_new conversationId then
      match createConversation server userId (auto_title message) message log with
      | (Return data, log') => (Return (c_id data), log')
      | (Throw e, log') => (Throw e, log')
      end
    else (Return (default "" conversationId), log).
Proof.
  unfold target. destruct conversationId as [given|].
  - destruct (needs_new (Some given)); [|done].
    unfold bind, ret.
    by destruct (createConversation server userId (auto_title message) message log)
      as [[data|e] log'].
  - simpl. unfold bind, ret.
    by destruct (createConversation server userId (auto_title message) message log)
      as [[data|e] log'].
Qed.

Lemma sendMessageWithFiles_run (message : string) (files : list File)
    (conversationId : option string) (log : list Effect) :
  sendMessageWithFiles server userId message files conversationId log =
    match target server userId message conversationId log with
    | (Return cid, log1) =>
        match answer_chat server log1 (files_request cid message files) with
        | Return data =>
            (Return data,
             log1 ++ [Rest (files_request cid message files);
                      Publish message_sent (Some cid)
                        (Some (PMessage message (response data))) userId])
        | Throw e =>
            (Throw (new_Error (or_else (or_else (detail e) (e_message e))
                                       (Some "File processing failed"))),
             log1 ++ [Rest (files_request cid message files)])
        end
    | (Throw e, log1) => (Throw e, log1)
    end.
Proof.
  unfold sendMessageWithFiles, bind at 1.
  destruct (target server userId message conversationId log) as [[cid|e] log1]; [|done].
  unfold try_catch, bind, call, publish, ret, throw.
  destruct (answer_chat server log1 _); simpl; [|done].
  by rewrite <- app_assoc.
Qed.

Lemma sendMessage_run (message : string) (conversationId : option string)
    (context : option Json) (log : list Effect) :
  sendMessage server userId message conversationId context log =
    match target server userId message conversationId log with
    | (Return cid, log1) =>
        sendMessageToConversation server userId cid message context None log1
    | (Throw e, log1) => (Throw e, log1)
    end.
Proof.
  unfold sendMessage, bind.
  by destruct (target server userId message conversationId log) as [[cid|e] log1].
Qed.

Lemma updateConversation_run (conversationId : string) (updates : Updates)
    (log : list Effect) :
  updateConversation server userId conversationId updates log =
    let put := Rest (update_request conversationId updates) in
    let get := Rest (reload_request conversationId) in
    match answer_unit server log (update_request conversationId updates) with
    | Return _ =>
        match answer_conversation server (log ++ [put]) (reload_request conversationId) with
        | Return data =>
            (Return data,
             log ++ [put; get;
                     Publish conversation_updated (Some conversationId)
                       (Some (PUpdates updates)) userId])
        | Throw e => (Throw e, log ++ [put; get])
        end
    | Throw e => (Throw e, log ++ [put])
    end.
Proof.
  unfold updateConversation, try_catch, bind, call, publish, ret, throw. simpl.
  destruct (answer_unit server log _); simpl; [|done].
  destruct (answer_conversation server _ _); simpl; by rewrite <- !app_assoc.
Qed.

Lemma deleteConversation_run (conversationId : string) (log : list Effect) :
  deleteConversation server userId conversationId log =
    match answer_unit server log (delete_request conversationId) with
    | Return _ =>
        (Return tt,
         log ++ [Rest (delete_request conversationId);
                 Publish conversation_deleted (Some conversationId) None userId])
    | Throw e => (Throw e, log ++ [Rest (delete_request conversationId)])
    end.
Proof.
  unfold deleteConversation, try_catch, bind, call, publish, ret, throw.
  destruct (answer_unit server log _); simpl; [|done].
  by rewrite <- app_assoc.
Qed.

Lemma list_ascii_substring (n : nat) (s : string) :
  list_ascii_of_string (substring 0 n s) = take n (list_ascii_of_string s).
Proof.
  revert s. induction n as [|n IH]; intros [|c s]; simpl; try done.
  by rewrite IH.
Qed.

Lemma list_ascii_append (s1 s2 : string) :
  list_ascii_of_string (s1 +:+ s2) = list_ascii_of_string s1 ++ list_ascii_of_string s2.
Proof. induction s1 as [|c s1 IH]; simpl; [done|]. by rewrite IH. Qed.

(** The auto title, read as a list of code units. *)
Lemma auto_title_chars (message : string) :
  list_ascii_of_string (auto_title message) =
    take 50 (list_ascii_of_string message) ++
    (if decide (50 < String.length message)
     then list_ascii_of_string "..." else []).
Proof.
  unfold auto_title, slice_to. rewrite list_ascii_append, list_ascii_substring.
  f_equal. destruct (Nat.ltb_spec 50 (String.length message)).
  - by rewrite decide_True.
  - by rewrite decide_False by lia.
Qed.

(** An auto-created conversation is requested first, with the auto title
    and the whole message. *)
Lemma target_created (message : string) (conversationId : option string)
    (log : list Effect) :
  needs_new conversationId = true ->
  exists tail,
    (target server userId message conversationId log).2 =
      log ++ Rest (create_request (auto_title message) message) :: tail /\
    created tail = [].
Proof.
  intros Hneeds. rewrite target_run, Hneeds, createConversation_run.
  destruct (answer_conversation server log _) as [conv|e]; simpl.
  - by eexists [_].
  - by exists [].
Qed.

(** C10. Whenever [sendMessage] or [sendMessageWithFiles] auto-creates a
    conversation (the id is missing, empty or "new"), it makes exactly one
    create-conversation request; the title it asks for is the first 50
    code units of the message, followed by "..." exactly when the message
    is longer than 50, and the first message it gives is the whole
    message. *)
Theorem auto_created_conversation_title (message : string)
    (conversationId : option string) (context : option Json) (files : list File)
    (log : list Effect) :
  needs_new conversationId = true ->
  exists title : string,
    list_ascii_of_string title =
      take 50 (list_ascii_of_string message) ++
      (if decide (50 < String.length message)
       then list_ascii_of_string "..." else []) /\
    created (sendMessage server userId message conversationId context log).2 =
      created log ++ [(title, message)] /\
    created (sendMessageWithFiles server userId message files conversationId log).2 =
      created log ++ [(title, message)].
Proof.
  intros Hneeds. exists (auto_title message).
  split; [apply auto_title_chars|].
  destruct (target_created message conversationId log Hneeds) as (tail & Htarget & Htail).
  assert (Hcreated : forall more,
            created more = [] ->
            created ((log ++ Rest (create_request (auto_title message) message) :: tail)
                     ++ more) = created log ++ [(auto_title message, message)]).
  { intros more Hmore.
    change (Rest (create_request (auto_title message) message) :: tail)
      with ([Rest (create_request (auto_title message) message)] ++ tail).
    rewrite !created_app, Htail, Hmore, !app_nil_r. reflexivity. }
  split.
  - rewrite sendMessage_run.
    destruct (target server userId message conversationId log) as [[cid|e] log1];
      cbn [snd] in Htarget; subst log1.
    + rewrite sendMessageToConversation_run. cbv zeta.
      destruct (answer_chat server _ _); cbn [snd]; by apply Hcreated.
    + cbn [snd]. rewrite <- (app_nil_r (log ++ _)). by apply Hcreated.
  - rewrite sendMessageWithFiles_run.
    destruct (target server userId message conversationId log) as [[cid|e] log1];
      cbn [snd] in Htarget; subst log1.
    + destruct (answer_chat server _ _); cbn [snd]; by apply Hcreated.
    + cbn [snd]. rewrite <- (app_nil_r (log ++ _)). by apply Hcreated.
Qed.

(** C4, as the code has it. New-conversation file flow. Called without a
    conversation id, or with the sentinel "new", [sendMessageWithFiles]
    first makes the create-conversation request, a POST to
    [/api/chat/conversations] with the auto title and the message. When
    the backend rejects it, the operation throws that error: no other call
    was made and nothing was published. Otherwise it publishes
    [conversation_created] and then sends the file-bearing message, a POST
    of the form data to [/api/chat/conversations/<new id>/messages]. When
    that is rejected, the operation throws and [conversation_created] is
    all it published; otherwise it publishes [message_sent] and returns
    the reply. A call that returns has thus made exactly these two calls
    and published exactly these two events, each right after its call. *)
Theorem new_conversation_file_flow (message : string) (files : list File)
    (conversationId : option string) (log : list Effect) :
  conversationId = None \/ conversationId = Some "new" ->
  let create :=
    {| method := POST; url := "/api/chat/conversations";
       body := CreateBody (auto_title message) message |} in
  match answer_conversation server log create with
  | Throw e =>
      sendMessageWithFiles server userId message files conversationId log =
        (Throw e, log ++ [Rest create])
  | Return conv =>
      let created_event :=
        Publish conversation_created (Some (c_id conv)) (Some (PConversation conv))
          userId in
      let send :=
        {| method := POST;
           url := "/api/chat/conversations/" +:+ c_id conv +:+ "/messages";
           body := FormData message files |} in
      match answer_chat server (log ++ [Rest create; created_event]) send with
      | Throw e =>
          sendMessageWithFiles server userId message files conversationId log =
            (Throw (new_Error (or_else (or_else (detail e) (e_message e))
                                       (Some "File processing failed"))),
             log ++ [Rest create; created_event; Rest send])
      | Return reply =>
          sendMessageWithFiles server userId message files conversationId log =
            (Return reply,
             log ++ [Rest create; created_event; Rest send;
                     Publish message_sent (Some (c_id conv))
                       (Some (PMessage message (response reply))) userId])
      end
  end.
Proof.
  intros Hnew create.
  assert (Hneeds : needs_new conversationId = true) by (by destruct Hnew as [->| ->]).
  rewrite sendMessageWithFiles_run, target_run, Hneeds, createConversation_run.
  change (create_request (auto_title message) message) with create.
  destruct (answer_conversation server log create) as [conv|e]; [|done].
  cbv zeta.
  change (files_request (c_id conv) message files)
    with {| method := POST;
            url := "/api/chat/conversations/" +:+ c_id conv +:+ "/messages";
            body := FormData message files |}.
  destruct (answer_chat server _ _) as [reply|e]; by rewrite <- app_assoc.
Qed.

(** C5, as the code has it. A failed [createConversation],
    [sendMessageToConversation], [updateConversation] or
    [deleteConversation] throws the error the backend answered and has
    published nothing. A failed [sendMessageWithFiles] has published no
    [message_sent]; it has published nothing at all when it was given a
    conversation id, or when the creation of the conversation is what
    failed, and then only the [conversation_created] of the conversation
    it had just created. The error it throws is the creation's own, or a
    new error carrying the detail or message of the failed send. *)
Theorem failed_mutation_publishes_nothing (log : list Effect) :
  (forall title firstMessage e log',
     createConversation server userId title firstMessage log = (Throw e, log') ->
     published log' = published log /\
     answer_conversation server log (create_request title firstMessage) = Throw e) /\
  (forall cid message context attachments e log',
     sendMessageToConversation server userId cid message context attachments log
       = (Throw e, log') ->
     published log' = published log /\
     answer_chat server log (message_request cid message context attachments)
       = Throw e) /\
  (forall cid updates e log',
     updateConversation server userId cid updates log = (Throw e, log') ->
     published log' = published log /\
     (answer_unit server log (update_request cid updates) = Throw e \/
      answer_conversation server (log ++ [Rest (update_request cid updates)])
        (reload_request cid) = Throw e)) /\
  (forall cid e log',
     deleteConversation server userId cid log = (Throw e, log') ->
     published log' = published log /\
     answer_unit server log (delete_request cid) = Throw e) /\
  (forall message files conversationId e log',
     sendMessageWithFiles server userId message files conversationId log
       = (Throw e, log') ->
     (needs_new conversationId = false ->
      published log' = published log /\
      exists e0,
        answer_chat server log
          (files_request (default "" conversationId) message files) = Throw e0 /\
        e = new_Error (or_else (or_else (detail e0) (e_message e0))
                               (Some "File processing failed"))) /\
     (needs_new conversationId = true ->
      (published log' = published log /\
       answer_conversation server log (create_request (auto_title message) message)
         = Throw e) \/
      (exists conv e0,
         answer_conversation server log (create_request (auto_title message) message)
           = Return conv /\
         answer_chat server
           (log ++ [Rest (create_request (auto_title message) message);
                    Publish conversation_created (Some (c_id conv))
                      (Some (PConversation conv)) userId])
           (files_request (c_id conv) message files) = Throw e0 /\
         published log' =
           published log ++
             [Publish conversation_created (Some (c_id conv))
                (Some (PConversation conv)) userId] /\
         e = new_Error (or_else (or_else (detail e0) (e_message e0))
                                (Some "File processing failed"))))).
Proof.
  split; [|split; [|split; [|split]]].
  - intros title firstMessage e log'. rewrite createConversation_run.
    destruct (answer_conversation server log _) as [data|e0]; [done|].
    intros [= -> <-]. split; [|done].
    rewrite published_app. simpl. by rewrite app_nil_r.
  - intros cid message context attachments e log'.
    rewrite sendMessageToConversation_run. simpl.
    destruct (answer_chat server log _) as [data|e0]; [done|].
    intros [= -> <-]. split; [|done].
    rewrite published_app. simpl. by rewrite app_nil_r.
  - intros cid updates e log'. rewrite updateConversation_run. simpl.
    destruct (answer_unit server log _) as [[]|e0].
    + destruct (answer_conversation server _ _) as [data|e1]; [done|].
      intros [= -> <-]. split; [|by right].
      rewrite published_app. simpl. by rewrite app_nil_r.
    + intros [= -> <-]. split; [|by left].
      rewrite published_app. simpl. by rewrite app_nil_r.
  - intros cid e log'. rewrite deleteConversation_run.
    destruct (answer_unit server log _) as [[]|e0]; [done|].
    intros [= -> <-]. split; [|done].
    rewrite published_app. simpl. by rewrite app_nil_r.
  - intros message files conversationId e log'.
    rewrite sendMessageWithFiles_run, target_run.
    destruct (needs_new conversationId) eqn:Hneeds.
    + rewrite createConversation_run.
      destruct (answer_conversation server log _) as [conv|e0] eqn:Hcreate.
      * destruct (answer_chat server _ _) as [data|e1] eqn:Hsend; [done|].
        intros [= <- <-]. split; [done|]. intros _. right.
        exists conv, e1. split; [done|]. split; [done|]. split; [|done].
        rewrite !published_app. simpl. by rewrite app_nil_r.
      * intros [= -> <-]. split; [done|]. intros _. left. split; [|done].
        rewrite published_app. simpl. by rewrite app_nil_r.
    + destruct (answer_chat server log _) as [data|e1] eqn:Hsend; [done|].
      intros [= <- <-]. split; [|done]. intros _. split.
      * rewrite published_app. simpl. by rewrite app_nil_r.
      * by exists e1.
Qed.

End ServiceFacts.

Section TransformFacts.
Import ChatService.

Lemma get_allocated (heap : Store) (l : Loc) (name : string) :
  is_Some (heap !! l) ->
  get (VRef l) name heap = Some (property heap (VRef l) name, heap).
Proof. intros [c Hc]. unfold get. by rewrite Hc. Qed.

Lemma get_optional_run (heap : Store) (v : Val) (name : string) :
  (forall r : Loc, v = VRef r -> is_Some (heap !! r)) ->
  get_optional v name heap = Some (property heap v name, heap).
Proof.
  intros Hok. destruct v; try done.
  cbn [get_optional]. apply get_allocated. by apply Hok.
Qed.

Lemma get_truthy (heap : Store) (v : Val) (name : string) :
  truthy_val (property heap v name) = true ->
  get v name heap = Some (property heap v name, heap).
Proof.
  destruct v as [| | | | |l]; try done.
  intros Ht. apply get_allocated. unfold property in Ht.
  destruct (heap !! l); [by eexists|done].
Qed.

Lemma property_frame (heap cur : Store) (v : Val) (name : string) :
  (forall l c, heap !! l = Some c -> cur !! l = Some c) ->
  (forall r : Loc, v = VRef r -> is_Some (heap !! r)) ->
  property cur v name = property heap v name.
Proof.
  intros Hframe Hok. destruct v as [| | | | |r]; try done.
  destruct (Hok r eq_refl) as [c Hc]. unfold property.
  by rewrite Hc, (Hframe r c Hc).
Qed.

Lemma toDisplay_run (heap : Store) (m : Loc) (props : gmap string Val) :
  heap !! m = Some (ObjectCell props) ->
  (forall r : Loc, props !! "response_data" = Some (VRef r) -> is_Some (heap !! r)) ->
  toDisplay (VRef m) heap =
    Some (VRef (fresh (dom heap)),
          <[fresh (dom heap) := ObjectCell (displayed heap props)]> heap).
Proof.
  intros Hm Hrd.
  assert (Hget : forall name, get (VRef m) name heap = Some (field props name, heap)).
  { intros name. rewrite get_allocated by (by eexists). unfold property. by rewrite Hm. }
  assert (Hok : forall r : Loc,
            field props "response_data" = VRef r -> is_Some (heap !! r)).
  { intros r Hr. apply Hrd. unfold field in Hr.
    destruct (props !! "response_data") as [v|]; simpl in Hr; [by subst|done]. }
  unfold toDisplay, displayed, jbind. rewrite !Hget.
  set (role := if bool_decide (field props "message_type" = VStr "USER")
               then VStr "user" else VStr "assistant").
  destruct (bool_decide (role = VStr "assistant")); cbn [andb].
  - rewrite Hget. rewrite (get_optional_run _ _ _ Hok).
    destruct (truthy_val (property heap (field props "response_data") "blocks")) eqn:Ht.
    + rewrite Hget, (get_truthy _ _ _ Ht). by rewrite !Hget.
    + unfold jret. by rewrite !Hget.
  - unfold jret. by rewrite !Hget.
Qed.


Lemma server_message_frame (heap cur : Store) (v : Val) :
  (forall l c, heap !! l = Some c -> cur !! l = Some c) ->
  server_message heap v -> server_message cur v.
Proof.
  intros Hframe (m & props & -> & Hm & Hrd). exists m, props.
  split; [done|]. split; [by apply Hframe|].
  intros r Hr. destruct (Hrd r Hr) as [c Hc]. exists c. by apply Hframe.
Qed.

Lemma displayed_frame (heap cur : Store) (props : gmap string Val) :
  (forall l c, heap !! l = Some c -> cur !! l = Some c) ->
  (forall r : Loc, props !! "response_data" = Some (VRef r) -> is_Some (heap !! r)) ->
  displayed cur props = displayed heap props.
Proof.
  intros Hframe Hrd. unfold displayed.
  rewrite (property_frame heap cur (field props "response_data") "blocks" Hframe);
    [done|].
  intros r Hr. apply Hrd. unfold field in Hr.
  destruct (props !! "response_data") as [v|]; simpl in Hr; [by subst|done].
Qed.

(** The loop of [map], from index [k] on, in a store [cur] that extends
    [heap], with the first [k] results in place. *)
Lemma map_loop_run (heap : Store) (a b : Loc) (elems : list Val) :
  heap !! a = Some (ArrayCell elems) ->
  Forall (server_message heap) elems ->
  heap !! b = None ->
  forall (remaining k : nat) (cur : Store) (ready : list Val),
    k + remaining = length elems ->
    (forall l c, heap !! l = Some c -> cur !! l = Some c) ->
    cur !! b = Some (ArrayCell (ready ++ replicate remaining VUndefined)) ->
    length ready = k ->
    exists (final : Store) (rest : list Val),
      map_loop toDisplay (VRef a) (VRef b) k remaining cur = Some (tt, final) /\
      (forall l c, cur !! l = Some c -> l ≠ b -> final !! l = Some c) /\
      final !! b = Some (ArrayCell (ready ++ rest)) /\
      length rest = remaining /\
      (forall (j : nat) (m : Loc) (props : gmap string Val),
         elems !! (k + j) = Some (VRef m) ->
         heap !! m = Some (ObjectCell props) ->
         exists d : Loc,
           rest !! j = Some (VRef d) /\ cur !! d = None /\
           final !! d = Some (ObjectCell (displayed heap props))).
Proof.
  intros Ha Hmsgs Hb remaining.
  induction remaining as [|remaining IH]; intros k cur ready Hlen Hframe HSb Hready.
  - exists cur, []. split; [done|]. split; [done|]. split; [done|]. split; [done|].
    intros j m props Hj. apply lookup_lt_Some in Hj. lia.
  - assert (Hk : is_Some (elems !! k)) by (apply lookup_lt_is_Some; lia).
    destruct Hk as [v Hv].
    pose proof (proj1 (Forall_lookup _ _) Hmsgs k v Hv) as Hwf.
    destruct (server_message_frame heap cur v Hframe Hwf)
      as (m & props & -> & HSm & HSrd).
    destruct Hwf as (m0 & props0 & [= <-] & Hm & Hrd).
    assert (props0 = props) as ->.
    { apply Hframe in Hm. rewrite HSm in Hm. by injection Hm. }
    set (d := fresh (dom cur)).
    assert (Hd : cur !! d = None) by (apply not_elem_of_dom, is_fresh).
    assert (Hdb : d ≠ b) by (intros ->; by rewrite HSb in Hd).
    set (cur1 := <[d := ObjectCell (displayed heap props)]> cur).
    set (cur2 := <[b := ArrayCell ((ready ++ [VRef d]) ++
                                   replicate remaining VUndefined)]> cur1).
    assert (Hstep : map_loop toDisplay (VRef a) (VRef b) k (S remaining) cur =
                    map_loop toDisplay (VRef a) (VRef b) (S k) remaining cur2).
    { cbn [map_loop]. unfold jbind at 1. unfold element.
      rewrite (Hframe a _ Ha), Hv. unfold jbind at 1. unfold jbind at 1.
      rewrite (toDisplay_run cur m props HSm HSrd).
      rewrite (displayed_frame heap cur props Hframe Hrd). fold d. fold cur1.
      unfold set_element.
      assert (HS1b : cur1 !! b =
                     Some (ArrayCell (ready ++ replicate (S remaining) VUndefined))).
      { unfold cur1. by rewrite lookup_insert_ne. }
      rewrite HS1b. cbn [replicate].
      replace (<[k := VRef d]> (ready ++ VUndefined :: replicate remaining VUndefined))
        with ((ready ++ [VRef d]) ++ replicate remaining VUndefined).
      - done.
      - rewrite <- Hready. rewrite insert_app_r_alt by lia.
        rewrite Nat.sub_diag. cbn [insert list_insert]. by rewrite <- app_assoc. }
    rewrite Hstep.
    destruct (IH (S k) cur2 (ready ++ [VRef d]))
      as (final & rest & Hrun & Hkeep & HS'b & Hrest & Hout).
    + lia.
    + intros l c Hl. unfold cur2, cur1.
      assert (l ≠ b) by (intros ->; by rewrite Hb in Hl).
      assert (l ≠ d) by (intros ->; apply Hframe in Hl; by rewrite Hd in Hl).
      rewrite !lookup_insert_ne by done. by apply Hframe.
    + unfold cur2. by rewrite lookup_insert_eq.
    + rewrite length_app. simpl. lia.
    + exists final, (VRef d :: rest).
      split; [done|]. split; [|split; [|split]].
      * intros l c Hl Hlb. apply Hkeep; [|done].
        assert (l ≠ d) by (intros ->; by rewrite Hd in Hl).
        unfold cur2, cur1. by rewrite !lookup_insert_ne.
      * by rewrite <- app_assoc in HS'b.
      * simpl. lia.
      * intros j m' props' Hj Hm'. destruct j as [|j].
        -- rewrite Nat.add_0_r, Hv in Hj. injection Hj as <-.
           rewrite Hm in Hm'. injection Hm' as <-.
           exists d. split; [done|]. split; [done|].
           apply Hkeep; [|done]. unfold cur2, cur1.
           rewrite lookup_insert_ne by done. by rewrite lookup_insert_eq.
        -- replace (k + S j) with (S k + j) in Hj by lia.
           destruct (Hout j m' props' Hj Hm') as (d' & Hd' & Hnew & Hcell).
           exists d'. split; [done|]. split; [|done].
           destruct (cur !! d') as [c|] eqn:HSd'; [|done].
           assert (Hne : d' ≠ b).
           { intros ->. unfold cur2 in Hnew. by rewrite lookup_insert_eq in Hnew. }
           assert (Hne' : d' ≠ d).
           { intros ->. unfold cur2, cur1 in Hnew.
             rewrite lookup_insert_ne in Hnew by done.
             by rewrite lookup_insert_eq in Hnew. }
           unfold cur2, cur1 in Hnew. rewrite !lookup_insert_ne in Hnew by done.
           by rewrite HSd' in Hnew.
Qed.

(** One run of [transformMessagesToDisplay] on an array of server
    messages. *)
Lemma transform_run (heap : Store) (a : Loc) (elems : list Val) :
  heap !! a = Some (ArrayCell elems) ->
  Forall (server_message heap) elems ->
  exists (b : Loc) (heap1 : Store) (out : list Val),
    transformMessagesToDisplay (VRef a) heap = Some (VRef b, heap1) /\
    (forall l c, heap !! l = Some c -> heap1 !! l = Some c) /\
    heap !! b = None /\
    heap1 !! b = Some (ArrayCell out) /\
    length out = length elems /\
    (forall (i : nat) (m : Loc) (props : gmap string Val),
       elems !! i = Some (VRef m) ->
       heap !! m = Some (ObjectCell props) ->
       exists d : Loc,
         out !! i = Some (VRef d) /\ heap !! d = None /\
         heap1 !! d = Some (ObjectCell (displayed heap props))).
Proof.
  intros Ha Hmsgs.
  set (b := fresh (dom heap)).
  assert (Hb : heap !! b = None) by (apply not_elem_of_dom, is_fresh).
  set (start := <[b := ArrayCell (replicate (length elems) VUndefined)]> heap).
  destruct (map_loop_run heap a b elems Ha Hmsgs Hb (length elems) 0 start [])
    as (final & rest & Hrun & Hkeep & HS'b & Hrest & Hout).
  - done.
  - intros l c Hl. unfold start.
    assert (l ≠ b) by (intros ->; by rewrite Hb in Hl).
    by rewrite lookup_insert_ne.
  - unfold start. by rewrite lookup_insert_eq.
  - done.
  - exists b, final, rest.
    split; [|split; [|split; [done|split; [done|split; [done|]]]]].
    + unfold transformMessagesToDisplay, array_map, jbind, length_of, alloc.
      rewrite Ha. fold b. fold start. by rewrite Hrun.
    + intros l c Hl. assert (l ≠ b) by (intros ->; by rewrite Hb in Hl).
      apply Hkeep; [|done]. unfold start. by rewrite lookup_insert_ne.
    + intros i m props Hi Hm.
      destruct (Hout i m props Hi Hm) as (d & Hd & Hnew & Hcell).
      exists d. split; [done|]. split; [|done].
      destruct (heap !! d) as [c|] eqn:Hheapd; [|done].
      assert (d ≠ b) by (intros ->; by rewrite Hb in Hheapd).
      unfold start in Hnew. rewrite lookup_insert_ne in Hnew by done.
      by rewrite Hheapd in Hnew.
Qed.


(** C9. Transform determinism. Run [transformMessagesToDisplay] on an
    array of server messages. It returns a new array with one new object
    per message, in order, whose properties are read off the message:
    [role] from [message_type], [blocks] from the message's
    [response_data] for an assistant message that has some, and
    [content], [response_data], [intent], [id], [timestamp] and [rating]
    as the message has them. Every object the store held, the input array
    and the messages among them, is as it was: the run only reads them
    and allocates. Run again on the same array, in the store the first
    run left, it again changes nothing that existed and returns another
    new array that is deep-equal to the first. *)
Theorem transform_deterministic (heap : Store) (a : Loc) (elems : list Val) :
  heap !! a = Some (ArrayCell elems) ->
  Forall (server_message heap) elems ->
  exists (b : Loc) (heap1 : Store) (out : list Val),
    transformMessagesToDisplay (VRef a) heap = Some (VRef b, heap1) /\
    (forall l c, heap !! l = Some c -> heap1 !! l = Some c) /\
    heap !! b = None /\
    heap1 !! b = Some (ArrayCell out) /\
    length out = length elems /\
    (forall (i : nat) (m : Loc) (props : gmap string Val),
       elems !! i = Some (VRef m) ->
       heap !! m = Some (ObjectCell props) ->
       exists d : Loc,
         out !! i = Some (VRef d) /\ heap !! d = None /\
         heap1 !! d =
           Some (ObjectCell
                   (let role :=
                      if bool_decide (field props "message_type" = VStr "USER")
                      then VStr "user" else VStr "assistant" in
                    let found :=
                      property heap (field props "response_data") "blocks" in
                    <["role" := role]>
                     (<["content" := field props "content"]>
                      (<["blocks" :=
                           if bool_decide (role = VStr "assistant") && truthy_val found
                           then found else VUndefined]>
                       (<["response_data" := field props "response_data"]>
                        (<["intent" := field props "intent"]>
                         (<["id" := field props "id"]>
                          (<["timestamp" := field props "created_at"]>
                           (<["rating" := field props "rating"]> ∅)))))))))) /\
    exists (b' : Loc) (heap2 : Store),
      transformMessagesToDisplay (VRef a) heap1 = Some (VRef b', heap2) /\
      b' ≠ b /\
      (forall l c, heap1 !! l = Some c -> heap2 !! l = Some c) /\
      deep_equal heap2 (VRef b) (VRef b').
Proof.
  intros Ha Hmsgs.
  destruct (transform_run heap a elems Ha Hmsgs)
    as (b & heap1 & out & Hrun & Hframe & Hb & Hheap1b & Hlen & Hout).
  exists b, heap1, out.
  split; [done|]. split; [done|]. split; [done|]. split; [done|]. split; [done|].
  split; [exact Hout|].
  assert (Hmsgs1 : Forall (server_message heap1) elems).
  { eapply Forall_impl; [exact Hmsgs|]. intros v. by apply server_message_frame. }
  destruct (transform_run heap1 a elems (Hframe a _ Ha) Hmsgs1)
    as (b' & heap2 & out' & Hrun' & Hframe' & Hb' & Hheap2b' & Hlen' & Hout').
  exists b', heap2. split; [done|].
  split; [intros ->; by rewrite Hheap1b in Hb'|]. split; [done|].
  apply (equal_arrays heap2 b b' out out'); [by apply Hframe'|done|lia|].
  intros i v1 v2 Hv1 Hv2.
  assert (Hi : is_Some (elems !! i)).
  { apply lookup_lt_is_Some. apply lookup_lt_Some in Hv1. lia. }
  destruct Hi as [v Hv].
  destruct (proj1 (Forall_lookup _ _) Hmsgs i v Hv) as (m & props & -> & Hm & Hrd).
  destruct (Hout i m props Hv Hm) as (d & Hd & _ & Hcell).
  destruct (Hout' i m props Hv (Hframe m _ Hm)) as (d' & Hd' & _ & Hcell').
  rewrite Hd in Hv1. injection Hv1 as <-. rewrite Hd' in Hv2. injection Hv2 as <-.
  rewrite (displayed_frame heap heap1 props Hframe Hrd) in Hcell'.
  apply (equal_objects heap2 d d' (displayed heap props) (displayed heap props));
    [by apply Hframe'|done|done|].
  intros name w1 w2 Hw1 Hw2. rewrite Hw1 in Hw2. injection Hw2 as <-.
  apply same_value.
Qed.

End TransformFacts.

(** Two stored messages, transformed twice: the input array is as it was
    and the second result is a different array, deep-equal to the first. *)
Lemma transform_deterministic_witness :
  exists (b : positive) (heap1 : gmap positive ChatService.Cell),
    ChatService.transformMessagesToDisplay (ChatService.VRef 1) sample_store
      = Some (ChatService.VRef b, heap1) /\
    heap1 !! 1%positive = sample_store !! 1%positive /\
    exists (b' : positive) (heap2 : gmap positive ChatService.Cell),
      ChatService.transformMessagesToDisplay (ChatService.VRef 1) heap1
        = Some (ChatService.VRef b', heap2) /\
      b' ≠ b /\
      ChatService.deep_equal heap2 (ChatService.VRef b) (ChatService.VRef b').
Proof.
  destruct (transform_deterministic sample_store 1%positive
              [ChatService.VRef 2; ChatService.VRef 3] eq_refl)
    as (b & heap1 & out & Hrun & Hframe & _ & _ & _ & _ & b' & heap2 & Hrun' & Hne
        & _ & Hequal).
  - constructor; [|constructor; [|constructor]].
    + eexists 2%positive, _. split; [reflexivity|]. split; [reflexivity|].
      intros r Hr. vm_compute in Hr. discriminate.
    + eexists 3%positive, _. split; [reflexivity|]. split; [reflexivity|].
      intros r Hr. vm_compute in Hr. injection Hr as <-. by eexists.
  - exists b, heap1. split; [exact Hrun|]. split.
    + by apply Hframe.
    + by exists b', heap2.
Defined.

(** A draft of 53 code units sent without a conversation id. *)
Lemma auto_created_conversation_title_witness :
  exists title : string,
    list_ascii_of_string title =
      take 50 (list_ascii_of_string long_message) ++
      (if decide (50 < String.length long_message)
       then list_ascii_of_string "..." else []) /\
    ChatService.created
      (ChatService.sendMessage healthy_server (Some "u1") long_message None None []).2
      = ChatService.created [] ++ [(title, long_message)] /\
    ChatService.created
      (ChatService.sendMessageWithFiles healthy_server (Some "u1") long_message
         ["photo.png"] None []).2
      = ChatService.created [] ++ [(title, long_message)].
Proof.
  apply (auto_created_conversation_title healthy_server (Some "u1") long_message
           None None ["photo.png"] []).
  reflexivity.
Defined.

(** [sendMessageToConversation] against a backend that rejects the
    message: nothing is published and the backend's error reaches the
    caller. *)
Lemma failed_mutation_publishes_nothing_witness :
  ChatService.published
    (ChatService.sendMessageToConversation rejecting_server (Some "u1")
       "c1" "hello" None None []).2 = [] /\
  ChatService.answer_chat rejecting_server []
    (ChatService.message_request "c1" "hello" None None)
  = ChatService.Throw network_error.
Proof.
  pose proof (failed_mutation_publishes_nothing rejecting_server (Some "u1") [])
    as (_ & Hsend & _).
  apply (Hsend "c1" "hello" None None network_error). reflexivity.
Defined.

(** "hello" with one file and no conversation id, on a healthy backend. *)
Lemma new_conversation_file_flow_witness :
  ChatService.sendMessageWithFiles healthy_server (Some "u1") "hello" ["photo.png"]
    None [] =
  (ChatService.Return sample_reply,
   [ChatService.Rest
      {| ChatService.method := ChatService.POST;
         ChatService.url := "/api/chat/conversations";
         ChatService.body := ChatService.CreateBody "hello" "hello" |};
    ChatService.Publish EventBus.conversation_created (Some "c1")
      (Some (PConversation sample_conversation)) (Some "u1");
    ChatService.Rest
      {| ChatService.method := ChatService.POST;
         ChatService.url := "/api/chat/conversations/c1/messages";
         ChatService.body := ChatService.FormData "hello" ["photo.png"] |};
    ChatService.Publish EventBus.message_sent (Some "c1")
      (Some (PMessage "hello" "Hi there")) (Some "u1")]).
Proof.
  exact (new_conversation_file_flow healthy_server (Some "u1") "hello" ["photo.png"]
           None [] (or_introl eq_refl)).
Defined.

(** C4 as stated fails when the backend rejects the creation: called
    without a conversation id against a backend that is down, the
    operation makes the create-conversation call and throws; no
    file-bearing message is sent and no event is published. *)
Lemma rejected_creation_counterexample :
  let run := ChatService.sendMessageWithFiles failing_server (Some "u1") "hello"
               ["photo.png"] None [] in
  run.1 = ChatService.Throw network_error /\
  ChatService.requests run.2 =
    [{| ChatService.method := ChatService.POST;
        ChatService.url := "/api/chat/conversations";
        ChatService.body := ChatService.CreateBody "hello" "hello" |}] /\
  ChatService.published run.2 = [].
Proof. repeat split; reflexivity. Qed.

(** C5 as stated fails for [sendMessageWithFiles]: called without a
    conversation id against a backend that creates the conversation and
    then rejects the message, the operation throws and has published
    [conversation_created]. *)
Lemma failed_file_send_counterexample :
  ChatService.sendMessageWithFiles rejecting_server (Some "u1") "hello" ["photo.png"]
    None [] =
  (ChatService.Throw (ChatService.new_Error (Some "Network Error")),
   [ChatService.Rest (ChatService.create_request "hello" "hello");
    ChatService.Publish EventBus.conversation_created (Some "c1")
      (Some (PConversation sample_conversation)) (Some "u1");
    ChatService.Rest (ChatService.files_request "c1" "hello" ["photo.png"])]).
Proof. reflexivity. Qed.

(* ===================================================================== *)
(** * Properties of the chat wrapper *)
(* ===================================================================== *)

Section WrapperFacts.
Import ChatService ChatWrapper.

Variable server : Server.
Variable userId : option string.
Variable on_new_chat_route : bool.
Variable reacts : list Effect -> Outgoing -> Outcome unit.

Lemma drop_last_snoc (prev : list DisplayMessage) (m : DisplayMessage) :
  drop_last (prev ++ [m]) = prev.
Proof.
  unfold drop_last. rewrite length_app. simpl.
  replace (length prev + 1 - 1) with (length prev) by lia.
  by rewrite take_app_length.
Qed.

(** The callbacks and the router are not the chat service. *)
Lemma service_calls_after_reply (p : Props) (r : ChatResponse) :
  service_calls (after_reply on_new_chat_route p r) = [].
Proof.
  unfold after_reply.
  destruct (conversation_id r) as [id|]; [|done].
  destruct (negb (truthy (conversationId p)) && truthy (Some id)),
    (onConversationCreated p), on_new_chat_route,
    (truthy (Some id) && onConversationUpdated p); reflexivity.
Qed.

(** The calls made are an initial part of the calls planned; nothing is
    thrown exactly when all of them were made. *)
Lemma run_calls_prefix (log : list Effect) (calls : list Outgoing) :
  exists rest, calls = (run_calls reacts log calls).1 ++ rest /\
               ((run_calls reacts log calls).2 = None -> rest = []).
Proof.
  induction calls as [|c calls IH]; simpl.
  - by exists [].
  - destruct (reacts log c) as [[]|err]; simpl.
    + destruct IH as (rest & Heq & Hnone). exists rest. split; [by f_equal|done].
    + exists calls. done.
Qed.


Lemma service_calls_app (l1 l2 : list Outgoing) :
  service_calls (l1 ++ l2) = service_calls l1 ++ service_calls l2.
Proof. unfold service_calls. apply flat_map_app. Qed.

Lemma service_calls_made (log : list Effect) (calls : list Outgoing) :
  service_calls calls = [] -> service_calls (run_calls reacts log calls).1 = [].
Proof.
  intros Hnone. destruct (run_calls_prefix log calls) as (rest & Heq & _).
  rewrite Heq, service_calls_app in Hnone. by apply app_eq_nil in Hnone as [? _].
Qed.


(** [handleSendMessage], case by case on what the closure saw, on the
    outcome of the service call and on what the calls after it threw. *)
Lemma handleSendMessage_run (p : Props) (busy_seen : bool) (text : string)
    (context : option Json) (st : State) (log : list Effect) :
  handleSendMessage server userId on_new_chat_route reacts p busy_seen text context st log =
    if busy_seen then (Return (st, []), log)
    else
      let sent := ServiceSendMessage text (conversationId p) context in
      match sendMessage server userId text (conversationId p) context log with
      | (Return reply, log') =>
          let tail := run_calls reacts log' (after_reply on_new_chat_route p reply) in
          (Return
             (match tail.2 with
              | None =>
                  {| messages := messages st ++ [userMessage text; assistantMessage reply];
                     busy := false; error := None;
                     initialMessageProcessed := initialMessageProcessed st |}
              | Some err =>
                  {| messages := messages st ++ [userMessage text; errorMessage];
                     busy := false;
                     error := or_else (e_message err) (Some "Failed to send message");
                     initialMessageProcessed := initialMessageProcessed st |}
              end,
              sent :: tail.1), log')
      | (Throw err, log') =>
          (Return
             ({| messages := messages st ++ [errorMessage];
                 busy := false;
                 error := or_else (e_message err) (Some "Failed to send message");
                 initialMessageProcessed := initialMessageProcessed st |},
              [sent]), log')
      end.
Proof.
  unfold handleSendMessage. destruct busy_seen; [done|].
  unfold bind, attempt, ret, history.
  destruct (sendMessage server userId text (conversationId p) context log)
    as [[reply|err] log']; cbv zeta.
  - destruct ((run_calls reacts log' (after_reply on_new_chat_route p reply)).2)
      as [err|]; unfold recover, setBusy, setMessages, setError; simpl.
    + rewrite drop_last_snoc. by rewrite <- app_assoc.
    + by rewrite <- app_assoc.
  - unfold recover, setBusy, setMessages, setError. simpl. by rewrite drop_last_snoc.
Qed.

(** C6. Optimistic rollback. Whatever the message list of the wrapper,
    when the chat-service call made by [handleSendMessage] fails, the
    handler ends with the former list followed by one assistant-role error
    message: the optimistic user message is gone, the list is longer by
    one, the wrapper is no longer busy and its error slot is set. *)
Theorem optimistic_rollback (p : Props) (text : string) (context : option Json)
    (st : State) (log log' : list Effect) (err : Error) :
  sendMessage server userId text (conversationId p) context log = (Throw err, log') ->
  let finished :=
    handleSendMessage server userId on_new_chat_route reacts p false text context st log in
  finished.2 = log' /\
  messages (final_state st finished) = messages st ++ [errorMessage] /\
  role errorMessage = assistant /\
  length (messages (final_state st finished)) = length (messages st) + 1 /\
  busy (final_state st finished) = false /\
  is_Some (error (final_state st finished)) /\
  outgoing finished = [ServiceSendMessage text (conversationId p) context].
Proof.
  intros Hfail. cbv zeta. rewrite handleSendMessage_run. cbv zeta. rewrite Hfail.
  unfold final_state, outgoing. simpl.
  repeat split.
  - rewrite length_app. simpl. lia.
  - unfold or_else. destruct (truthy (e_message err)) eqn:Ht.
    + destruct (e_message err); [by eexists | done].
    + by eexists.
Qed.





End WrapperFacts.

(** A send that the backend rejects, from a transcript of two messages. *)
Lemma optimistic_rollback_witness :
  let st := ChatWrapper.mount sample_transcript in
  let finished :=
    ChatWrapper.handleSendMessage rejecting_server (Some "u1") false calm_parent
      (draft_props "") false "hello" None st [] in
  length (ChatWrapper.messages (ChatWrapper.final_state st finished)) = 2 + 1.
Proof.
  pose proof (optimistic_rollback rejecting_server (Some "u1") false calm_parent (draft_props "")
                "hello" None
                (ChatWrapper.mount sample_transcript)
                [] _ network_error eq_refl) as (_ & _ & _ & Hlen & _).
  exact Hlen.
Defined.



(* ===================================================================== *)
(** * Further properties of the event bus *)
(* ===================================================================== *)

Section ChannelFacts.
Import EventBus BusChannel.

Lemma type_name_inj (t1 t2 : ChatEventType) : type_name t1 = type_name t2 -> t1 = t2.
Proof. destruct t1, t2; simpl; intros H; try done; discriminate H. Qed.

Lemma type_name_not_star (t : ChatEventType) : type_name t ≠ "*".
Proof. destruct t; discriminate. Qed.

Lemma registered_subscribe (k : Topic) (cb : Callback) (bus : ChatEventBus)
    (j : string) :
  registered j (subscribe k cb bus).1 =
    if decide (j = topic_key k) then registered j bus ++ [cb] else registered j bus.
Proof.
  unfold registered. case_decide as Hj.
  - subst j. by rewrite subscribe_lookup.
  - by rewrite subscribe_lookup_ne.
Qed.

Lemma remove_first_middle (x : Callback) (pre post : list Callback) :
  x ∉ pre -> remove_first x (pre ++ x :: post) = pre ++ post.
Proof.
  induction pre as [|y pre IH]; simpl; intros Hnot.
  - by rewrite Nat.eqb_refl.
  - apply not_elem_of_cons in Hnot as [Hne Hnot].
    destruct (Nat.eqb_spec y x) as [->|_]; [done|]. by rewrite IH.
Qed.

Lemma remove_first_absent (x : Callback) (l : list Callback) :
  x ∉ l -> remove_first x l = l.
Proof.
  induction l as [|y l IH]; simpl; intros Hnot; [done|].
  apply not_elem_of_cons in Hnot as [Hne Hnot].
  destruct (Nat.eqb_spec y x) as [->|_]; [done|]. by rewrite IH.
Qed.

Lemma registered_unsubscribe (k : Topic) (cb : Callback) (bus : ChatEventBus)
    (j : string) :
  registered j (unsubscribe k cb bus) =
    if decide (j = topic_key k) then remove_first cb (registered j bus)
    else registered j bus.
Proof.
  unfold registered.
  destruct (indexOf cb (default [] (listeners bus !! topic_key k))) as [i|] eqn:Hi.
  - destruct (indexOf_Some _ _ _ Hi) as (pre & post & Heq & Hpre & Hlen).
    unfold unsubscribe. rewrite Hi. simpl. case_decide as Hj.
    + subst j. rewrite lookup_insert_eq. simpl.
      rewrite Heq, <- Hlen, splice1_middle. by rewrite remove_first_middle.
    + by rewrite lookup_insert_ne.
  - apply indexOf_None in Hi. rewrite (unsubscribe_absent k cb bus Hi).
    case_decide as Hj; [|done]. subst j. by rewrite remove_first_absent.
Qed.

Lemma notifyListeners_registered (bus : ChatEventBus) (event : ChatEvent) :
  notifyListeners bus event =
    map (fun listener => (listener, event))
        (registered (type_name (type event)) bus ++ registered "*" bus).
Proof. done. Qed.

(** X1. Subscribing takes effect for exactly the events of the topic: a
    callback subscribed to an event type is called after the listeners
    that type already had and before the wildcard listeners, and events of
    other types are dispatched as before; a wildcard callback is called
    last, for every event. *)
Theorem subscribe_then_notify (bus : ChatEventBus) (cb : Callback)
    (event : ChatEvent) :
  notifyListeners (subscribe (On (type event)) cb bus).1 event =
    map (fun listener => (listener, event))
        (registered (type_name (type event)) bus ++ [cb] ++ registered "*" bus) /\
  notifyListeners (subscribe Star cb bus).1 event =
    notifyListeners bus event ++ [(cb, event)] /\
  (forall t : ChatEventType, t ≠ type event ->
     notifyListeners (subscribe (On t) cb bus).1 event = notifyListeners bus event).
Proof.
  rewrite !notifyListeners_registered. split; [|split].
  - rewrite !registered_subscribe. cbn [topic_key].
    rewrite decide_True by done.
    rewrite decide_False by (intros Heq; symmetry in Heq; by apply type_name_not_star in Heq).
    by rewrite <- app_assoc.
  - rewrite !registered_subscribe. cbn [topic_key].
    rewrite decide_False by apply type_name_not_star.
    rewrite decide_True by done.
    by rewrite app_assoc, map_app.
  - intros t Hne. rewrite notifyListeners_registered, !registered_subscribe.
    cbn [topic_key].
    rewrite decide_False by (intros Heq; apply type_name_inj in Heq; congruence).
    rewrite decide_False
      by (intros Heq; symmetry in Heq; by apply type_name_not_star in Heq).
    done.
Qed.

Section Relayed.

Variable JSON_parse : string -> option Parsed.
Variable coerced_le : Stamp -> Stamp -> bool.

Lemma handleStorageEvent_listeners (bus : ChatEventBus) (e : StorageEvent) :
  listeners (handleStorageEvent JSON_parse coerced_le bus e).1 = listeners bus.
Proof.
  rewrite handleStorageEvent_relayed.
  destruct (relayed JSON_parse e) as [value|]; [|done].
  by destruct (stamp_le coerced_le (stamp_of value) (lastEventTimestamp bus)).
Qed.

Lemma handleStorageEvent_no_listeners (bus : ChatEventBus) (e : StorageEvent) :
  listeners bus = ∅ -> (handleStorageEvent JSON_parse coerced_le bus e).2 = [].
Proof.
  intros Hempty. rewrite handleStorageEvent_relayed.
  destruct (relayed JSON_parse e) as [value|]; [|done].
  destruct (stamp_le coerced_le (stamp_of value) (lastEventTimestamp bus)); [done|].
  simpl. unfold notify. simpl. rewrite Hempty, !lookup_empty.
  by destruct (key_of value).
Qed.

(** X2. A destroyed bus is silent: whatever storage notifications still
    reach it, in any number and order and whatever they carry, no listener
    is called and the listener map stays empty, until somebody subscribes
    again. *)
Theorem destroyed_bus_is_silent (bus : ChatEventBus) (env : Env)
    (es : list StorageEvent) :
  let after := deliver JSON_parse coerced_le (destroy bus env).1 es in
  Forall (fun calls => calls = []) after.2 /\
  listeners after.1 = ∅.
Proof.
  cbv zeta.
  assert (Hgen : forall es b,
            listeners b = ∅ ->
            Forall (fun calls => calls = []) (deliver JSON_parse coerced_le b es).2 /\
            listeners (deliver JSON_parse coerced_le b es).1 = ∅).
  { clear. intros es. induction es as [|e es IH]; intros b Hb; simpl.
    - split; [constructor|done].
    - pose proof (handleStorageEvent_no_listeners b e Hb) as Hcalls.
      pose proof (handleStorageEvent_listeners b e) as Hls.
      destruct (handleStorageEvent JSON_parse coerced_le b e) as [b1 calls].
      simpl in *.
      rewrite Hb in Hls. destruct (IH b1 Hls) as (Hall & Hempty).
      destruct (deliver JSON_parse coerced_le b1 es) as [b2 log]. simpl in *.
      split; [by constructor|done]. }
  exact (Hgen es (destroy bus env).1 eq_refl).
Qed.

Section Written.

Variable JSON_stringify : ChatEvent -> string.

Lemma broadcast_written (env : Env) (now : Z) (quota_exceeded : bool)
    (bus bus' : ChatEventBus) (ty : ChatEventType) (cid : option string)
    (d : option Payload) (uid : option string) (text : string) :
  broadcast JSON_stringify env now quota_exceeded bus ty cid d uid = (bus', Some text) ->
  text = JSON_stringify (built_event now ty cid d uid) /\
  listeners bus' = listeners bus /\
  lastEventTimestamp bus' = Integer now /\
  window_defined env = true /\ quota_exceeded = false.
Proof.
  unfold broadcast. destruct (window_defined env); simpl; [|done].
  destruct quota_exceeded; [done|]. by intros [= <- <-].
Qed.

(** X3. An instance does not hear itself. A broadcast calls no listener
    of the broadcasting instance, and the storage notification for the
    text it wrote, should it come back to that instance, is discarded as
    stale: no listener is called and the state stays as the broadcast left
    it. On a server (no [window]) or when the storage write throws, the
    broadcast changes nothing at all. *)
Theorem own_broadcast_not_dispatched (env : Env) (now : Z) (quota_exceeded : bool)
    (bus : ChatEventBus) (ty : ChatEventType) (cid : option string)
    (d : option Payload) (uid : option string) :
  let sent := broadcast JSON_stringify env now quota_exceeded bus ty cid d uid in
  (forall text : string,
     sent.2 = Some text ->
     JSON_parse text = Some (Typed (built_event now ty cid d uid)) ->
     handleStorageEvent JSON_parse coerced_le sent.1 (written text) = (sent.1, [])) /\
  (window_defined env = false \/ quota_exceeded = true -> sent = (bus, None)).
Proof.
  cbv zeta. split.
  - intros text Htext Hparse.
    destruct (broadcast JSON_stringify env now quota_exceeded bus ty cid d uid)
      as [bus' written_text] eqn:Hsent.
    simpl in Htext. subst written_text.
    apply broadcast_written in Hsent as (_ & _ & Hlast & _).
    cbn [fst snd]. rewrite handleStorageEvent_relayed. unfold relayed, written.
    cbn [key newValue].
    destruct (strict_eq (Some "chat_event") (Some "chat_event") && truthy (Some text));
      [|done].
    rewrite Hparse. cbn [stamp_of timestamp built_event]. rewrite Hlast.
    cbn [stamp_le]. by rewrite Z.leb_refl.
  - unfold broadcast. intros [-> | ->]; [done|]. by destruct (window_defined env).
Qed.

(** The clean-up timer, case by case on what the cell holds. *)
Lemma cleanup_cases (stamp : Z) (text : string) :
  (forall value : Parsed,
     JSON_parse text = Some value -> stamp_of value = Integer stamp -> text ≠ "" ->
     cleanup JSON_parse stamp (Some text) = None) /\
  (forall value : Parsed,
     JSON_parse text = Some value -> stamp_of value ≠ Integer stamp ->
     cleanup JSON_parse stamp (Some text) = Some text) /\
  (JSON_parse text = None -> cleanup JSON_parse stamp (Some text) = Some text) /\
  cleanup JSON_parse stamp None = None.
Proof.
  unfold cleanup. split; [|split; [|split]].
  - intros event Hparse Hts Hne.
    assert (Ht : truthy (Some text) = true).
    { simpl. destruct (String.eqb_spec text ""); done. }
    rewrite Ht, Hparse. by rewrite bool_decide_eq_true_2.
  - intros event Hparse Hts.
    destruct (truthy (Some text)); [|done].
    rewrite Hparse. by rewrite bool_decide_eq_false_2.
  - intros Hparse. destruct (truthy (Some text)); [|done]. by rewrite Hparse.
  - done.
Qed.

(** X4. The clean-up timer of a broadcast stamped [now1] spares what was
    broadcast since: when a later broadcast, from any tab, has overwritten
    the storage cell with an event stamped otherwise, the timer leaves
    that text for the other tabs to read. Only an event written in the
    very same millisecond is removed by it. *)
Theorem cleanup_spares_later_broadcast (now1 now2 : Z) (env : Env)
    (bus : ChatEventBus) (ty : ChatEventType) (cid : option string)
    (d : option Payload) (uid : option string) (cell : option string)
    (text : string) :
  (broadcast JSON_stringify env now2 false bus ty cid d uid).2 = Some text ->
  JSON_parse text = Some (Typed (built_event now2 ty cid d uid)) ->
  let cell2 := cell_after_broadcast JSON_stringify env now2 false bus ty cid d uid cell in
  cell2 = Some text /\
  (now2 ≠ now1 -> cleanup JSON_parse now1 cell2 = Some text) /\
  (now2 = now1 -> text ≠ "" -> cleanup JSON_parse now1 cell2 = None).
Proof.
  intros Hsent Hparse. cbv zeta. unfold cell_after_broadcast. rewrite Hsent.
  destruct (cleanup_cases now1 text) as (Hown & Hother & _).
  split; [done|]. split.
  - intros Hne. apply (Hother _ Hparse). cbn [stamp_of timestamp built_event].
    congruence.
  - intros Heq Htext. apply (Hown _ Hparse); [|done].
    cbn [stamp_of timestamp built_event]. congruence.
Qed.

End Written.
End Relayed.
End ChannelFacts.

(* ===================================================================== *)
(** * Further properties of the sync hook *)
(* ===================================================================== *)

Section WiringFacts.
Import EventBus SyncHook BusChannel HookWiring.

Ltac wiring_step := cbn [mount_from stored_under wired fst snd fold_left].

Lemma registered_mount_from (subs : Subs) (next : nat) (bus : ChatEventBus)
    (key : string) :
  registered key (mount_from subs next bus).1 =
    registered key bus ++ stored_under key subs next.
Proof.
  revert next bus. induction subs as [|sub rest IH]; intros next bus; wiring_step.
  - by rewrite app_nil_r.
  - rewrite IH, registered_subscribe.
    case_bool_decide as Hk.
    + rewrite decide_True by done. by rewrite <- app_assoc.
    + rewrite decide_False by done. done.
Qed.

Lemma registered_unmount (subs : Subs) (next : nat) (bus b : ChatEventBus)
    (key : string) :
  registered key (unmount (mount_from subs next bus).2 b) =
    fold_left (fun l id => remove_first id l) (stored_under key subs next)
              (registered key b).
Proof.
  revert next bus b. unfold unmount.
  induction subs as [|sub rest IH]; intros next bus b; wiring_step; [done|].
  rewrite IH, fold_left_app.
  change ((subscribe sub.1 next bus).2 b) with (unsubscribe sub.1 next b).
  rewrite registered_unsubscribe.
  case_bool_decide as Hk.
  - by rewrite decide_True.
  - by rewrite decide_False.
Qed.

Lemma stored_under_ge (key : string) (subs : Subs) (next id : nat) :
  id ∈ stored_under key subs next -> next <= id.
Proof.
  revert next. induction subs as [|sub rest IH]; intros next; simpl.
  - intros Hin. by apply elem_of_nil in Hin.
  - intros Hin. apply elem_of_app in Hin as [Hin|Hin].
    + case_bool_decide; [|by apply elem_of_nil in Hin].
      apply list_elem_of_singleton in Hin. lia.
    + apply IH in Hin. lia.
Qed.

Lemma remove_all_appended (old ids : list Callback) :
  (forall id, id ∈ ids -> id ∉ old) ->
  fold_left (fun l id => remove_first id l) ids (old ++ ids) = old.
Proof.
  induction ids as [|id ids IH]; intros Hfresh; simpl.
  - by rewrite app_nil_r.
  - rewrite remove_first_middle by (apply Hfresh; apply list_elem_of_here).
    apply IH. intros id' Hin. apply Hfresh. by apply list_elem_of_further.
Qed.

Lemma mount_from_timestamp (subs : Subs) (next : nat) (bus : ChatEventBus) :
  lastEventTimestamp (mount_from subs next bus).1 = lastEventTimestamp bus.
Proof.
  revert next bus. induction subs as [|sub rest IH]; intros next bus; wiring_step; [done|].
  by rewrite IH.
Qed.

Lemma unsubscribe_timestamp (k : Topic) (cb : Callback) (bus : ChatEventBus) :
  lastEventTimestamp (unsubscribe k cb bus) = lastEventTimestamp bus.
Proof. unfold unsubscribe. by destruct (indexOf cb _). Qed.

Lemma unmount_timestamp (subs : Subs) (next : nat) (bus b : ChatEventBus) :
  lastEventTimestamp (unmount (mount_from subs next bus).2 b) = lastEventTimestamp b.
Proof.
  revert next bus b. unfold unmount.
  induction subs as [|sub rest IH]; intros next bus b; wiring_step; [done|].
  rewrite IH.
  change ((subscribe sub.1 next bus).2 b) with (unsubscribe sub.1 next b).
  apply unsubscribe_timestamp.
Qed.

(** X5. Unmounting releases what mounting subscribed. When the listener
    functions of an effect run are new (no listener list of the bus holds
    them), running the effect and then its cleanup leaves every listener
    list of the bus, and its last-seen timestamp, as they were before the
    effect: the listeners of other components stay, those of the hook are
    gone. *)
Theorem hook_unmount_releases (currentUserId : option string)
    (options : UseChatSyncOptions) (next : nat) (bus : ChatEventBus) :
  (forall (key : string) (cb : Callback), cb ∈ registered key bus -> cb < next) ->
  let mounted := mount currentUserId options next bus in
  forall key : string,
    registered key mounted.1 =
      registered key bus ++
      stored_under key (subscriptions currentUserId options) next /\
    registered key (unmount mounted.2 mounted.1) = registered key bus /\
    lastEventTimestamp (unmount mounted.2 mounted.1) = lastEventTimestamp bus.
Proof.
  intros Hfresh mounted key. unfold mounted, mount.
  split; [apply registered_mount_from|]. split.
  - rewrite registered_unmount, registered_mount_from.
    apply remove_all_appended. intros id Hin Hold.
    apply stored_under_ge in Hin. apply Hfresh in Hold. lia.
  - by rewrite unmount_timestamp, mount_from_timestamp.
Qed.

Lemma listener_named_old (subs : Subs) (next cb : nat) :
  cb < next -> listener_named (wired subs next) cb = None.
Proof.
  revert next. induction subs as [|sub rest IH]; intros next Hlt; simpl; [done|].
  destruct (Nat.eqb_spec next cb) as [->|_]; [lia|]. apply IH. lia.
Qed.

Lemma invoke_old (subs : Subs) (next : nat) (event : ChatEvent)
    (old : list Callback) :
  (forall cb, cb ∈ old -> cb < next) ->
  flat_map (invoke (wired subs next)) (map (fun listener => (listener, event)) old) = [].
Proof.
  induction old as [|cb old IH]; intros Hold; simpl; [done|].
  unfold invoke at 1. simpl.
  rewrite listener_named_old by (apply Hold; apply list_elem_of_here).
  simpl. apply IH. intros cb' Hin. apply Hold. by apply list_elem_of_further.
Qed.

(** The hook's own listeners, called with an event, do what the
    subscriptions delivered that event do. *)
Lemma invoke_stored (event : ChatEvent) (subs : Subs) (next : nat)
    (before : list (Callback * (ChatEvent -> list Invocation))) :
  (forall entry, entry ∈ before -> entry.1 < next) ->
  (forall sub, sub ∈ subs -> exists t, sub.1 = On t) ->
  flat_map (invoke (before ++ wired subs next))
    (map (fun listener => (listener, event))
         (stored_under (type_name (type event)) subs next)) =
  flat_map (fun sub => if delivered_to sub.1 event then sub.2 event else []) subs.
Proof.
  revert next before. induction subs as [|sub rest IH]; intros next before Hbefore Hon;
    simpl; [done|].
  assert (Hrest : flat_map (invoke (before ++ (next, sub.2) :: wired rest (S next)))
            (map (fun listener => (listener, event))
                 (stored_under (type_name (type event)) rest (S next))) =
          flat_map (fun sub => if delivered_to sub.1 event then sub.2 event else [])
                   rest).
  { replace (before ++ (next, sub.2) :: wired rest (S next))
      with ((before ++ [(next, sub.2)]) ++ wired rest (S next))
      by (by rewrite <- app_assoc).
    apply IH.
    - intros entry Hin. apply elem_of_app in Hin as [Hin|Hin].
      + apply Hbefore in Hin. lia.
      + apply list_elem_of_singleton in Hin. subst entry. simpl. lia.
    - intros sub' Hin. apply Hon. by apply list_elem_of_further. }
  destruct (Hon sub) as [t Ht]; [apply list_elem_of_here|].
  rewrite Ht. simpl. case_bool_decide as Hkey.
  - apply type_name_inj in Hkey. subst t.
    rewrite bool_decide_eq_true_2 by done. simpl.
    rewrite Hrest. f_equal.
    unfold invoke. simpl.
    assert (Hfind : forall before',
              (forall entry, entry ∈ before' -> entry.1 < next) ->
              listener_named (before' ++ (next, sub.2) :: wired rest (S next)) next
                = Some sub.2).
    { clear. intros before'.
      induction before' as [|[id listener] before' IHb]; intros Hlt; simpl.
      - by rewrite Nat.eqb_refl.
      - destruct (Nat.eqb_spec id next) as [Heq|_].
        + specialize (Hlt (id, listener) (list_elem_of_here _ _)). simpl in Hlt. lia.
        + apply IHb. intros entry' Hin. apply Hlt. by apply list_elem_of_further. }
    by rewrite Hfind.
  - rewrite bool_decide_eq_false_2 by congruence. simpl. exact Hrest.
Qed.

Lemma stored_under_star (subs : Subs) (next : nat) :
  (forall sub, sub ∈ subs -> exists t, sub.1 = On t) ->
  stored_under "*" subs next = [].
Proof.
  revert next. induction subs as [|sub rest IH]; intros next Hon; simpl; [done|].
  destruct (Hon sub) as [t Ht]; [apply list_elem_of_here|].
  rewrite Ht. simpl.
  rewrite bool_decide_eq_false_2 by apply type_name_not_star. simpl.
  apply IH. intros sub' Hin. apply Hon. by apply list_elem_of_further.
Qed.

Lemma subscriptions_on (currentUserId : option string) (options : UseChatSyncOptions)
    (sub : Topic * (ChatEvent -> list Invocation)) :
  sub ∈ subscriptions currentUserId options -> exists t, sub.1 = On t.
Proof.
  unfold subscriptions. destruct options as [[] [] [] [] []]; simpl;
    intros Hin; repeat (apply elem_of_cons in Hin as [->|Hin]; [by eexists|]);
    by apply elem_of_nil in Hin.
Qed.

(** X6. Mounted on a bus, the hook reacts to a dispatched event exactly
    as its listeners prescribe: of all the listener calls the bus makes
    for the event, those that reach the hook's listener functions invoke
    the callbacks [receive] gives, in that order, and no other call of the
    bus reaches the hook. *)
Theorem mounted_hook_receives (currentUserId : option string)
    (options : UseChatSyncOptions) (next : nat) (bus : ChatEventBus)
    (event : ChatEvent) :
  (forall (key : string) (cb : Callback), cb ∈ registered key bus -> cb < next) ->
  let mounted := mount currentUserId options next bus in
  flat_map (invoke (wired (subscriptions currentUserId options) next))
           (notifyListeners mounted.1 event)
  = receive currentUserId options event.
Proof.
  intros Hfresh mounted. unfold mounted, mount.
  rewrite notifyListeners_registered, !registered_mount_from.
  rewrite (stored_under_star _ _ (subscriptions_on currentUserId options)), app_nil_r.
  rewrite !map_app, !flat_map_app.
  rewrite (invoke_old _ next event (registered (type_name (type event)) bus))
    by (intros cb Hin; by apply (Hfresh _ _ Hin)).
  rewrite (invoke_old _ next event (registered "*" bus))
    by (intros cb Hin; by apply (Hfresh _ _ Hin)).
  rewrite app_nil_r. cbn [app].
  apply (invoke_stored event _ next []).
  - intros entry Hin. by apply elem_of_nil in Hin.
  - apply subscriptions_on.
Qed.

(** X7. One event invokes at most one callback of a hook, whoever is
    signed in. With nobody signed in (no user id in the token), nothing
    is taken for an echo: every event with a supplied callback that is a
    [force_refresh] or carries a non-empty [conversationId] is handled,
    whatever its [userId]. *)
Theorem hook_handles_event_once (currentUserId : option string)
    (options : UseChatSyncOptions) (event : ChatEvent) :
  length (receive currentUserId options event) <= 1 /\
  (supplied options (type event) = true ->
   type event = force_refresh \/ truthy (conversationId event) = true ->
   length (receive None options event) = 1).
Proof.
  destruct event as [ty cid d ts uid]. simpl. split.
  - unfold receive, subscriptions.
    destruct options as [[] [] [] [] []], ty; simpl;
      unfold listen_created, listen_updated, listen_deleted, listen_sent,
             listen_refresh, scoped; simpl;
      destruct (shouldHandleEvent currentUserId uid); simpl; try lia;
      destruct (truthy cid); simpl; try lia; destruct cid; simpl; lia.
  - intros Hsup Hcase.
    assert (Hshould : shouldHandleEvent None uid = true).
    { unfold shouldHandleEvent, strict_eq. destruct uid as [u|]; [|done].
      rewrite bool_decide_eq_false_2 by done. simpl. apply orb_true_r. }
    unfold receive, subscriptions.
    destruct Hcase as [->|Hcid].
    + destruct options as [[] [] [] [] []]; simpl in Hsup; try discriminate; simpl;
        unfold listen_refresh; simpl; rewrite Hshould; reflexivity.
    + destruct cid as [c|]; [|discriminate]. simpl in Hcid.
      destruct options as [[] [] [] [] []], ty; simpl in Hsup; try discriminate;
        simpl;
        unfold listen_created, listen_updated, listen_deleted, listen_sent,
               listen_refresh, scoped; simpl;
        rewrite ?Hshould; simpl; rewrite ?Hcid; reflexivity.
Qed.

End WiringFacts.

Section TimerFacts.
Import SyncHook HookWiring.

Lemma scheduleRefresh_one_pending (st : Timers) :
  pending st = ∅ -> one_pending (scheduleRefresh st).
Proof.
  intros Hnone. exists (next_timer st). unfold scheduleRefresh. simpl.
  rewrite Hnone. split; [set_solver|done].
Qed.

Lemma timeout_one_pending (onForceRefresh : bool) (id : positive) (hidden : bool)
    (st : Timers) :
  one_pending st -> one_pending (timeout onForceRefresh id hidden st).1.
Proof.
  intros (cur & Hpending & Href). unfold timeout.
  case_bool_decide as Hin; [|by exists cur].
  simpl. apply scheduleRefresh_one_pending. simpl.
  rewrite Hpending in Hin |- *. set_solver.
Qed.

Lemma timeouts_one_pending (onForceRefresh : bool) (due : list (positive * bool))
    (st : Timers) :
  one_pending st -> one_pending (timeouts onForceRefresh due st).1.
Proof.
  revert st. induction due as [|d later IH]; intros st Hone; simpl; [done|].
  apply IH. by apply timeout_one_pending.
Qed.

Lemma timeouts_idle (onForceRefresh : bool) (due : list (positive * bool))
    (st : Timers) :
  pending st = ∅ -> timeouts onForceRefresh due st = (st, []).
Proof.
  intros Hnone. induction due as [|d later IH]; simpl; [done|].
  unfold timeout. rewrite Hnone.
  rewrite bool_decide_eq_false_2 by set_solver. simpl. by rewrite IH.
Qed.

Lemma tick_fires (onForceRefresh hidden : bool) (st : Timers) :
  one_pending st ->
  one_pending (tick onForceRefresh hidden st).1 /\
  (tick onForceRefresh hidden st).2 =
    if negb hidden && onForceRefresh then [ForceRefresh] else [].
Proof.
  intros Hone. pose proof Hone as (cur & Hpending & Href).
  unfold tick. rewrite Href. split; [by apply timeout_one_pending|].
  unfold timeout. rewrite Hpending.
  rewrite bool_decide_eq_true_2 by set_solver. done.
Qed.

Lemma ticks_refreshes (onForceRefresh : bool) (hidden : list bool) (st : Timers) :
  one_pending st ->
  one_pending (ticks onForceRefresh hidden st).1 /\
  (ticks onForceRefresh hidden st).2 =
    flat_map (fun h => if negb h && onForceRefresh then [ForceRefresh] else []) hidden.
Proof.
  revert st. induction hidden as [|h later IH]; intros st Hone; simpl; [done|].
  destruct (tick_fires onForceRefresh h st Hone) as [Hone1 ->].
  destruct (IH _ Hone1) as [Hone2 ->]. done.
Qed.

(** X8. The auto-refresh timer. Started with no timer set, the effect
    keeps exactly one timer pending, the one the ref names, whatever
    timers come due and in whatever state of the document. Each tick
    refreshes once when the document is visible and the callback was
    supplied, and not at all when it is hidden; no refresh is made up
    later. After the cleanup no timer is pending, so nothing fires after
    unmount. *)
Theorem auto_refresh_keeps_one_timer (onForceRefresh : bool) (st : Timers)
    (due : list (positive * bool)) (hidden : list bool) :
  pending st = ∅ ->
  let running := (timeouts onForceRefresh due (auto_refresh true st)).1 in
  let ticked := ticks onForceRefresh hidden running in
  let stopped := auto_refresh_cleanup true ticked.1 in
  one_pending running /\
  one_pending ticked.1 /\
  ticked.2 =
    flat_map (fun h => if negb h && onForceRefresh then [ForceRefresh] else []) hidden /\
  pending stopped = ∅ /\
  (forall later : list (positive * bool),
     timeouts onForceRefresh later stopped = (stopped, [])).
Proof.
  intros Hnone. cbv zeta.
  assert (Hrunning : one_pending (timeouts onForceRefresh due (auto_refresh true st)).1).
  { apply timeouts_one_pending. by apply scheduleRefresh_one_pending. }
  destruct (ticks_refreshes onForceRefresh hidden _ Hrunning) as [Hticked Hcalls].
  split; [done|]. split; [done|]. split; [done|].
  assert (Hstopped : pending (auto_refresh_cleanup true
            (ticks onForceRefresh hidden
               (timeouts onForceRefresh due (auto_refresh true st)).1).1) = ∅).
  { destruct Hticked as (cur & Hpending & Href).
    unfold auto_refresh_cleanup. simpl. rewrite Href. simpl. rewrite Hpending.
    set_solver. }
  split; [done|]. intros later. by apply timeouts_idle.
Qed.

End TimerFacts.

(* ===================================================================== *)
(** * Further properties of the chat service *)
(* ===================================================================== *)

Section ServiceMoreFacts.
Import EventBus ChatService.

Variable server : Server.
Variable userId : option string.

Lemma published_snoc_rest (log : list Effect) (r : Request) :
  published (log ++ [Rest r]) = published log.
Proof. rewrite published_app. simpl. by rewrite app_nil_r. Qed.


(** An auto-created conversation is requested once by [sendMessage]. *)
Lemma sendMessage_created (message : string) (conversationId : option string)
    (context : option Json) (log : list Effect) :
  needs_new conversationId = true ->
  created (sendMessage server userId message conversationId context log).2 =
    created log ++ [(auto_title message, message)].
Proof.
  intros Hneeds.
  destruct (target_created server userId message conversationId log Hneeds)
    as (tail & Htarget & Htail).
  assert (Hcreated : forall more,
            created more = [] ->
            created ((log ++ Rest (create_request (auto_title message) message) :: tail)
                     ++ more) = created log ++ [(auto_title message, message)]).
  { intros more Hmore.
    change (Rest (create_request (auto_title message) message) :: tail)
      with ([Rest (create_request (auto_title message) message)] ++ tail).
    rewrite !created_app, Htail, Hmore, !app_nil_r. reflexivity. }
  rewrite sendMessage_run.
  destruct (target server userId message conversationId log) as [[cid|e] log1];
    cbn [snd] in Htarget; subst log1.
  - rewrite sendMessageToConversation_run. cbv zeta.
    destruct (answer_chat server _ _); cbn [snd]; by apply Hcreated.
  - cbn [snd]. rewrite <- (app_nil_r (log ++ _)). by apply Hcreated.
Qed.

(** X10. A send to an existing conversation never creates one. Given a
    conversation id that is neither empty nor "new", [sendMessage] and
    [sendMessageWithFiles] make exactly one REST call, whether the backend
    accepts it or not: a POST to
    [/api/chat/conversations/<that id>/messages], carrying the message
    with its context and no attachments, respectively the form data of the
    message and the files. *)
Theorem existing_conversation_not_recreated (message : string) (given : string)
    (context : option Json) (files : list File) (log : list Effect) :
  needs_new (Some given) = false ->
  requests (sendMessage server userId message (Some given) context log).2 =
    requests log ++
    [{| method := POST;
        url := "/api/chat/conversations/" +:+ given +:+ "/messages";
        body := ChatMessageBody message context None |}] /\
  requests (sendMessageWithFiles server userId message files (Some given) log).2 =
    requests log ++
    [{| method := POST;
        url := "/api/chat/conversations/" +:+ given +:+ "/messages";
        body := FormData message files |}] /\
  created (sendMessage server userId message (Some given) context log).2 = created log /\
  created (sendMessageWithFiles server userId message files (Some given) log).2
    = created log.
Proof.
  intros Hneeds.
  assert (Hsend : requests (sendMessage server userId message (Some given) context log).2
                  = requests log ++
                    [{| method := POST;
                        url := "/api/chat/conversations/" +:+ given +:+ "/messages";
                        body := ChatMessageBody message context None |}]).
  { rewrite sendMessage_run, target_run, Hneeds. simpl.
    rewrite sendMessageToConversation_run. cbv zeta.
    destruct (answer_chat server log _); cbn [snd]; by rewrite requests_app. }
  assert (Hfiles : requests
            (sendMessageWithFiles server userId message files (Some given) log).2
            = requests log ++
              [{| method := POST;
                  url := "/api/chat/conversations/" +:+ given +:+ "/messages";
                  body := FormData message files |}]).
  { rewrite sendMessageWithFiles_run, target_run, Hneeds. simpl.
    destruct (answer_chat server log _); cbn [snd]; by rewrite requests_app. }
  split; [done|]. split; [done|].
  unfold created. rewrite Hsend, Hfiles, !flat_map_app. simpl.
  by rewrite !app_nil_r.
Qed.

Lemma substring_length (n : nat) (s : string) :
  String.length (substring 0 n s) = Nat.min n (String.length s).
Proof.
  revert s. induction n as [|n IH]; intros [|c s]; simpl; try done.
  by rewrite IH.
Qed.

Lemma substring_all (n : nat) (s : string) :
  String.length s <= n -> substring 0 n s = s.
Proof.
  revert s. induction n as [|n IH]; intros [|c s]; simpl; intros Hle; try done.
  - lia.
  - rewrite IH by lia. done.
Qed.

Lemma append_length (s1 s2 : string) :
  String.length (s1 +:+ s2) = String.length s1 + String.length s2.
Proof.
  induction s1 as [|c s1 IH]; [done|].
  change (S (String.length (s1 +:+ s2)) = S (String.length s1 + String.length s2)).
  by rewrite IH.
Qed.

Lemma append_empty (s : string) : s +:+ "" = s.
Proof.
  induction s as [|c s IH]; [done|].
  change (String c (s +:+ "") = String c s). by rewrite IH.
Qed.

(** X11. The title of an auto-created conversation is never longer than
    53 code units; it is the message itself when the message has at most
    50, and has exactly 53 otherwise. *)
Theorem auto_title_bounded (message : string) :
  String.length (auto_title message) <= 53 /\
  (String.length message <= 50 -> auto_title message = message) /\
  (50 < String.length message -> String.length (auto_title message) = 53).
Proof.
  assert (Hsame : String.length message <= 50 -> auto_title message = message).
  { intros Hle. unfold auto_title, slice_to.
    rewrite (proj2 (Nat.ltb_ge _ _) Hle). by rewrite append_empty, substring_all. }
  assert (Hlen : String.length (auto_title message) =
                 Nat.min 50 (String.length message) +
                 (if Nat.ltb 50 (String.length message) then 3 else 0)).
  { unfold auto_title, slice_to. rewrite append_length, substring_length.
    by destruct (Nat.ltb 50 (String.length message)). }
  rewrite Hlen.
  destruct (Nat.ltb_spec 50 (String.length message)) as [Hlong|Hshort].
  - split; [lia|]. split; [lia|]. intros _. lia.
  - split; [lia|]. split; [done|lia].
Qed.

End ServiceMoreFacts.

(* ===================================================================== *)
(** * Further properties of the chat wrapper *)
(* ===================================================================== *)

Section WrapperMoreFacts.
Import ChatService ChatWrapper.

Variable server : Server.
Variable userId : option string.
Variable on_new_chat_route : bool.
Variable reacts : list Effect -> Outgoing -> Outcome unit.

Lemma handleSendWithFiles_run (p : Props) (busy_seen : bool) (message : string)
    (files : list File) (provided : option string) (st : State) (log : list Effect) :
  handleSendWithFiles server userId on_new_chat_route reacts p busy_seen message files
    provided st log =
    if busy_seen then (Return (st, []), log)
    else
      let targetConversationId := or_else provided (conversationId p) in
      let sent := ServiceSendMessageWithFiles message files targetConversationId in
      match sendMessageWithFiles server userId message files targetConversationId log with
      | (Return reply, log') =>
          let tail := run_calls reacts log' (after_reply on_new_chat_route p reply) in
          (Return
             (match tail.2 with
              | None =>
                  {| messages :=
                       messages st ++ [userMessage message; assistantMessage reply];
                     busy := false; error := None;
                     initialMessageProcessed := initialMessageProcessed st |}
              | Some err =>
                  {| messages := messages st ++ [userMessage message; filesErrorMessage];
                     busy := false;
                     error := or_else (e_message err) (Some "Failed to process files");
                     initialMessageProcessed := initialMessageProcessed st |}
              end,
              sent :: tail.1), log')
      | (Throw err, log') =>
          (Return
             ({| messages := messages st ++ [filesErrorMessage];
                 busy := false;
                 error := or_else (e_message err) (Some "Failed to process files");
                 initialMessageProcessed := initialMessageProcessed st |},
              [sent]), log')
      end.
Proof.
  unfold handleSendWithFiles. destruct busy_seen; [done|].
  unfold bind, attempt, ret, history. cbv zeta.
  destruct (sendMessageWithFiles server userId message files
              (or_else provided (conversationId p)) log) as [[reply|err] log'].
  - destruct ((run_calls reacts log' (after_reply on_new_chat_route p reply)).2)
      as [err|]; unfold recover, setBusy, setMessages, setError; simpl.
    + rewrite drop_last_snoc. by rewrite <- app_assoc.
    + by rewrite <- app_assoc.
  - unfold recover, setBusy, setMessages, setError. simpl. by rewrite drop_last_snoc.
Qed.


(** X12. The handlers of the wrapper always settle and never leave it
    busy. [handleSendMessage] and [handleSendWithFiles] never throw,
    whatever the backend does and whatever the callbacks throw. Called
    from a render that saw the wrapper busy, they change nothing and call
    nothing; otherwise each of them calls the chat service exactly once,
    before anything else, and ends with [busy = false]. *)
Theorem handlers_always_settle (p : Props) (busy_seen : bool) (text : string)
    (context : option Json) (files : list File) (provided : option string)
    (st : State) (log : list Effect) :
  let sent := handleSendMessage server userId on_new_chat_route reacts p busy_seen text
                context st log in
  let sent_files := handleSendWithFiles server userId on_new_chat_route reacts p busy_seen
                      text files provided st log in
  (exists st' out, sent.1 = Return (st', out)) /\
  (exists st' out, sent_files.1 = Return (st', out)) /\
  (busy_seen = true ->
     sent = (Return (st, []), log) /\ sent_files = (Return (st, []), log)) /\
  (busy_seen = false ->
     busy (final_state st sent) = false /\
     busy (final_state st sent_files) = false /\
     (exists rest,
        outgoing sent = ServiceSendMessage text (conversationId p) context :: rest /\
        service_calls rest = []) /\
     (exists rest,
        outgoing sent_files =
          ServiceSendMessageWithFiles text files (or_else provided (conversationId p))
            :: rest /\
        service_calls rest = [])).
Proof.
  cbv zeta. rewrite handleSendMessage_run, handleSendWithFiles_run. cbv zeta.
  destruct busy_seen.
  - split; [by eexists _, _|]. split; [by eexists _, _|]. split; [done|]. done.
  - destruct (sendMessage server userId text (conversationId p) context log)
      as [[reply|err] log1];
    destruct (sendMessageWithFiles server userId text files
                (or_else provided (conversationId p)) log) as [[reply2|err2] log2];
    (split; [by eexists _, _|]); (split; [by eexists _, _|]); (split; [done|]);
    intros _; unfold final_state, outgoing; cbn [fst snd];
    (split; [by repeat case_match|]); (split; [by repeat case_match|]);
    (split; (eexists; split; [reflexivity|];
             first [ done
                   | apply service_calls_made, service_calls_after_reply ])).
Qed.


(** X14. Rollback of a failed file send. When the chat-service call made
    by [handleSendWithFiles] fails, the handler ends with the former
    transcript followed by one assistant-role message about the files:
    the optimistic user message is gone and the list is longer by one. *)
Theorem file_send_rollback (p : Props) (message : string) (files : list File)
    (provided : option string) (st : State) (log log' : list Effect) (err : Error) :
  sendMessageWithFiles server userId message files
    (or_else provided (conversationId p)) log = (Throw err, log') ->
  let finished := handleSendWithFiles server userId on_new_chat_route reacts p false message
                    files provided st log in
  messages (final_state st finished) = messages st ++ [filesErrorMessage] /\
  role filesErrorMessage = assistant /\
  length (messages (final_state st finished)) = length (messages st) + 1 /\
  error (final_state st finished) =
    or_else (e_message err) (Some "Failed to process files") /\
  finished.2 = log'.
Proof.
  intros Hfail. cbv zeta. rewrite handleSendWithFiles_run. cbv zeta. rewrite Hfail.
  unfold final_state. simpl. repeat split. rewrite length_app. simpl. lia.
Qed.

(** The callbacks that report a new conversation. *)
Lemma after_reply_with_id (p : Props) (r : ChatResponse) :
  truthy (conversationId p) = true ->
  Forall (fun o => match o with
                   | OnConversationCreated _ | RouterReplace _ => False
                   | _ => True
                   end) (after_reply on_new_chat_route p r).
Proof.
  intros Hid. unfold after_reply.
  destruct (conversation_id r) as [id|]; [|constructor].
  rewrite Hid. cbn [negb andb app].
  destruct (truthy (Some id) && onConversationUpdated p).
  - constructor; [exact I | constructor].
  - constructor.
Qed.

(** X15. Creation is reported only by a wrapper without a conversation
    id. A wrapper that was given a non-empty [conversationId] never calls
    [onConversationCreated] and never redirects. That includes the id
    "new": the chat service treats it as no conversation and creates one,
    with the usual title, while the wrapper reports no creation. *)
Theorem creation_reported_only_without_id (p : Props) (text : string)
    (context : option Json) (st : State) (log : list Effect) :
  truthy (conversationId p) = true ->
  let finished := handleSendMessage server userId on_new_chat_route reacts p false text
                    context st log in
  Forall (fun o => match o with
                   | OnConversationCreated _ | RouterReplace _ => False
                   | _ => True
                   end) (outgoing finished) /\
  (conversationId p = Some "new" ->
   created finished.2 = created log ++ [(auto_title text, text)]).
Proof.
  intros Hid. cbv zeta. rewrite handleSendMessage_run. cbv zeta.
  pose proof (sendMessage_created server userId text (conversationId p) context log)
    as Hcreated.
  destruct (sendMessage server userId text (conversationId p) context log)
    as [[reply|err] log1]; unfold outgoing; simpl in *.
  - split.
    + constructor; [done|].
      pose proof (after_reply_with_id p reply Hid) as Hplanned.
      destruct (run_calls_prefix reacts log1
                  (after_reply on_new_chat_route p reply)) as (rest & Heq & _).
      rewrite Heq in Hplanned. by apply Forall_app in Hplanned as [? _].
    + intros Hnew. apply Hcreated. by rewrite Hnew.
  - split.
    + by repeat constructor.
    + intros Hnew. apply Hcreated. by rewrite Hnew.
Qed.

(** X16. Every send from a wrapper without a conversation id creates a
    conversation. As long as the parent has not handed the wrapper an id
    (after a failed send it has none to hand), a second send asks the
    backend for a second conversation: two sends leave two
    create-conversation requests, each with the title of its own
    message. *)
Theorem resend_creates_again (p : Props) (text1 text2 : string)
    (context1 context2 : option Json) (st : State) (log : list Effect) :
  needs_new (conversationId p) = true ->
  let first := handleSendMessage server userId on_new_chat_route reacts p false text1
                 context1 st log in
  let second := handleSendMessage server userId on_new_chat_route reacts p false text2
                  context2 (final_state st first) first.2 in
  created second.2 =
    created log ++ [(auto_title text1, text1); (auto_title text2, text2)].
Proof.
  intros Hneeds. cbv zeta.
  assert (Hlog : forall text context st0 log0,
            created (handleSendMessage server userId on_new_chat_route reacts p false text
                       context st0 log0).2
            = created log0 ++ [(auto_title text, text)]).
  { intros text context st0 log0. rewrite handleSendMessage_run. cbv zeta.
    pose proof (sendMessage_created server userId text (conversationId p) context log0
                  Hneeds) as Hc.
    by destruct (sendMessage server userId text (conversationId p) context log0)
      as [[reply|err] log1]. }
  rewrite !Hlog. by rewrite <- app_assoc.
Qed.

End WrapperMoreFacts.

(* ===================================================================== *)
(** * Properties of the file checks and of the chat input *)
(* ===================================================================== *)

Section FileFacts.
Import FileService.

Lemma sort_file_accepted (acc : list FileInfo * list (FileInfo * string))
    (file : FileInfo) :
  accepted file = true -> sort_file acc file = (acc.1 ++ [file], acc.2).
Proof. unfold sort_file, accepted. by intros ->. Qed.

Lemma sort_file_rejected (acc : list FileInfo * list (FileInfo * string))
    (file : FileInfo) :
  accepted file = false ->
  exists why : string, sort_file acc file = (acc.1, acc.2 ++ [(file, why)]).
Proof. unfold sort_file, accepted. intros ->. by eexists. Qed.

Lemma fold_sort_file (files : list FileInfo)
    (acc : list FileInfo * list (FileInfo * string)) :
  (fold_left sort_file files acc).1 = acc.1 ++ List.filter accepted files /\
  length (fold_left sort_file files acc).2 =
    length acc.2 + (length files - length (List.filter accepted files)) /\
  (forall item, item ∈ acc.2 -> item ∈ (fold_left sort_file files acc).2).
Proof.
  revert acc. induction files as [|file files IH]; intros acc; simpl.
  - split; [by rewrite app_nil_r|]. split; [lia|done].
  - pose proof (List.filter_length_le accepted files) as Hle.
    destruct (IH (sort_file acc file)) as (Hvalid & Hinvalid & Hkeep).
    rewrite Hvalid, Hinvalid.
    destruct (accepted file) eqn:Hok.
    + rewrite (sort_file_accepted acc file Hok) in *. simpl in *.
      split; [by rewrite <- app_assoc|]. split; [lia|done].
    + destruct (sort_file_rejected acc file Hok) as [why Hwhy].
      rewrite Hwhy in *. simpl in *.
      split; [done|]. split; [rewrite length_app; simpl; lia|].
      intros item Hin. apply Hkeep. apply elem_of_app. by left.
Qed.

Lemma filter_accepted_Forall (files : list FileInfo) :
  Forall (fun file => accepted file = true) (List.filter accepted files).
Proof.
  induction files as [|file files IH]; simpl; [constructor|].
  destruct (accepted file) eqn:Hok; [by constructor|done].
Qed.

Lemma includes_spec (l : list string) (x : string) :
  includes l x = true <-> x ∈ l.
Proof.
  unfold includes. induction l as [|y l IH]; simpl.
  - split; [done|]. intros Hin. by apply elem_of_nil in Hin.
  - rewrite orb_true_iff, IH. split.
    + intros [Heq|Hin]; [apply String.eqb_eq in Heq; subst; apply list_elem_of_here|].
      by apply list_elem_of_further.
    + intros Hin. apply elem_of_cons in Hin as [->|Hin]; [left; apply String.eqb_refl|].
      by right.
Qed.

Lemma accepted_spec (file : FileInfo) :
  accepted file = true <->
  file_type file ∈ supportedTypes /\ (file_size file <= 10485760)%Z.
Proof.
  unfold accepted, validateFileClientSide.
  destruct (includes supportedTypes (file_type file)) eqn:Htype; simpl.
  - apply includes_spec in Htype.
    destruct (Z.ltb_spec (maxSizeMB * 1024 * 1024) (file_size file)) as [Hbig|Hok];
      simpl; unfold maxSizeMB in *.
    + split; [done|]. intros [_ Hle]. lia.
    + split; [|done]. intros _. split; [done|lia].
  - split; [done|]. intros [Hin _]. apply includes_spec in Hin. congruence.
Qed.

(** X17. [validateMultipleFiles] sorts every file into exactly one of its
    two results. The valid ones are the files among the first five that
    have a supported type and at most 10 MiB, in their order, so never
    more than five; every file after the fifth is reported invalid, even
    one that would pass on its own. *)
Theorem validateMultipleFiles_sorts (files : list FileInfo) :
  let result := validateMultipleFiles files in
  result.1 = List.filter accepted (take 5 files) /\
  length result.1 <= 5 /\
  length result.1 + length result.2 = length files /\
  Forall (fun file => file_type file ∈ supportedTypes /\
                      (file_size file <= 10485760)%Z) result.1 /\
  (forall file, file ∈ drop 5 files ->
     (file, "Maximum 5 files allowed per message") ∈ result.2).
Proof.
  cbv zeta. unfold validateMultipleFiles.
  destruct (Nat.ltb_spec 5 (length files)) as [Hover|Hfew].
  - destruct (fold_sort_file (take 5 files)
                ([], map (fun file => (file, "Maximum 5 files allowed per message"))
                         (drop 5 files))) as (Hvalid & Hinvalid & Hkeep).
    rewrite Hvalid. simpl in *.
    pose proof (List.filter_length_le accepted (take 5 files)) as Hle.
    rewrite length_take in Hle.
    split; [done|]. split; [lia|]. split.
    + rewrite Hinvalid, length_map, length_drop, length_take. lia.
    + split.
      * eapply Forall_impl; [apply filter_accepted_Forall|].
        intros file Hok. by apply accepted_spec.
      * intros file Hin. apply Hkeep. apply list_elem_of_fmap. by exists file.
  - destruct (fold_sort_file files ([], [])) as (Hvalid & Hinvalid & _).
    rewrite Hvalid. simpl in *.
    rewrite take_ge by lia. rewrite drop_ge by lia.
    pose proof (List.filter_length_le accepted files) as Hle.
    split; [done|]. split; [lia|]. split; [lia|]. split.
    + eapply Forall_impl; [apply filter_accepted_Forall|].
      intros file Hok. by apply accepted_spec.
    + intros file Hin. by apply elem_of_nil in Hin.
Qed.

(** Below 2^53 nothing is lost. *)
Lemma to_double_exact (n : Z) : (0 <= n < 2 ^ 53)%Z -> to_double n = n.
Proof.
  intros [Hlo Hhi]. unfold to_double.
  assert (Hlog : (Z.log2 n < 53)%Z).
  { destruct (Z.eq_dec n 0%Z) as [->|Hne]; [done|].
    apply Z.log2_lt_pow2; lia. }
  by rewrite (proj2 (Z.leb_le _ _)) by lia.
Qed.

Lemma div_exact (a b q : Z) :
  (0 < b)%Z -> (q * b <= a < (q + 1) * b)%Z -> (a / b = q)%Z.
Proof.
  intros Hb [Hlo Hhi]. apply Z.le_antisymm.
  - apply Z.lt_succ_r. apply Z.div_lt_upper_bound; lia.
  - apply Z.div_le_lower_bound; lia.
Qed.

(** X18. Sizes are rounded for display, which shows at the unit
    boundaries. A size within 512 bytes below 1 MiB is shown as
    "1024 KB", not as megabytes. A file of a supported type that exceeds
    the 10 MiB limit by at most 5242 bytes is rejected with the message
    "File too large: 10 MB. Maximum: 10MB". *)
Theorem rounded_sizes_at_the_boundaries (bytes : Z) :
  ((1048064 <= bytes < 1048576)%Z -> formatFileSize bytes = "1024 KB") /\
  (forall file : FileInfo,
     file_size file = bytes -> file_type file ∈ supportedTypes ->
     (10485760 < bytes <= 10491002)%Z ->
     validateFileClientSide file =
       {| valid := false;
          error := Some "File too large: 10 MB. Maximum: 10MB" |}).
Proof.
  split.
  - intros Hrange. unfold formatFileSize.
    rewrite (proj2 (Z.ltb_ge _ _)) by lia.
    rewrite (proj2 (Z.ltb_lt _ _)) by lia.
    assert (Hround : rounded bytes 1024 = 1024%Z).
    { unfold rounded. apply div_exact; lia. }
    by rewrite Hround.
  - intros file Hsize Htype Hrange. unfold validateFileClientSide.
    rewrite (proj2 (includes_spec _ _) Htype). simpl.
    unfold maxSizeMB. rewrite Hsize.
    rewrite (proj2 (Z.ltb_lt _ _)) by lia.
    unfold formatFileSize.
    rewrite (proj2 (Z.ltb_ge bytes 1024)) by lia.
    rewrite (proj2 (Z.ltb_ge bytes 1048576)) by lia.
    assert (Hh : hundredths bytes = 1000%Z).
    { unfold hundredths. rewrite to_double_exact by lia. apply div_exact; lia. }
    by rewrite Hh.
Qed.

End FileFacts.

Section InputFacts.
Import ChatService FileService ChatInput.

Lemma filter_all_accepted (files : list FileInfo) :
  Forall (fun file => accepted file = true) files -> List.filter accepted files = files.
Proof.
  induction 1 as [|file files Hok _ IH]; simpl; [done|]. by rewrite Hok, IH.
Qed.

Lemma same_file_refl (file : FileInfo) : same_file file file = true.
Proof. unfold same_file. by rewrite String.eqb_refl, Z.eqb_refl. Qed.

Lemma filter_already_selected (selected files : list FileInfo) :
  (forall file, file ∈ files -> file ∈ selected) ->
  List.filter
    (fun newFile => negb (existsb (fun existingFile => same_file existingFile newFile)
                                  selected)) files = [].
Proof.
  induction files as [|file files IH]; intros Hsub; simpl; [done|].
  assert (Hex : existsb (fun existingFile => same_file existingFile file) selected = true).
  { apply existsb_exists. exists file. split; [|apply same_file_refl].
    apply list_elem_of_In. apply Hsub. apply list_elem_of_here. }
  rewrite Hex. simpl. apply IH. intros f Hin. apply Hsub. by apply list_elem_of_further.
Qed.

Lemma Forall_list_filter (P : FileInfo -> Prop) (f : FileInfo -> bool)
    (files : list FileInfo) :
  Forall P files -> Forall P (List.filter f files).
Proof.
  induction 1 as [|file files HP _ IH]; simpl; [constructor|].
  destruct (f file); [by constructor|done].
Qed.

(** What [onFileChange] adds to a well-formed selection. *)
Lemma onFileChange_selected (picked : list FileInfo) (st : State) :
  well_selected st ->
  exists added : list FileInfo,
    selectedFiles (onFileChange picked st) = selectedFiles st ++ added /\
    length added <= 5 - length (selectedFiles st) /\
    Forall (fun file => accepted file = true) added /\
    (forall file, file ∈ added -> file ∈ picked).
Proof.
  intros [Hlen Hok]. unfold onFileChange.
  destruct (Nat.eqb (length picked) 0).
  { exists []. rewrite app_nil_r. split; [done|]. split; [simpl; lia|].
    split; [constructor|]. intros file Hin. by apply elem_of_nil in Hin. }
  destruct (validateMultipleFiles_sorts (selectedFiles st ++ picked))
    as (Hvalid & _ & _ & _ & _).
  set (validation := validateMultipleFiles (selectedFiles st ++ picked)) in *.
  set (fresh_only := fun newFile : FileInfo =>
         negb (existsb (fun existingFile => same_file existingFile newFile)
                       (selectedFiles st))).
  set (rest := List.filter accepted (take (5 - length (selectedFiles st)) picked)).
  assert (Hsplit : validation.1 = selectedFiles st ++ rest).
  { rewrite Hvalid. rewrite take_app.
    rewrite (take_ge (selectedFiles st)) by lia.
    rewrite List.filter_app. by rewrite (filter_all_accepted _ Hok). }
  assert (Hnew : List.filter fresh_only validation.1 = List.filter fresh_only rest).
  { rewrite Hsplit, List.filter_app.
    unfold fresh_only at 1. by rewrite filter_already_selected. }
  assert (Hrest_len : length rest <= 5 - length (selectedFiles st)).
  { unfold rest.
    pose proof (List.filter_length_le accepted
                  (take (5 - length (selectedFiles st)) picked)) as Hle.
    rewrite length_take in Hle. lia. }
  assert (Hadded : length (List.filter fresh_only rest) <= 5 - length (selectedFiles st)).
  { pose proof (List.filter_length_le fresh_only rest). lia. }
  assert (Hacc : Forall (fun file => accepted file = true) (List.filter fresh_only rest)).
  { apply Forall_list_filter. apply filter_accepted_Forall. }
  assert (Hfrom : forall file, file ∈ List.filter fresh_only rest -> file ∈ picked).
  { intros file Hin. apply list_elem_of_In in Hin.
    apply List.filter_In in Hin as [Hin _]. apply List.filter_In in Hin as [Hin _].
    apply list_elem_of_In in Hin. by eapply subseteq_take. }
  assert (Hnone : exists added : list FileInfo,
            selectedFiles st = selectedFiles st ++ added /\
            length added <= 5 - length (selectedFiles st) /\
            Forall (fun file => accepted file = true) added /\
            (forall file, file ∈ added -> file ∈ picked)).
  { exists []. rewrite app_nil_r. split; [done|]. split; [simpl; lia|].
    split; [constructor|]. intros file Hin. by apply elem_of_nil in Hin. }
  destruct (Nat.ltb 0 (length validation.2)), (Nat.ltb 0 (length validation.1));
    cbn [selectedFiles setFileError]; try exact Hnone;
    fold fresh_only; rewrite Hnew;
    (destruct (Nat.ltb 0 (length (List.filter fresh_only rest)));
     [cbn [selectedFiles setFileError setSelectedFiles];
      by exists (List.filter fresh_only rest)
     | destruct (Nat.eqb (length validation.2) 0);
       cbn [selectedFiles setFileError]; exact Hnone]).
Qed.

(** X19. The selection stays sendable. Starting from any selection of at
    most five accepted files, in particular the empty one, picking
    files and removing files in any order keeps at most five files
    selected, each of a supported type and at most 10 MiB; picking never
    drops or reorders a file already selected. *)
Theorem selection_stays_well_formed (steps : list SelectionStep) (st : State) :
  well_selected st ->
  well_selected (fold_left selection_step steps st) /\
  (forall picked : list FileInfo,
     exists added, selectedFiles (onFileChange picked st) = selectedFiles st ++ added).
Proof.
  intros Hinit. split.
  - revert st Hinit. induction steps as [|step steps IH]; intros st Hinit; simpl; [done|].
    apply IH. destruct step as [picked|index]; simpl.
    + destruct (onFileChange_selected picked st Hinit)
        as (added & Heq & Hlen & Hok & _).
      destruct Hinit as [Hlen0 Hok0]. unfold well_selected. rewrite Heq.
      split; [rewrite length_app; lia|]. by apply Forall_app.
    + destruct Hinit as [Hlen0 Hok0]. unfold well_selected, removeFile. simpl.
      split.
      * rewrite length_app, length_take, length_drop. lia.
      * apply Forall_app. split.
        -- by apply Forall_take.
        -- by apply Forall_drop.
  - intros picked.
    destruct (onFileChange_selected picked st Hinit) as (added & Heq & _).
    by exists added.
Qed.

Section Wired.

Variable server : Server.
Variable userId : option string.
Variable on_new_chat_route : bool.
Variable reacts : list Effect -> ChatWrapper.Outgoing -> Outcome unit.
Variable trim : string -> string.

(** X20. Wired to the chat wrapper, the input gives up the draft of a
    file send whatever becomes of it. [handleSendWithFiles] never
    rejects, so when the input has files selected and a non-blank message,
    [send] ends with the selected files and the text cleared and no file
    error shown, also when the backend refused the message: the failure
    is only visible in the transcript, as the wrapper's error message. *)
Theorem file_draft_cleared_even_on_failure (wrapper : ChatWrapper.Props)
    (transcript : ChatWrapper.State) (log : list Effect)
    (p : Props) (st : State) :
  onSendWithFiles p = true ->
  busy p = false ->
  selectedFiles st ≠ [] ->
  isProcessingFile st = false ->
  truthy (Some (trim (text st))) = true ->
  let handled :=
    ChatWrapper.handleSendWithFiles server userId on_new_chat_route reacts wrapper (busy p)
      (trim (text st)) (map as_file (selectedFiles st)) (conversationId p)
      transcript log in
  let sent := send trim p None None (settled handled) st in
  selectedFiles sent.1 = [] /\
  text sent.1 = "" /\
  fileError sent.1 = None /\
  isProcessingFile sent.1 = false /\
  sent.2 = [SidebarAutoCollapse;
            OnSendWithFiles (trim (text st)) (selectedFiles st) (conversationId p)] /\
  (forall err log',
     sendMessageWithFiles server userId (trim (text st))
       (map as_file (selectedFiles st))
       (or_else (conversationId p) (ChatWrapper.conversationId wrapper)) log
       = (Throw err, log') ->
     ChatWrapper.messages (ChatWrapper.final_state transcript handled) =
       ChatWrapper.messages transcript ++ [ChatWrapper.filesErrorMessage]).
Proof.
  intros Hwired Hbusy Hfiles Hproc Htext. cbv zeta.
  assert (Hsettled : settled (ChatWrapper.handleSendWithFiles server userId
            on_new_chat_route reacts wrapper (busy p) (trim (text st))
            (map as_file (selectedFiles st)) (conversationId p) transcript log)
          = Return tt).
  { rewrite handleSendWithFiles_run, Hbusy. cbv zeta. unfold settled.
    by destruct (sendMessageWithFiles server userId (trim (text st))
                   (map as_file (selectedFiles st))
                   (or_else (conversationId p) (ChatWrapper.conversationId wrapper)) log)
      as [[reply|err] log']. }
  rewrite Hsettled. unfold send.
  change (or_else None (Some (trim (text st)))) with (Some (trim (text st))).
  cbn [from_option]. unfold id.
  assert (Hlen : Nat.ltb 0 (length (selectedFiles st)) = true).
  { destruct (selectedFiles st); [done|]. done. }
  rewrite Htext, Hproc, Hwired, Hlen. cbn [negb andb fst snd app].
  split; [done|]. split; [done|]. split; [done|]. split; [done|]. split; [done|].
  intros err log' Hfail.
  rewrite handleSendWithFiles_run, Hbusy. cbv zeta. rewrite Hfail. done.
Qed.

End Wired.

End InputFacts.

Section MenuFacts.
Import EventBus ChatService ChatOptionsMenu.

Variable server : Server.
Variable userId : option string.
Variable trim : string -> string.
Variable chat : Conversation.


End MenuFacts.

Section BlankFacts.
Import ChatService FileService ChatInput.

Variable trim : string -> string.

(** X22. A blank message is never sent. Whatever the state of the input
    and however the awaited handler settles, [send] makes at most one call
    of [onSend] or [onSendWithFiles], and the message it passes is never
    empty; with files selected and a blank message it makes no call at
    all, keeps the files and shows the request for a message. When a file
    send is rejected, the files and the text are kept and the file error
    shows the message of the error, or "File processing failed" for a
    thrown value that is not an [Error]. *)
Theorem blank_message_never_sent (p : Props) (messageText : option string)
    (context : option Json) (settles : Outcome unit) (st : State) :
  let sent := send trim p messageText context settles st in
  Forall (fun c => match c with
                   | OnSend t _ | OnSendWithFiles t _ _ => t ≠ ""
                   | SidebarAutoCollapse => True
                   end) sent.2 /\
  length (handler_calls sent.2) <= 1 /\
  (selectedFiles st ≠ [] -> isProcessingFile st = false ->
   truthy (or_else messageText (Some (trim (text st)))) = false ->
   sent.2 = [] /\
   selectedFiles sent.1 = selectedFiles st /\
   fileError sent.1 = Some "Please enter a message to send with the file(s)") /\
  (selectedFiles st ≠ [] -> isProcessingFile st = false ->
   truthy (or_else messageText (Some (trim (text st)))) = true ->
   forall err, settles = Throw err ->
     selectedFiles sent.1 = selectedFiles st /\
     text sent.1 = text st /\
     isProcessingFile sent.1 = false /\
     fileError sent.1 =
       if is_Error err then e_message err else Some "File processing failed").
Proof.
  cbv zeta. unfold send.
  set (t := default "" (or_else messageText (Some (trim (text st))))).
  assert (Ht : truthy (Some t) = truthy (or_else messageText (Some (trim (text st))))).
  { unfold t, or_else. destruct (truthy messageText) eqn:Hm; [|done].
    destruct messageText; [done|discriminate]. }
  assert (Hne : truthy (Some t) = true -> t ≠ "").
  { simpl. destruct (String.eqb_spec t ""); [discriminate|done]. }
  assert (Hlen : selectedFiles st ≠ [] -> Nat.ltb 0 (length (selectedFiles st)) = true).
  { destruct (selectedFiles st); [done|]. done. }
  split; [|split; [|split]].
  - destruct (Nat.ltb 0 (length (selectedFiles st)) && negb (isProcessingFile st)).
    + destruct (truthy (Some t)) eqn:Htruthy; cbn [negb].
      * destruct settles; cbn [snd]; repeat constructor; try (by apply Hne);
          destruct (onSendWithFiles p); by apply Hne.
      * cbn [snd]. constructor.
    + destruct (truthy (Some t)) eqn:Htruthy; cbn [negb orb].
      * destruct (busy p || isProcessingFile st); cbn [snd]; repeat constructor.
        by apply Hne.
      * cbn [snd]. constructor.
  - destruct (Nat.ltb 0 (length (selectedFiles st)) && negb (isProcessingFile st)).
    + destruct (truthy (Some t)); cbn [negb]; [destruct settles|];
        destruct (onSendWithFiles p); cbn [snd length app handler_calls flat_map];
        simpl; lia.
    + destruct (truthy (Some t)); cbn [negb orb];
        [destruct (busy p || isProcessingFile st)|];
        cbn [snd length app handler_calls flat_map]; simpl; lia.
  - intros Hfiles Hproc Hblank. rewrite Hproc, Ht, Hblank, (Hlen Hfiles). done.
  - intros Hfiles Hproc Hfull err ->. rewrite Hproc, Ht, Hfull, (Hlen Hfiles). done.
Qed.

End BlankFacts.

Section ReplayFacts.
Import EventBus.

Variable JSON_parse : string -> option Parsed.
Variable coerced_le : Stamp -> Stamp -> bool.

(** X23. With well-formed traffic, a relayed event is dispatched at most
    once. When the instance has seen an integer timestamp last and every
    relayed value carries an integer timestamp, a storage notification
    that has been delivered to the instance calls no listener and changes
    nothing when it is delivered again, at once or after any other such
    notifications. *)
Theorem replayed_event_not_redispatched (bus : ChatEventBus) (seen : Z)
    (e : StorageEvent) (es : list StorageEvent) :
  lastEventTimestamp bus = Integer seen ->
  Forall (integer_stamped JSON_parse) (e :: es) ->
  let later :=
    (deliver JSON_parse coerced_le
       (handleStorageEvent JSON_parse coerced_le bus e).1 es).1 in
  handleStorageEvent JSON_parse coerced_le later e = (later, []).
Proof.
  intros Hseen Hall. cbv zeta.
  apply Forall_cons in Hall as [He Hes].
  destruct (relayed JSON_parse e) as [value|] eqn:Hrel;
    [|by apply handleStorageEvent_ignored].
  assert (Hn : exists n : Z, stamp_of value = Integer n).
  { unfold integer_stamped in He. by rewrite Hrel in He. }
  destruct Hn as [n Hn].
  assert (Hfirst : exists s1 : Z,
            lastEventTimestamp (handleStorageEvent JSON_parse coerced_le bus e).1
              = Integer s1 /\ (n <= s1)%Z).
  { rewrite handleStorageEvent_relayed, Hrel, Hn, Hseen. cbn [stamp_le].
    destruct (Z.leb_spec n seen); cbn [fst lastEventTimestamp].
    - exists seen. split; [done|lia].
    - exists n. split; [done|lia]. }
  destruct Hfirst as (s1 & Hs1 & Hle1).
  destruct (deliver_monotone JSON_parse coerced_le _ es s1 Hes Hs1) as (s2 & Hs2 & Hle2).
  apply (handleStorageEvent_stale JSON_parse coerced_le _ e value Hrel).
  rewrite Hn, Hs2. cbn [stamp_le]. apply Z.leb_le. lia.
Qed.

(** X24. A relayed value without a timestamp opens the filter. Such a
    value is dispatched whatever the instance has seen, and leaves the
    last-seen timestamp undefined; the next relayed value is then
    dispatched whatever its timestamp, an event older than those already
    dispatched included. *)
Theorem unstamped_value_reopens_filter (bus : ChatEventBus) (e e' : StorageEvent)
    (value value' : Parsed) :
  relayed JSON_parse e = Some value ->
  stamp_of value = Absent ->
  relayed JSON_parse e' = Some value' ->
  let opened := handleStorageEvent JSON_parse coerced_le bus e in
  opened = ({| listeners := listeners bus; lastEventTimestamp := Absent |},
            notify bus value) /\
  handleStorageEvent JSON_parse coerced_le opened.1 e' =
    ({| listeners := listeners bus; lastEventTimestamp := stamp_of value' |},
     notify bus value').
Proof.
  intros Hrel Habsent Hrel'. cbv zeta.
  assert (Hopen : handleStorageEvent JSON_parse coerced_le bus e =
                  ({| listeners := listeners bus; lastEventTimestamp := Absent |},
                   notify bus value)).
  { rewrite (handleStorageEvent_fresh JSON_parse coerced_le bus e value Hrel).
    - by rewrite Habsent.
    - by rewrite Habsent. }
  split; [exact Hopen|]. rewrite Hopen. cbn [fst].
  rewrite (handleStorageEvent_fresh JSON_parse coerced_le _ e' value' Hrel').
  - done.
  - cbn [lastEventTimestamp]. by destruct (stamp_of value').
Qed.

End ReplayFacts.

(* ===================================================================== *)
(** * The further properties at concrete inputs *)
(* ===================================================================== *)

Lemma subscribe_then_notify_witness :
  EventBus.notifyListeners
    (EventBus.subscribe (EventBus.On EventBus.force_refresh) 2 listening_bus).1
    (sample_event 7)
  = EventBus.notifyListeners listening_bus (sample_event 7).
Proof.
  pose proof (subscribe_then_notify listening_bus 2 (sample_event 7)) as (_ & _ & Hother).
  apply Hother. discriminate.
Defined.

Lemma own_broadcast_not_dispatched_witness :
  let sent := EventBus.broadcast sample_stringify browser 5 false listening_bus
                EventBus.message_sent (Some "c1") None (Some "u2") in
  EventBus.handleStorageEvent sample_parse no_coercion sent.1
    (BusChannel.written "at 5")
  = (sent.1, []).
Proof.
  pose proof (own_broadcast_not_dispatched sample_parse no_coercion sample_stringify
                browser 5
                false listening_bus EventBus.message_sent (Some "c1") None (Some "u2"))
    as [Hback _].
  apply Hback; reflexivity.
Defined.

(** After an event stamped 5, the one stamped 3 is not dispatched again
    when its notification is repeated. *)
Lemma replayed_event_not_redispatched_witness :
  let later :=
    (EventBus.deliver sample_parse no_coercion
       (EventBus.handleStorageEvent sample_parse no_coercion listening_bus
          (storage_event "at 3")).1
       [storage_event "at 5"]).1 in
  EventBus.handleStorageEvent sample_parse no_coercion later (storage_event "at 3")
  = (later, []).
Proof.
  apply (replayed_event_not_redispatched sample_parse no_coercion listening_bus 0
           (storage_event "at 3") [storage_event "at 5"] eq_refl).
  repeat constructor; by eexists.
Defined.

(** An event stamped 5, then an object without timestamp, then the event
    stamped 3: the older event is dispatched to the listener. *)
Lemma unstamped_value_reopens_filter_witness :
  let seen := (EventBus.handleStorageEvent sample_parse no_coercion listening_bus
                 (storage_event "at 5")).1 in
  let opened := EventBus.handleStorageEvent sample_parse no_coercion seen
                  (storage_event "unstamped") in
  EventBus.lastEventTimestamp seen = EventBus.Integer 5 /\
  (EventBus.handleStorageEvent sample_parse no_coercion opened.1
     (storage_event "at 3")).2
  = [(1, EventBus.Typed (sample_event 3))].
Proof.
  split; [reflexivity|].
  pose proof (unstamped_value_reopens_filter sample_parse no_coercion
                (EventBus.handleStorageEvent sample_parse no_coercion listening_bus
                   (storage_event "at 5")).1
                (storage_event "unstamped") (storage_event "at 3")
                (EventBus.Untyped (Some "message_sent") EventBus.Absent)
                (EventBus.Typed (sample_event 3)) eq_refl eq_refl eq_refl)
    as [_ Hnext].
  cbv zeta. rewrite Hnext. reflexivity.
Defined.

Lemma cleanup_spares_later_broadcast_witness :
  BusChannel.cleanup sample_parse 3
    (BusChannel.cell_after_broadcast sample_stringify browser 5 false fresh_bus
       EventBus.message_sent (Some "c1") None (Some "u2") None)
  = Some "at 5".
Proof.
  pose proof (cleanup_spares_later_broadcast sample_parse sample_stringify 3 5 browser
                fresh_bus EventBus.message_sent (Some "c1") None (Some "u2") None
                "at 5" eq_refl eq_refl) as (_ & Hkept & _).
  apply Hkept. discriminate.
Defined.

Lemma fresh_bus_has_no_listener (key : string) (cb : EventBus.Callback) :
  cb ∈ BusChannel.registered key fresh_bus -> cb < 0.
Proof.
  unfold BusChannel.registered, fresh_bus. simpl. rewrite lookup_empty. simpl.
  intros Hin. by apply elem_of_nil in Hin.
Defined.

Lemma hook_unmount_releases_witness :
  let mounted := HookWiring.mount (Some "u1") all_callbacks 0 fresh_bus in
  BusChannel.registered "message_sent" mounted.1 = [3] /\
  BusChannel.registered "message_sent" (HookWiring.unmount mounted.2 mounted.1) = [].
Proof.
  pose proof (hook_unmount_releases (Some "u1") all_callbacks 0 fresh_bus
                fresh_bus_has_no_listener "message_sent") as (Hmounted & Hreleased & _).
  split; [exact Hmounted | exact Hreleased].
Defined.

Lemma mounted_hook_receives_witness :
  let mounted := HookWiring.mount (Some "u1") all_callbacks 0 fresh_bus in
  flat_map
    (HookWiring.invoke
       (HookWiring.wired (SyncHook.subscriptions (Some "u1") all_callbacks) 0))
    (EventBus.notifyListeners mounted.1 (sample_event 7))
  = [SyncHook.MessageSent "c1" None].
Proof.
  exact (mounted_hook_receives (Some "u1") all_callbacks 0 fresh_bus (sample_event 7)
           fresh_bus_has_no_listener).
Defined.

Lemma hook_handles_event_once_witness :
  length (SyncHook.receive None all_callbacks (sample_event 7)) = 1.
Proof.
  pose proof (hook_handles_event_once None all_callbacks (sample_event 7)) as [_ Hone].
  apply Hone; [reflexivity | right; reflexivity].
Defined.

Lemma auto_refresh_keeps_one_timer_witness :
  let running :=
    (HookWiring.timeouts true [(1%positive, false); (2%positive, true)]
       (HookWiring.auto_refresh true HookWiring.no_timers)).1 in
  (HookWiring.ticks true [false; true; false] running).2 =
    [SyncHook.ForceRefresh; SyncHook.ForceRefresh].
Proof.
  pose proof (auto_refresh_keeps_one_timer true HookWiring.no_timers
                [(1%positive, false); (2%positive, true)] [false; true; false]
                eq_refl) as (_ & _ & Hcalls & _).
  exact Hcalls.
Defined.


Lemma existing_conversation_not_recreated_witness :
  ChatService.requests
    (ChatService.sendMessage healthy_server (Some "u1") "hello" (Some "c1") None []).2
  = [{| ChatService.method := ChatService.POST;
        ChatService.url := "/api/chat/conversations/c1/messages";
        ChatService.body := ChatService.ChatMessageBody "hello" None None |}] /\
  ChatService.created
    (ChatService.sendMessage healthy_server (Some "u1") "hello" (Some "c1") None []).2
  = [].
Proof.
  pose proof (existing_conversation_not_recreated healthy_server (Some "u1") "hello"
                "c1" None [] [] eq_refl) as (Hone & _ & Hnone & _).
  split; [exact Hone | exact Hnone].
Defined.

Lemma auto_title_bounded_witness :
  String.length (ChatService.auto_title long_message) = 53.
Proof.
  pose proof (auto_title_bounded long_message) as (_ & _ & Hlong).
  apply Hlong. vm_compute. lia.
Defined.

(** A send that the backend rejects: the service is called once, nothing
    else is, and the wrapper is not left busy. *)
Lemma handlers_always_settle_witness :
  let sent := ChatWrapper.handleSendMessage rejecting_server (Some "u1") false
                calm_parent open_props false "hello" None (ChatWrapper.mount []) [] in
  ChatWrapper.busy (ChatWrapper.final_state (ChatWrapper.mount []) sent) = false /\
  exists rest,
    ChatWrapper.outgoing sent =
      ChatWrapper.ServiceSendMessage "hello" (Some "c1") None :: rest /\
    ChatWrapper.service_calls rest = [].
Proof.
  pose proof (handlers_always_settle rejecting_server (Some "u1") false calm_parent
                open_props false "hello" None [] None (ChatWrapper.mount []) [])
    as (_ & _ & _ & Hidle).
  destruct (Hidle eq_refl) as (Hbusy & _ & Hsent & _).
  split; [exact Hbusy | exact Hsent].
Defined.


Lemma file_send_rollback_witness :
  length
    (ChatWrapper.messages
       (ChatWrapper.final_state (ChatWrapper.mount [])
          (ChatWrapper.handleSendWithFiles rejecting_server (Some "u1") false calm_parent
             open_props false "hello" ["photo.png"] None (ChatWrapper.mount []) [])))
  = 0 + 1.
Proof.
  pose proof (file_send_rollback rejecting_server (Some "u1") false calm_parent open_props "hello"
                ["photo.png"] None (ChatWrapper.mount []) [] _
                (ChatService.new_Error (Some "Network Error")) eq_refl)
    as (_ & _ & Hlen & _).
  exact Hlen.
Defined.

Lemma creation_reported_only_without_id_witness :
  ChatService.created
    (ChatWrapper.handleSendMessage healthy_server (Some "u1") true calm_parent sentinel_props false
       "hello" None (ChatWrapper.mount []) []).2
  = [("hello", "hello")].
Proof.
  pose proof (creation_reported_only_without_id healthy_server (Some "u1") true calm_parent
                sentinel_props "hello" None (ChatWrapper.mount []) [] eq_refl)
    as [_ Hcreated].
  apply Hcreated. reflexivity.
Defined.

Lemma resend_creates_again_witness :
  let first := ChatWrapper.handleSendMessage rejecting_server (Some "u1") true calm_parent
                 (draft_props "") false "hello" None (ChatWrapper.mount []) [] in
  let second := ChatWrapper.handleSendMessage rejecting_server (Some "u1") true calm_parent
                  (draft_props "") false "hello again" None
                  (ChatWrapper.final_state (ChatWrapper.mount []) first) first.2 in
  ChatService.created second.2 = [("hello", "hello"); ("hello again", "hello again")].
Proof.
  exact (resend_creates_again rejecting_server (Some "u1") true calm_parent (draft_props "")
           "hello" "hello again" None None (ChatWrapper.mount []) [] eq_refl).
Defined.

Lemma validateMultipleFiles_sorts_witness :
  (photo "f.png", "Maximum 5 files allowed per message")
    ∈ (FileService.validateMultipleFiles six_files).2.
Proof.
  pose proof (validateMultipleFiles_sorts six_files) as (_ & _ & _ & _ & Hover).
  apply Hover. vm_compute. apply list_elem_of_here.
Defined.

Lemma rounded_sizes_at_the_boundaries_witness :
  FileService.validateFileClientSide big_pdf =
    {| FileService.valid := false;
       FileService.error := Some "File too large: 10 MB. Maximum: 10MB" |}.
Proof.
  pose proof (rounded_sizes_at_the_boundaries 10486000) as [_ Hlimit].
  apply Hlimit.
  - reflexivity.
  - apply includes_spec. reflexivity.
  - lia.
Defined.

Lemma empty_input_well_selected : ChatInput.well_selected ChatInput.empty_input.
Proof. split; [simpl; lia | constructor]. Defined.

Lemma selection_stays_well_formed_witness :
  ChatInput.well_selected
    (fold_left ChatInput.selection_step
       [ChatInput.Pick six_files; ChatInput.Remove 0; ChatInput.Pick [big_pdf]]
       ChatInput.empty_input).
Proof.
  pose proof (selection_stays_well_formed
                [ChatInput.Pick six_files; ChatInput.Remove 0; ChatInput.Pick [big_pdf]]
                ChatInput.empty_input empty_input_well_selected) as [Hkept _].
  exact Hkept.
Defined.

Lemma file_draft_cleared_even_on_failure_witness :
  let handled :=
    ChatWrapper.handleSendWithFiles rejecting_server (Some "u1") false calm_parent open_props false
      "what is this?" ["a.png"] (Some "c1") (ChatWrapper.mount []) [] in
  let sent := ChatInput.send no_trim wired_input None None
                (ChatInput.settled handled) draft_with_photo in
  ChatInput.selectedFiles sent.1 = [] /\ ChatInput.text sent.1 = "" /\
  ChatInput.fileError sent.1 = None.
Proof.
  pose proof (file_draft_cleared_even_on_failure rejecting_server (Some "u1") false calm_parent
                no_trim open_props (ChatWrapper.mount []) [] wired_input
                draft_with_photo eq_refl eq_refl ltac:(discriminate) eq_refl eq_refl)
    as (Hfiles & Htext & Herror & _).
  split; [exact Hfiles|]. split; [exact Htext | exact Herror].
Defined.


Lemma blank_message_never_sent_witness :
  let sent := ChatInput.send no_trim wired_input None None (ChatService.Return tt)
                {| ChatInput.text := ""; ChatInput.selectedFiles := [photo "a.png"];
                   ChatInput.isProcessingFile := false;
                   ChatInput.fileError := None |} in
  sent.2 = [] /\
  ChatInput.selectedFiles sent.1 = [photo "a.png"] /\
  ChatInput.fileError sent.1 = Some "Please enter a message to send with the file(s)".
Proof.
  pose proof (blank_message_never_sent no_trim wired_input None None
                (ChatService.Return tt)
                {| ChatInput.text := ""; ChatInput.selectedFiles := [photo "a.png"];
                   ChatInput.isProcessingFile := false;
                   ChatInput.fileError := None |}) as (_ & _ & Hblank).
  apply Hblank; [discriminate | reflexivity | reflexivity].
Defined.
